(** * Scafflater: options resolution, processor pipeline and manifest commit

    A shallow embedding of
    - [packages/scafflater/options/index.js]          (class ScafflaterOptions),
    - [packages/scafflater/config-provider/index.js]  (class ConfigProvider),
    - [packages/scafflater/generator/processors/processor.js] (class Processor),
    - the Scafflater entry class ([init] / [runPartial]),
    together with the parts of the JavaScript runtime these functions lean on:
    strings of code units, the backtracking regular-expression matcher behind
    [String.prototype.matchAll] / [String.prototype.replace], own-property
    maps, object spread and a heap of objects addressed by reference. *)

From Stdlib Require Import Ascii NArith.
From stdpp Require Import gmap strings list pretty sorting.

Set Warnings "-register-all".
Local Open Scope nat_scope.

(** ** Code units

    Strings are sequences of code units in the Latin-1 range, one [ascii]
    per code unit.  The character predicates below are the ECMAScript ones
    restricted to that range. *)

Module Chars.

Definition code (c : ascii) : N := N_of_ascii c.

(** LineTerminator: LF and CR (U+2028 and U+2029 lie outside the range). *)
Definition is_line_terminator (c : ascii) : bool :=
  (code c =? 10)%N || (code c =? 13)%N.

(** WhiteSpace and LineTerminator, the set behind [\s] and [trim]:
    TAB, LF, VT, FF, CR, SP and NBSP. *)
Definition is_space (c : ascii) : bool :=
  ((9 <=? code c)%N && (code c <=? 13)%N) || (code c =? 32)%N || (code c =? 160)%N.

(** Canonicalize of a case-insensitive, non-unicode RegExp: the code unit
    of [toUpperCase] when that is a single code unit.  In the Latin-1
    range this moves a-z and the accented lower-case letters (but not the
    division sign) down by 32 and fixes every other code unit;
    [U+00B5], [U+00DF] and [U+00FF] have no upper case inside the range. *)
Definition canonicalize (c : ascii) : ascii :=
  let n := code c in
  if ((97 <=? n)%N && (n <=? 122)%N)
     || ((224 <=? n)%N && (n <=? 254)%N && negb (n =? 247)%N)
  then ascii_of_N (n - 32)%N
  else c.

Definition same_char (ignore_case : bool) (a b : ascii) : bool :=
  if ignore_case then Ascii.eqb (canonicalize a) (canonicalize b)
  else Ascii.eqb a b.

End Chars.

(** ** Regular expressions

    The fragment of the pattern language that the two patterns of
    [options/index.js] are written in. *)

Module RegExp.
Import Chars.

Inductive class_atom :=
| AChar (c : ascii)          (* a single class character *)
| ASpace.                    (* the escape \s *)

Inductive regex :=
| Empty
| Chr (c : ascii)                               (* pattern character *)
| Dot                                           (* .  *)
| Cls (negated : bool) (atoms : list class_atom)(* [..], [^..], \s *)
| Seq (r1 r2 : regex)
| Alt (r1 r2 : regex)                           (* r1|r2 *)
| Star (greedy : bool) (r : regex)              (* r* and r*? *)
| Opt (greedy : bool) (r : regex)               (* r? and r?? *)
| Group (id : nat) (r : regex).                 (* capturing parentheses *)

(** Captures: for each group number the span [(start, end)] it matched. *)
Definition captures := list (nat * (nat * nat)).

Definition get_capture (i : nat) (cs : captures) : option (nat * nat) :=
  snd <$> List.find (fun e => Nat.eqb (fst e) i) cs.

Definition clear_capture (i : nat) (cs : captures) : captures :=
  List.filter (fun e => negb (Nat.eqb (fst e) i)) cs.

Definition set_capture (i : nat) (span : nat * nat) (cs : captures) : captures :=
  (i, span) :: clear_capture i cs.

Fixpoint group_ids (r : regex) : list nat :=
  match r with
  | Empty | Chr _ | Dot | Cls _ _ => []
  | Seq r1 r2 | Alt r1 r2 => group_ids r1 ++ group_ids r2
  | Star _ r1 | Opt _ r1 => group_ids r1
  | Group i r1 => i :: group_ids r1
  end.

Definition clear_captures (ids : list nat) (cs : captures) : captures :=
  fold_right clear_capture cs ids.

Definition atom_matches (ignore_case : bool) (ch : ascii) (a : class_atom) : bool :=
  match a with
  | AChar c => same_char ignore_case c ch
  | ASpace => is_space ch
  end.

Definition class_matches (ignore_case negated : bool) (atoms : list class_atom)
    (ch : ascii) : bool :=
  xorb negated (existsb (atom_matches ignore_case ch) atoms).

(** A matcher state is the rest of the input, the index reached and the
    captures so far; a continuation decides whether the rest of the
    pattern matches from there. *)
Definition continuation := string → nat → captures → option (nat * captures).

Definition first_of {A} (x y : option A) : option A :=
  match x with Some _ => x | None => y end.

(** The backtracking matcher of the language specification, in
    continuation-passing style.  Quantified atoms reject an iteration that
    consumes nothing and reset the captures of the groups they enclose at
    the start of each iteration.  The inner loop of [Star] counts
    iterations; each consumes at least one code unit, so one more than the
    number of remaining code units is never exhausted. *)
Fixpoint run (ic : bool) (r : regex) (k : continuation)
    (s : string) (pos : nat) (cs : captures) {struct r} : option (nat * captures) :=
  match r with
  | Empty => k s pos cs
  | Chr c =>
      match s with
      | String ch s' => if same_char ic c ch then k s' (S pos) cs else None
      | EmptyString => None
      end
  | Dot =>
      match s with
      | String ch s' => if is_line_terminator ch then None else k s' (S pos) cs
      | EmptyString => None
      end
  | Cls negated atoms =>
      match s with
      | String ch s' =>
          if class_matches ic negated atoms ch then k s' (S pos) cs else None
      | EmptyString => None
      end
  | Seq r1 r2 => run ic r1 (fun s' p' c' => run ic r2 k s' p' c') s pos cs
  | Alt r1 r2 => first_of (run ic r1 k s pos cs) (run ic r2 k s pos cs)
  | Group i r1 =>
      run ic r1 (fun s' p' c' => k s' p' (set_capture i (pos, p') c')) s pos cs
  | Opt greedy r1 =>
      let once :=
        run ic r1 (fun s' p' c' => if Nat.eqb p' pos then None else k s' p' c')
            s pos (clear_captures (group_ids r1) cs) in
      if greedy then first_of once (k s pos cs) else first_of (k s pos cs) once
  | Star greedy r1 =>
      (fix loop (fuel : nat) (s : string) (pos : nat) (cs : captures)
         : option (nat * captures) :=
         let again :=
           match fuel with
           | O => None
           | S fuel' =>
               run ic r1
                 (fun s' p' c' => if Nat.eqb p' pos then None else loop fuel' s' p' c')
                 s pos (clear_captures (group_ids r1) cs)
           end in
         if greedy then first_of again (k s pos cs)
         else first_of (k s pos cs) again)
        (S (String.length s)) s pos cs
  end.

(** One attempt at a fixed index: the end of the match and its captures. *)
Definition match_here (ic : bool) (r : regex) (s : string) (pos : nat)
    : option (nat * captures) :=
  run ic r (fun _ p c => Some (p, c)) s pos [].

Record match_result := MatchResult {
  index : nat;                 (* c.index *)
  last : nat;                  (* index + c[0].length *)
  groups : captures
}.

(** The loop of a global RegExp over [lastIndex], unrolled along the
    input: [skip] code units remain inside the previous match; otherwise a
    match is attempted here and the scan resumes at its end (one further
    along after an empty match). *)
Fixpoint scan (ic : bool) (r : regex) (s : string) (pos skip : nat)
    : list match_result :=
  match skip with
  | S skip' =>
      match s with
      | String _ s' => scan ic r s' (S pos) skip'
      | EmptyString => []
      end
  | O =>
      match match_here ic r s pos with
      | Some (e, cs) =>
          MatchResult pos e cs ::
          match s with
          | String _ s' => scan ic r s' (S pos) (Nat.pred (e - pos))
          | EmptyString => []
          end
      | None =>
          match s with
          | String _ s' => scan ic r s' (S pos) 0
          | EmptyString => []
          end
      end
  end.

(** [str.matchAll(re)] for a global [re]. *)
Definition matchAll (ic : bool) (r : regex) (s : string) : list match_result :=
  scan ic r s 0 0.

Definition slice (s : string) (from to : nat) : string :=
  String.substring from (to - from) s.

(** The text of a capture group of a match, [c.groups.name] / [c[i]]. *)
Definition group_text (s : string) (m : match_result) (i : nat) : option string :=
  (fun span => slice s (fst span) (snd span)) <$> get_capture i (groups m).

(** [str.replace(re, "")] for a global [re]: the pieces of the input
    between successive matches, accumulated from [nextSourcePosition]. *)
Fixpoint splice (s : string) (next : nat) (ms : list match_result) : string :=
  match ms with
  | [] => slice s next (String.length s)
  | m :: ms' =>
      if Nat.leb next (index m)
      then slice s next (index m) +:+ splice s (last m) ms'
      else splice s next ms'
  end.

Definition replace_all_empty (ic : bool) (r : regex) (s : string) : string :=
  splice s 0 (matchAll ic r s).

(** A pattern matching the characters of [s] literally. *)
Fixpoint literal (s : string) : regex :=
  match s with
  | EmptyString => Empty
  | String c s' => Seq (Chr c) (literal s')
  end.

End RegExp.

(** ** Outcomes and effects

    A function either returns or throws; its effects are threaded through
    an explicit state.  Promises that are awaited one after the other are
    modelled by sequential composition, a rejection by a throw. *)

Inductive exn :=
| Error (message : string)       (* new Error(message) *)
| TypeError
| SyntaxError
| ReferenceError
| SystemError (path : string).   (* a failed file-system call *)

Inductive outcome (A : Type) :=
| Return (a : A)
| Throw (e : exn).
Arguments Return {A} a.
Arguments Throw {A} e.

Definition M (W A : Type) : Type := W → outcome A * W.

Global Instance M_ret {W} : MRet (M W) := λ A a w, (Return a, w).
Global Instance M_bind {W} : MBind (M W) := λ A B f m w,
  match m w with
  | (Return a, w') => f a w'
  | (Throw e, w') => (Throw e, w')
  end.

Definition throw {W A} (e : exn) : M W A := λ w, (Throw e, w).
Definition get_state {W} : M W W := λ w, (Return w, w).
Definition modify_state {W} (f : W → W) : M W unit := λ w, (Return tt, f w).

Definition returned {A W} (r : outcome A * W) (a : A) : Prop := r.1 = Return a.
Definition thrown {A W} (r : outcome A * W) : Prop := ∃ e, r.1 = Throw e.

(** The elements of a list, each with its index counted from [i]. *)
Fixpoint indexed {A B} (f : nat → A → B) (i : nat) (l : list A) : list B :=
  match l with
  | [] => []
  | x :: l' => f i x :: indexed f (S i) l'
  end.

(** ** JSON documents

    The values a JSON text denotes.  A Number is carried as the text that
    [Number::toString] gives it (["-0"] for negative zero): the functions
    modelled here only pass numbers on, test them for truth or print them.
    The members of an object are kept in order, with distinct names. *)

Module Json.

Inductive json :=
| JNull
| JBool (b : bool)
| JNum (text : string)
| JStr (s : string)
| JArr (items : list json)
| JObj (members : list (string * json)).

(** [undefined] or a JSON value. *)
Definition jsval := option json.

Definition member (k : string) (ms : list (string * json)) : jsval :=
  snd <$> List.find (fun e => String.eqb (fst e) k) ms.

(** ToBoolean. *)
Definition truthy (v : jsval) : bool :=
  match v with
  | None | Some JNull => false
  | Some (JBool b) => b
  | Some (JNum n) => negb (String.eqb n "0" || String.eqb n "-0" || String.eqb n "NaN")
  | Some (JStr s) => negb (String.eqb s "")
  | Some (JArr _) | Some (JObj _) => true
  end.

Fixpoint join_with (sep : string) (parts : list string) : string :=
  match parts with
  | [] => ""
  | [p] => p
  | p :: ps => p +:+ sep +:+ join_with sep ps
  end.

(** ToString of a JSON value, as a template literal applies it. *)
Fixpoint to_string (j : json) : string :=
  match j with
  | JNull => "null"
  | JBool true => "true"
  | JBool false => "false"
  | JNum n => if String.eqb n "-0" then "0" else n
  | JStr s => s
  | JArr items =>
      join_with ","
        ((fix each (l : list json) : list string :=
            match l with
            | [] => []
            | JNull :: l' => "" :: each l'
            | j' :: l' => to_string j' :: each l'
            end) items)
  | JObj _ => "[object Object]"
  end.

Definition jsval_to_string (v : jsval) : string :=
  match v with
  | None => "undefined"
  | Some j => to_string j
  end.

(** [x.k]: reading a property of [undefined] or [null] throws; strings,
    numbers, booleans and arrays carry none of the names read here. *)
Definition get {W} (x : jsval) (k : string) : M W jsval :=
  match x with
  | None | Some JNull => throw TypeError
  | Some (JObj ms) => mret (member k ms)
  | Some _ => mret None
  end.

(** [x.k = v] on an object: the member is replaced where it stands, or
    added after the others. *)
Fixpoint set_member (k : string) (v : json) (ms : list (string * json))
    : list (string * json) :=
  match ms with
  | [] => [(k, v)]
  | (k', v') :: ms' =>
      if String.eqb k' k then (k, v) :: ms' else (k', v') :: set_member k v ms'
  end.

(** Object spread [{...a, ...b}] of two objects' members. *)
Definition spread_members (a b : list (string * json)) : list (string * json) :=
  fold_left (fun acc e => set_member (fst e) (snd e) acc) b a.

(** Induction over documents that reaches into arrays and objects. *)
Section JsonInduction.
Variable P : json → Prop.
Hypothesis HNull : P JNull.
Hypothesis HBool : ∀ b, P (JBool b).
Hypothesis HNum : ∀ n, P (JNum n).
Hypothesis HStr : ∀ s, P (JStr s).
Hypothesis HArr : ∀ items, Forall P items → P (JArr items).
Hypothesis HObj : ∀ ms, Forall (λ e, P e.2) ms → P (JObj ms).

Fixpoint json_induction (j : json) : P j :=
  match j with
  | JNull => HNull
  | JBool b => HBool b
  | JNum n => HNum n
  | JStr s => HStr s
  | JArr items =>
      HArr items
        ((fix each (l : list json) : Forall P l :=
            match l with
            | [] => List.Forall_nil P
            | x :: l' => List.Forall_cons P x l' (json_induction x) (each l')
            end) items)
  | JObj ms =>
      HObj ms
        ((fix each (l : list (string * json)) : Forall (λ e, P e.2) l :=
            match l with
            | [] => List.Forall_nil _
            | e :: l' => List.Forall_cons (λ e, P e.2) e l' (json_induction e.2) (each l')
            end) ms)
  end.
End JsonInduction.

End Json.

(** ** Objects, references and the heap

    Objects are held in a heap and named by reference, so that two holders
    of one object see each other's writes.  An object is its map of own
    enumerable properties (an array: its elements under the index names)
    and the kind of thing it is. *)

Module JS.
Import Json.

Definition addr := positive.

Inductive value :=
| VUndefined
| VNull
| VBool (b : bool)
| VNum (text : string)
| VStr (s : string)
| VRef (a : addr).

Inductive kind :=
| PlainObject
| ArrayObject
| OptionsInstance            (* made by [new ScafflaterOptions] *)
| LoggerObject.              (* a logger: it has a [debug] method *)

Record object := Object {
  kind_of : kind;
  props : gmap string value
}.

(** What a debug-level call to the logger was about; the wording of the
    message is left out. *)
Inductive log_entry :=
| FolderConfigLoaded (folderPath : string) (options : value)
| FileConfigLoaded (filePath : string) (options : value).

Record world := World {
  heap : gmap addr object;
  files : gmap string string;          (* path ↦ text content *)
  log : list log_entry;
  globals : gmap string value          (* bindings of the global scope *)
}.

Definition with_heap (f : gmap addr object → gmap addr object) (w : world) : world :=
  World (f (heap w)) (files w) (log w) (globals w).

Definition alloc (o : object) : M world addr := λ w,
  let a := fresh (dom (heap w)) in
  (Return a, with_heap (insert a o) w).

(** The object graph that [JSON.parse] builds for a document; a member
    named twice keeps its last value.  The two loops fill the property map
    of an array and of an object, given the function for the values. *)
Definition alloc_elements (alloc : json → M world value)
    : nat → list json → M world (gmap string value) :=
  fix each (i : nat) (l : list json) : M world (gmap string value) :=
    match l with
    | [] => mret ∅
    | x :: l' =>
        v ← alloc x;
        m ← each (S i) l';
        mret (<[pretty i := v]> m)
    end.

Definition alloc_members (alloc : json → M world value)
    : gmap string value → list (string * json) → M world (gmap string value) :=
  fix each (acc : gmap string value) (l : list (string * json))
      : M world (gmap string value) :=
    match l with
    | [] => mret acc
    | (k, x) :: l' =>
        v ← alloc x;
        each (<[k := v]> acc) l'
    end.

Fixpoint alloc_json (j : json) : M world value :=
  match j with
  | JNull => mret VNull
  | JBool b => mret (VBool b)
  | JNum n => mret (VNum n)
  | JStr s => mret (VStr s)
  | JArr items =>
      ps ← alloc_elements alloc_json 0 items;
      a ← alloc (Object ArrayObject ps);
      mret (VRef a)
  | JObj members =>
      ps ← alloc_members alloc_json ∅ members;
      a ← alloc (Object PlainObject ps);
      mret (VRef a)
  end.

Definition chars_of (s : string) : gmap string value :=
  list_to_map (indexed (λ i c, (pretty i, VStr (String c EmptyString))) 0
                       (String.list_ascii_of_string s)).

(** The own enumerable properties of a value, as spread and [for..in]
    see them.  An object here holds its own data properties and no link to
    a prototype: every object is taken to have the prototype its
    construction gave it, which has no enumerable property. *)
Definition own_props (h : gmap addr object) (v : value) : gmap string value :=
  match v with
  | VRef a => match h !! a with Some o => props o | None => ∅ end
  | VStr s => chars_of s
  | _ => ∅
  end.

(** The own properties that [for (const k in x) target[k] = x[k]] defines
    on a target that inherits from [Object.prototype]: one for every own
    enumerable name of [x] but [__proto__].  The assignment under that
    name runs the setter that [Object.prototype] has for it, which defines
    no property: it replaces the prototype of the target when the value is
    an object or [null] and does nothing for any other value.  The
    replaced prototype has no place in the heap and is not recorded. *)
Definition assigned_props (h : gmap addr object) (x : value) : gmap string value :=
  delete "__proto__" (own_props h x).

(** [{ ...a, ...b }]: a new plain object; later operands win. *)
Definition spread (operands : list value) : M world value := λ w,
  let ps := foldl (λ acc v, own_props (heap w) v ∪ acc) ∅ operands in
  (a ← alloc (Object PlainObject ps); mret (VRef a)) w.

(** [x.k] for the property names read below. *)
Definition get (x : value) (k : string) : M world value := λ w,
  match x with
  | VUndefined | VNull => (Throw TypeError, w)
  | VRef a =>
      match heap w !! a with
      | Some o => (Return (default VUndefined (props o !! k)), w)
      | None => (Return VUndefined, w)
      end
  | _ => (Return VUndefined, w)
  end.

(** [x.k = v] in strict code: only an object takes the property. *)
Definition set (x : value) (k : string) (v : value) : M world unit := λ w,
  match x with
  | VRef a =>
      match heap w !! a with
      | Some o =>
          (Return tt,
           with_heap (insert a (Object (kind_of o) (<[k := v]> (props o)))) w)
      | None => (Throw TypeError, w)
      end
  | _ => (Throw TypeError, w)
  end.

Definition truthy (v : value) : bool :=
  match v with
  | VUndefined | VNull => false
  | VBool b => b
  | VNum n => negb (String.eqb n "0" || String.eqb n "-0" || String.eqb n "NaN")
  | VStr s => negb (String.eqb s "")
  | VRef _ => true
  end.

Definition is_zero (n : string) : bool := String.eqb n "0" || String.eqb n "-0".

(** [a === b]. *)
Definition strict_equal (a b : value) : bool :=
  match a, b with
  | VUndefined, VUndefined | VNull, VNull => true
  | VBool x, VBool y => Bool.eqb x y
  | VNum x, VNum y =>
      negb (String.eqb x "NaN") && (String.eqb x y || (is_zero x && is_zero y))
  | VStr x, VStr y => String.eqb x y
  | VRef x, VRef y => Pos.eqb x y
  | _, _ => false
  end.

(** [Object.keys(x).length > 0]. *)
Definition has_keys (h : gmap addr object) (x : value) : bool :=
  negb (Nat.eqb (size (own_props h x)) 0).

(** [logger.debug(..)]: the callee must be a logger. *)
Definition call_debug (logger : value) (e : log_entry) : M world unit := λ w,
  match logger with
  | VUndefined | VNull => (Throw TypeError, w)
  | VRef a =>
      match heap w !! a with
      | Some (Object LoggerObject _) =>
          (Return tt, World (heap w) (files w) (log w ++ [e]) (globals w))
      | _ => (Throw TypeError, w)
      end
  | _ => (Throw TypeError, w)
  end.

(** A computation that reads the heap and returns or throws. *)
Definition read_heap {A} (f : gmap addr object → outcome A) : M world A := λ w,
  (f (heap w), w).

(** Resolving an identifier that no enclosing scope declares. *)
Definition resolve_global (name : string) : M world value := λ w,
  match globals w !! name with
  | Some v => (Return v, w)
  | None => (Throw ReferenceError, w)
  end.

(** [String.prototype.trim]. *)
Fixpoint trim_start (s : string) : string :=
  match s with
  | String c s' => if Chars.is_space c then trim_start s' else s
  | EmptyString => EmptyString
  end.

Fixpoint trim_end (s : string) : string :=
  match s with
  | String c s' =>
      match trim_end s' with
      | EmptyString => if Chars.is_space c then EmptyString else String c EmptyString
      | t => String c t
      end
  | EmptyString => EmptyString
  end.

Definition trim (s : string) : string := trim_end (trim_start s).

End JS.

(** ** The host and the collaborators outside the sources at hand *)

(** A region as the options code reads it: the offsets of its two marker
    lines and of the content between them. *)
Record Region := mkRegion {
  startOffset : nat;
  endOffset : nat;
  contentStart : nat;
  contentEnd : nat
}.

(** What the runtime and the absent modules contribute.  [JSON_parse] is
    [JSON.parse] ([None]: it throws SyntaxError); [readJSON_parse] is the
    reader inside [fsUtil.readJSON]; [RegExp_parse] is the RegExp
    constructor on a pattern source that interpolates a marker with pattern
    syntax of its own ([None]: SyntaxError); [object_to_string] is ToString
    of an object; [path_join] is [path.join] on two strings; [getRegions]
    is [new RegionProvider(options).getRegions(str)], the region scanner,
    which reads the heap and may throw; [winston_logger] is the value of
    the imported binding [logger]. *)
Class Host := {
  JSON_parse : string → option Json.json;
  readJSON_parse : string → option Json.json;
  RegExp_parse : string → option RegExp.regex;
  object_to_string : gmap JS.addr JS.object → JS.addr → string;
  path_join : string → string → string;
  getRegions : gmap JS.addr JS.object → JS.value → string → outcome (list Region);
  winston_logger : JS.value
}.

(** Modelled from the spec: the file-system utility [fs-util], whose source
    is absent: existence checks and reads of text and of JSON-like
    documents, over a store of files addressed by path. *)
Module FsUtil.
Import JS.

Definition pathExists (path : string) : M world bool := λ w,
  (Return (bool_decide (is_Some (files w !! path))), w).

Definition readFileContent (path : string) : M world string := λ w,
  match files w !! path with
  | Some text => (Return text, w)
  | None => (Throw (SystemError path), w)
  end.

Definition readJSON `{Host} (path : string) : M world value :=
  text ← readFileContent path;
  match readJSON_parse text with
  | Some doc => alloc_json doc
  | None => throw SyntaxError
  end.

End FsUtil.

Definition dq : string := String "034"%char EmptyString.

(** ** [options/index.js]: class ScafflaterOptions *)

Module ScafflaterOptions.
Import Json JS RegExp FsUtil.

Definition annotationTemplate : string :=
"{{#lineComment this}}{{{options.startRegionMarker}}}{{/lineComment}}
{{#lineComment this}}This code was generated by scafflater{{/lineComment}}
{{#lineComment this}}@template {{{template.name}}} (v{{{template.version}}}){{/lineComment}}
{{#lineComment this}}@partial {{{partial.name}}}{{/lineComment}}
{{#each parameters }}
{{#lineComment this}}@{{{@key}}} {{{this}}}{{/lineComment}}
{{/each}}

{{{content}}}

{{#lineComment this}}{{{options.endRegionMarker}}}{{/lineComment}}".

Definition default_processors : json := JArr [JStr "./processors/handlebars-processor"].
Definition default_appenders : json :=
  JArr [JStr "./appenders/region-appender"; JStr "./appenders/appender"].
Definition default_cacheStorages : json :=
  JObj [("tempDir", JStr "./temp-dir-cache/index.js");
        ("homeDir", JStr "./home-dir-cache/index.js")].
Definition default_sources : json :=
  JObj [("octokit", JStr "./octokit-template-source/index.js");
        ("git", JStr "./git-template-source/index.js");
        ("githubClient", JStr "./github-client-template-source/index.js");
        ("isomorphicGit", JStr "./isomorphic-git-template-source/index.js");
        ("localFolder", JStr "./local-folder-template-source/index.js");
        ("package", JStr "./package-template-source/index.js")].

(** The class fields with their initial values, given the objects the
    four literal initialisers evaluate to and the imported logger. *)
Definition field_initialisers (processors appenders cacheStorages sources logger : value)
    : list (string * value) :=
  [ ("lineCommentTemplate", VStr "# {{{comment}}}");
    ("startRegionMarker", VStr "@scf-region");
    ("endRegionMarker", VStr "@end-scf-region");
    ("optionMarker", VStr "@scf-option");
    ("targetName", VNull);
    ("ignore", VUndefined);
    ("logRun", VBool true);
    ("annotate", VBool false);
    ("annotationTemplate", VStr annotationTemplate);
    ("appendStrategy", VStr "append");
    ("mode", VStr "prod");
    ("processors", processors);
    ("appenders", appenders);
    ("arrayAppendStrategy", VStr "combine");
    ("scfFolderName", VStr ".scafflater");
    ("scfFileName", VStr "scafflater.jsonc");
    ("initFolderName", VStr "init");
    ("partialsFolderName", VStr "partials");
    ("hooksFolderName", VStr "hooks");
    ("helpersFolderName", VStr "helpers");
    ("extensionFolderName", VStr "extension");
    ("cacheStorage", VStr "tempDir");
    ("cacheStorages", cacheStorages);
    ("source", VStr "isomorphicGit");
    ("sources", sources);
    ("githubBaseUrlApi", VStr "https://api.github.com");
    ("githubBaseUrl", VStr "https://github.com");
    ("githubUsername", VNull);
    ("githubPassword", VNull);
    ("logger", logger) ].

Definition field_names : list string :=
  (field_initialisers VNull VNull VNull VNull VNull).*1.

(** The characters with a meaning in a pattern. *)
Definition syntax_character (c : ascii) : bool :=
  existsb (Ascii.eqb c)
    (String.list_ascii_of_string "^$\.*+?()[]{}|").

Definition plain_marker (s : string) : bool :=
  forallb (λ c, negb (syntax_character c)) (String.list_ascii_of_string s).

(** The source text of the two patterns around an interpolated marker. *)
Definition config_source (marker : string) : string :=
  ".*" +:+ marker +:+ "\s*(?<json>{.*:({.*}|" +:+ dq +:+ ".*" +:+ dq +:+ "|[^}])*?}).*".

Definition strip_source (marker : string) : string :=
  ".*" +:+ marker +:+ "\s*(?<json>{.*}).*\n?".

(** The same two patterns as syntax trees; group 1 is [json]. *)
Definition config_regex (marker : regex) : regex :=
  Seq (Star true Dot)
 (Seq marker
 (Seq (Star true (Cls false [ASpace]))
 (Seq (Group 1
        (Seq (Chr "{")
        (Seq (Star true Dot)
        (Seq (Chr ":")
        (Seq (Star false
               (Group 2
                  (Alt (Seq (Chr "{") (Seq (Star true Dot) (Chr "}")))
                  (Alt (Seq (Chr "034") (Seq (Star true Dot) (Chr "034")))
                       (Cls true [AChar "}"])))))
             (Chr "}"))))))
      (Star true Dot)))).

Definition strip_regex (marker : regex) : regex :=
  Seq (Star true Dot)
 (Seq marker
 (Seq (Star true (Cls false [ASpace]))
 (Seq (Group 1 (Seq (Chr "{") (Seq (Star true Dot) (Chr "}"))))
 (Seq (Star true Dot)
      (Opt true (Chr "010")))))).

Section WithHost.
Context `{Host}.

(** ToString, as a template literal applies it to [${..}]. *)
Definition to_string (h : gmap addr object) (v : value) : string :=
  match v with
  | VUndefined => "undefined"
  | VNull => "null"
  | VBool true => "true"
  | VBool false => "false"
  | VNum n => if String.eqb n "-0" then "0" else n
  | VStr s => s
  | VRef a => object_to_string h a
  end.

(** [new RegExp(`..${marker}..`, "gi")]: a marker without pattern syntax
    stands for itself; any other source is read by the host. *)
Definition new_RegExp (source : string → string) (tree : regex → regex)
    (marker : value) : M world regex := λ w,
  let text := to_string (heap w) marker in
  if plain_marker text then (Return (tree (literal text)), w)
  else match RegExp_parse (source text) with
       | Some r => (Return r, w)
       | None => (Throw SyntaxError, w)
       end.

Definition join (a : string) (b : value) : M world string :=
  match b with
  | VStr s => mret (path_join a s)
  | _ => throw TypeError
  end.

(** [constructor(options = {})], after the field initialisers.  The loop
    assigns to the new instance, whose prototype chain ends in
    [Object.prototype]: an own [__proto__] of the argument becomes no
    property of the instance. *)
Definition new_ScafflaterOptions (options : value) : M world addr :=
  processors ← alloc_json default_processors;
  appenders ← alloc_json default_appenders;
  cacheStorages ← alloc_json default_cacheStorages;
  sources ← alloc_json default_sources;
  this ← alloc (Object OptionsInstance
            (list_to_map (field_initialisers processors appenders cacheStorages
                            sources winston_logger)));
  (* for (const option in options) this[option] = options[option] *)
  _ ← modify_state (λ w,
         with_heap (alter (λ o, Object (kind_of o)
                                  (assigned_props (heap w) options ∪ props o)) this) w);
  mode ← get (VRef this) "mode";
  _ ← (if strict_equal mode (VStr "debug")
       then logger ← get (VRef this) "logger"; set logger "level" (VStr "debug")
       else mret tt);
  mret this.

(** [getFolderOptions(folderPath, context)]. *)
Definition getFolderOptions (this : addr) (folderPath : string) (context : value)
    : M world addr :=
  result ← spread [VRef this];
  scfFileName ← get (VRef this) "scfFileName";
  scfFilePath ← join folderPath scfFileName;
  found ← pathExists scfFilePath;
  result ←
    (if found : bool then
       info ← readJSON scfFilePath;
       options ← get info "options";
       if truthy options then
         w ← get_state;
         _ ← (if has_keys (heap w) options then
                ctx_options ← get context "options";
                logger ← get ctx_options "logger";
                call_debug logger (FolderConfigLoaded folderPath options)
              else mret tt);
         spread [result; options]
       else mret result
     else mret result);
  new_ScafflaterOptions result.

Definition in_region (offset : nat) (r : Region) : bool :=
  Nat.leb (contentStart r) offset && Nat.leb offset (contentEnd r).

(** The body of [for (const c of configs)], on the matches that remain. *)
Fixpoint merge_configs (regions : list Region) (str : string)
    (configs : list match_result) (newConfig : value) : M world value :=
  match configs with
  | [] => mret newConfig
  | c :: rest =>
      (* regions.findIndex(..) >= 0 *)
      if existsb (in_region (index c)) regions
      then merge_configs regions str rest newConfig       (* continue *)
      else
        match group_text str c 1 ≫= JSON_parse with
        | Some doc =>
            parsed ← alloc_json doc;
            merged ← spread [newConfig; parsed];
            merge_configs regions str rest merged
        | None =>                                          (* catch (error) *)
            throw (Error "Could not parse option 'undefined'")
        end
  end.

(** [getConfigFromString(str)]. *)
Definition getConfigFromString (this : addr) (str : string) : M world addr :=
  marker ← get (VRef this) "optionMarker";
  configRegex ← new_RegExp config_source config_regex marker;
  let configs := matchAll true configRegex str in
  regions ← read_heap (λ h, getRegions h (VRef this) str);
  newConfig ← merge_configs regions str configs (VRef this);
  new_ScafflaterOptions newConfig.

(** [getFileOptions(filePath, context)]. *)
Definition getFileOptions (this : addr) (filePath : string) (context : value)
    : M world addr :=
  fileContent ← readFileContent filePath;
  result ← getConfigFromString this fileContent;
  w ← get_state;
  _ ← (if truthy (VRef result) && has_keys (heap w) (VRef result) then
         ctx_options ← get context "options";
         logger ← get ctx_options "logger";
         call_debug logger (FileConfigLoaded filePath (VRef result))
       else mret tt);
  mret result.

(** [stripConfig(str)]. *)
Definition stripConfig (this : addr) (str : string) : M world string :=
  marker ← get (VRef this) "optionMarker";
  configRegex ← new_RegExp strip_source strip_regex marker;
  mret (replace_all_empty true configRegex str).

End WithHost.
End ScafflaterOptions.

(** ** [generator/processors/processor.js]: class Processor *)

Module Processor.
Import JS.

(** ProcessResult: [{ context, result }]. *)
Record ProcessResult := mkProcessResult {
  context : value;
  result : string
}.

(** The capability every stage offers: [process(context, input)]. *)
Class Stage (P : Type) := process_of : P → value → string → M world ProcessResult.

(** The base class: [process] hands its arguments back. *)
Definition process (context : value) (input : string) : M world ProcessResult :=
  mret (mkProcessResult context input).

(** [new C()] for a value found in the global scope: the host runs the
    constructor, or throws TypeError when [C] is none. *)
Class Constructors := construct : value → M world value.

(** [static getProcessor(name)]:
    [switch ('region-processor') { case value: .. default: .. }]. *)
Definition getProcessor `{Constructors} (name : string) : M world value :=
  let discriminant := VStr "region-processor" in
  selector ← resolve_global "value";                        (* case value: *)
  if strict_equal discriminant selector then
    RegionProcessor ← resolve_global "RegionProcessor";
    construct RegionProcessor
  else
    throw (Error ("No processor found: " +:+ name)).

Section Pipeline.
Context {P : Type} `{Stage P}.

(** The body of [for (const processor of processors)]. *)
Fixpoint run_stages (processors : list P) (generationContext : value)
    (input : string) : M world string :=
  match processors with
  | [] => mret input
  | processor :: rest =>
      processorResult ← process_of processor generationContext input;
      run_stages rest (context processorResult) (trim (result processorResult))
  end.

(** [static runProcessorsPipeline(processors, context, input)]. *)
Definition runProcessorsPipeline (processors : list P) (context : value)
    (input : string) : M world string :=
  generationContext ← spread [context];
  run_stages processors generationContext input.

(** The pipeline in the words of the specification: one stage takes the
    context and text of the stage before it and yields its own context
    and its trimmed result; the pipeline is the left fold of the stages
    over the copied context and the raw input, read at its text. *)
Definition stage (acc : M world (value * string)) (processor : P)
    : M world (value * string) :=
  '(ctx, text) ← acc;
  r ← process_of processor ctx text;
  mret (context r, trim (result r)).

Definition pipeline_fold (processors : list P) (context : value)
    (input : string) : M world string :=
  generationContext ← spread [context];
  '(_, text) ← foldl stage (mret (generationContext, input)) processors;
  mret text.

End Pipeline.
End Processor.

(** ** Documents on disk

    Modelled from the spec: the synchronous half of [fs-util], whose source
    is absent, as the manifest code uses it: a file holds a JSON document
    or some other text; a document is read and written whole. *)

Module FsDocs.
Import Json.

Inductive file :=
| Doc (d : json)
| Text (s : string).

Definition fs := gmap string file.

Definition pathExistsSync (path : string) : M fs bool := λ w,
  (Return (bool_decide (is_Some (w !! path))), w).

Definition readJsonSync (path : string) : M fs jsval := λ w,
  match w !! path with
  | Some (Doc d) => (Return (Some d), w)
  | Some (Text _) => (Throw SyntaxError, w)
  | None => (Throw (SystemError path), w)
  end.

Definition writeJSONSync (path : string) (d : json) : M fs unit := λ w,
  (Return tt, <[path := Doc d]> w).

(** [path.join] on the arguments the code passes: a non-string throws. *)
Class Paths := path_join2 : string → string → string.

Definition join `{Paths} (a b : jsval) : M fs string :=
  match a, b with
  | Some (JStr x), Some (JStr y) => mret (path_join2 x y)
  | _, _ => throw TypeError
  end.

(** The own enumerable members a spread copies out of a value. *)
Definition own_members (v : jsval) : list (string * json) :=
  match v with
  | Some (JObj ms) => ms
  | Some (JArr items) => indexed (λ i x, (pretty i, x)) 0 items
  | Some (JStr s) =>
      indexed (λ i c, (pretty i, JStr (String c EmptyString))) 0
              (String.list_ascii_of_string s)
  | _ => []
  end.

End FsDocs.

(** ** [config-provider/index.js]: class ConfigProvider *)

Module ConfigProvider.
Import Json FsDocs.

Definition annotationTemplate : string :=
"{{{config.singleLineComment}}} {{{config.startRegionMarker}}}
{{{config.singleLineComment}}} This code was generated by scafflater
{{{config.singleLineComment}}} @template {{{template.name}}} (v{{{template.version}}})
{{{config.singleLineComment}}} @partial {{{partial.name}}}
{{#each parameters }}
{{{../config.singleLineComment}}} @{{{@key}}} {{{this}}} 
{{/each}}

{{{content}}}

{{{config.singleLineComment}}} {{{config.endRegionMarker}}}".

(** [new ConfigProvider()]. *)
Definition new_ConfigProvider : list (string * json) :=
  [ ("singleLineComment", JStr "#");
    ("startRegionMarker", JStr "@scf-region");
    ("endRegionMarker", JStr "@end-scf-region");
    ("configMarker", JStr "@scf-config");
    ("annotate", JBool true);
    ("annotationTemplate", JStr annotationTemplate);
    ("processors", JArr [JStr "./processors/handlebars-processor"]);
    ("appenders", JArr [JStr "./appenders/region-appender"; JStr "./appenders/appender"]);
    ("scfFileName", JStr "_scf.json");
    ("partialsFolderName", JStr "_partials");
    ("hooksFolderName", JStr "_hooks");
    ("helpersFolderName", JStr "_helpers");
    ("cacheStorage", JStr "tempDir");
    ("cacheStorages", JObj [("tempDir", JStr "./storages/temp-dir-cache");
                            ("homeDir", JStr "./storages/home-dir-cache")]);
    ("source", JStr "github");
    ("sources", JObj [("github", JStr "./git-template-source")]) ].

(** [static mergeFolderConfig(folderPath, config)]. *)
Definition mergeFolderConfig `{Paths} (folderPath : string) (config : jsval)
    : M fs (list (string * json)) :=
  let result := spread_members [] (own_members config) in
  scfFileName ← get config "scfFileName";
  scfFilePath ← join (Some (JStr folderPath)) scfFileName;
  found ← pathExistsSync scfFilePath;
  if found : bool then
    info ← readJsonSync scfFilePath;
    folder ← get info "config";
    if truthy folder
    then mret (spread_members result (own_members folder))
    else mret result
  else mret result.

End ConfigProvider.

(** ** The entry class Scafflater *)

Module Scafflater.
Import Json FsDocs.

(** The template manager and the generator, whose sources are absent:
    [templateManager.getPartial], [templateManager.getTemplatePath],
    [templateManager.templateSource.getTemplate] and
    [new Generator(ctx).generate(ctx)].  Each may read and write files
    and may throw. *)
Class Collaborators := {
  getPartial : string → jsval → jsval → M fs jsval;
  getTemplatePath : jsval → jsval → M fs jsval;
  getTemplate : string → M fs jsval;
  generate : list (string * jsval) → M fs unit
}.

Section WithCollaborators.
Context {paths : Paths} {collaborators : Collaborators}.

(** [constructor(config = {})]: [this.config]. *)
Definition new_config (config : jsval) : list (string * json) :=
  spread_members (spread_members [] ConfigProvider.new_ConfigProvider)
                 (own_members config).

(** The record pushed onto [partials]. *)
Definition applied_record (templateName : jsval) (partialPath : string)
    (parameters : json) : json :=
  JObj [ ("path", JStr (jsval_to_string templateName +:+ "/" +:+ partialPath));
         ("parameters", parameters) ].

(** [runPartial(partialPath, parameters, targetPath)] on an instance
    whose [this.config] is [config]. *)
Definition runPartial (config : list (string * json)) (partialPath : string)
    (parameters : json) (targetPath : string) : M fs unit :=
  let scfFileName := member "scfFileName" config in
  manifestPath ← join (Some (JStr targetPath)) scfFileName;
  scfConfig ← readJsonSync manifestPath;
  template ← get scfConfig "template";
  name ← get template "name";
  version ← get template "version";
  partialInfo ← getPartial partialPath name version;
  templatePath ← getTemplatePath name version;
  templateScfPath ← join templatePath scfFileName;
  templateScf ← readJsonSync templateScfPath;
  partialConfig ← get partialInfo "config";
  partialInfoPath ← get partialInfo "path";
  let ctx :=
    [ ("partial", partialConfig);
      ("partialPath", partialInfoPath);
      ("parameters", Some parameters);
      ("targetPath", Some (JStr targetPath));
      ("template", templateScf);
      ("templatePath", templatePath);
      ("config", Some (JObj ConfigProvider.new_ConfigProvider)) ] in
  _ ← generate ctx;
  partials ← get scfConfig "partials";
  let scfConfig :=
    if truthy partials then scfConfig
    else match scfConfig with
         | Some (JObj ms) => Some (JObj (set_member "partials" (JArr []) ms))
         | other => other
         end in
  partials ← get scfConfig "partials";
  match scfConfig, partials with
  | Some (JObj ms), Some (JArr items) =>
      let record := applied_record name partialPath parameters in
      let scfConfig := JObj (set_member "partials" (JArr (items ++ [record])) ms) in
      manifestPath ← join (Some (JStr targetPath)) scfFileName;
      writeJSONSync manifestPath scfConfig
  | _, _ => throw TypeError                      (* partials.push is no function *)
  end.

(** [init(sourceKey, parameters, targetPath)]. *)
Definition init (config : list (string * json)) (sourceKey : string)
    (parameters : json) (targetPath : string) : M fs unit :=
  templateConfig ← getTemplate sourceKey;
  templateConfigConfig ← get templateConfig "config";
  let scfConfig :=
    JObj [ ("template", JObj (spread_members [] (own_members templateConfigConfig)));
           ("partials", JArr []) ] in
  manifestPath ← join (Some (JStr targetPath)) (member "scfFileName" config);
  _ ← writeJSONSync manifestPath scfConfig;
  runPartial config "_init" parameters targetPath.

End WithCollaborators.
End Scafflater.

(** ** The region scanner

    Modelled from the spec: [RegionProvider.getRegions], whose source is
    absent.  Markers are tokens on a line of their own; they are matched in
    textual order, the first start with the first end after it; a start
    marker with no end marker before the next start marker or the end of
    the text is a MalformedRegionError.  The content of a region runs from
    the end of its start-marker line to the beginning of its end-marker
    line.  The header is not decoded: the options code reads offsets only. *)

Module RegionScanner.
Import JS.

Fixpoint starts_with (p s : string) : bool :=
  match p, s with
  | EmptyString, _ => true
  | String a p', String b s' => Ascii.eqb a b && starts_with p' s'
  | String _ _, EmptyString => false
  end.

Fixpoint contains (p s : string) : bool :=
  starts_with p s ||
  match s with
  | String _ s' => contains p s'
  | EmptyString => false
  end.

(** The lines of a text with the offset each begins at. *)
Fixpoint lines_at (s : string) (pos begin : nat) (line : string)
    : list (nat * string) :=
  match s with
  | EmptyString => [(begin, line)]
  | String c s' =>
      if Ascii.eqb c "010"
      then (begin, line) :: lines_at s' (S pos) (S pos) EmptyString
      else lines_at s' (S pos) begin (line +:+ String c EmptyString)
  end.

Definition malformed : exn := Error "MalformedRegionError".

(** [open]: the start-marker line still waiting for its end marker. *)
Fixpoint pair_markers (startMarker endMarker : string)
    (lines : list (nat * string)) (open : option (nat * nat))
    : outcome (list Region) :=
  match lines with
  | [] => match open with
          | Some _ => Throw malformed
          | None => Return []
          end
  | (begin, line) :: rest =>
      let next := begin + String.length line + 1 in
      if contains endMarker line then
        match open with
        | Some (s, cs) =>
            match pair_markers startMarker endMarker rest None with
            | Return rs => Return (mkRegion s next cs begin :: rs)
            | Throw e => Throw e
            end
        | None => pair_markers startMarker endMarker rest None
        end
      else if contains startMarker line then
        match open with
        | Some _ => Throw malformed
        | None => pair_markers startMarker endMarker rest (Some (begin, next))
        end
      else pair_markers startMarker endMarker rest open
  end.

Definition scan_regions (h : gmap addr object) (options : value) (text : string)
    : outcome (list Region) :=
  match own_props h options !! "startRegionMarker",
        own_props h options !! "endRegionMarker" with
  | Some (VStr startMarker), Some (VStr endMarker) =>
      pair_markers startMarker endMarker (lines_at text 0 0 EmptyString) None
  | _, _ => Throw TypeError
  end.

End RegionScanner.

(** ** A host for the worked examples

    A reader for the JSON texts of the examples (objects, arrays, strings
    without escapes, integer literals, [true], [false], [null]), paths
    joined with a slash, and the region scanner above. *)

Module ExampleHost.
Import Json JS.

Definition is_ws (c : ascii) : bool :=
  existsb (Ascii.eqb c) [" "%char; "009"%char; "010"%char; "013"%char].

Fixpoint skip_ws (s : string) : string :=
  match s with
  | String c s' => if is_ws c then skip_ws s' else s
  | EmptyString => s
  end.

Definition is_digit (c : ascii) : bool :=
  (48 <=? N_of_ascii c)%N && (N_of_ascii c <=? 57)%N.

Fixpoint read_digits (s : string) : string * string :=
  match s with
  | String c s' =>
      if is_digit c then let '(d, r) := read_digits s' in (String c d, r)
      else (EmptyString, s)
  | EmptyString => (EmptyString, s)
  end.

(** The characters of a string literal after its opening quote. *)
Fixpoint read_chars (s : string) : option (string * string) :=
  match s with
  | String c s' =>
      if Ascii.eqb c "034" then Some (EmptyString, s')
      else if Ascii.eqb c "\" || (N_of_ascii c <? 32)%N then None
      else '(t, r) ← read_chars s'; Some (String c t, r)
  | EmptyString => None
  end.

Definition read_number (s : string) : option (json * string) :=
  let '(sign, s1) :=
    match s with
    | String "-" s' => ("-", s')
    | _ => ("", s)
    end in
  match read_digits s1 with
  | (EmptyString, _) => None
  | (String "0" (String _ _), _) => None                     (* leading zero *)
  | (digits, rest) =>
      match rest with
      | String "." _ | String "e" _ | String "E" _ => None   (* outside the fragment *)
      | _ => Some (JNum (if String.eqb digits "0" then sign +:+ "0" else sign +:+ digits), rest)
      end
  end.

Fixpoint read_value (fuel : nat) (s : string) : option (json * string) :=
  match fuel with
  | O => None
  | S fuel =>
      let elements :=
        fix elements (n : nat) (s : string) : option (list json * string) :=
          match n with
          | O => None
          | S n =>
              '(v, r) ← read_value fuel s;
              match skip_ws r with
              | String "," r' => '(vs, r'') ← elements n r'; Some (v :: vs, r'')
              | String "]" r' => Some ([v], r')
              | _ => None
              end
          end in
      let members :=
        fix members (n : nat) (s : string) : option (list (string * json) * string) :=
          match n with
          | O => None
          | S n =>
              match skip_ws s with
              | String "034" r =>
                  '(k, r1) ← read_chars r;
                  match skip_ws r1 with
                  | String ":" r2 =>
                      '(v, r3) ← read_value fuel r2;
                      match skip_ws r3 with
                      | String "," r4 => '(ms, r5) ← members n r4; Some ((k, v) :: ms, r5)
                      | String "}" r4 => Some ([(k, v)], r4)
                      | _ => None
                      end
                  | _ => None
                  end
              | _ => None
              end
          end in
      match skip_ws s with
      | String "{" r =>
          match skip_ws r with
          | String "}" r' => Some (JObj [], r')
          | _ => '(ms, r') ← members (String.length r) r; Some (JObj ms, r')
          end
      | String "[" r =>
          match skip_ws r with
          | String "]" r' => Some (JArr [], r')
          | _ => '(vs, r') ← elements (String.length r) r; Some (JArr vs, r')
          end
      | String "034" r => '(t, r') ← read_chars r; Some (JStr t, r')
      | String "t" (String "r" (String "u" (String "e" r))) => Some (JBool true, r)
      | String "f" (String "a" (String "l" (String "s" (String "e" r)))) =>
          Some (JBool false, r)
      | String "n" (String "u" (String "l" (String "l" r))) => Some (JNull, r)
      | other => read_number other
      end
  end.

Definition read_json (text : string) : option json :=
  '(v, rest) ← read_value (S (String.length text)) text;
  match skip_ws rest with
  | EmptyString => Some v
  | _ => None
  end.

Definition logger_addr : addr := 1%positive.

#[export] Instance host : Host := {|
  JSON_parse := read_json;
  readJSON_parse := read_json;
  RegExp_parse := λ _, None;
  object_to_string := λ _ _, "[object Object]";
  path_join := λ a b, a +:+ "/" +:+ b;
  getRegions := RegionScanner.scan_regions;
  winston_logger := VRef logger_addr
|}.

(** Text with each apostrophe turned into a double quote. *)
Fixpoint q (s : string) : string :=
  match s with
  | String c s' => String (if Ascii.eqb c "'" then "034"%char else c) (q s')
  | EmptyString => EmptyString
  end.

End ExampleHost.

(** ** Vocabulary of the statements about the manifest *)

Module ManifestSpec.
Import Json FsDocs.

(** A computation that leaves the file at [path] as it found it. *)
Definition preserves {A} (path : string) (m : M fs A) : Prop :=
  ∀ w r w', m w = (r, w') → w' !! path = w !! path.

(** The partials a manifest lists: none when the member is missing. *)
Definition partials_of (ms : list (string * json)) : list json :=
  match member "partials" ms with
  | Some (JArr items) => items
  | _ => []
  end.

(** [scfConfig.template.name], once reading it has not thrown. *)
Definition template_name (ms : list (string * json)) : jsval :=
  match member "template" ms with
  | Some (JObj t) => member "name" t
  | _ => None
  end.

(** What [runPartial] does before it calls the generator: it reads the
    manifest, asks the template manager for the partial and the template
    and reads the manifest of the template.  The result is the context it
    hands to the generator. *)
Definition generation_context `{Paths} `{Scafflater.Collaborators}
    (config : list (string * json)) (partialPath : string) (parameters : json)
    (targetPath : string) : M fs (list (string * jsval)) :=
  let scfFileName := member "scfFileName" config in
  manifestPath ← join (Some (JStr targetPath)) scfFileName;
  scfConfig ← readJsonSync manifestPath;
  template ← get scfConfig "template";
  name ← get template "name";
  version ← get template "version";
  partialInfo ← Scafflater.getPartial partialPath name version;
  templatePath ← Scafflater.getTemplatePath name version;
  templateScfPath ← join templatePath scfFileName;
  templateScf ← readJsonSync templateScfPath;
  partialConfig ← get partialInfo "config";
  partialInfoPath ← get partialInfo "path";
  mret [ ("partial", partialConfig);
         ("partialPath", partialInfoPath);
         ("parameters", Some parameters);
         ("targetPath", Some (JStr targetPath));
         ("template", templateScf);
         ("templatePath", templatePath);
         ("config", Some (JObj ConfigProvider.new_ConfigProvider)) ].

End ManifestSpec.

(** ** Vocabulary of the statements about options resolution *)

Module OptionsSpec.
Import Json JS RegExp ScafflaterOptions.

(** [denotes h v j]: in heap [h] the value [v] is an object graph such as
    [JSON.parse] builds for the document [j]. *)
Definition denotes_elements (den : value → json → Prop)
    : nat → list json → gmap string value → Prop :=
  fix each (i : nat) (l : list json) (ps : gmap string value) : Prop :=
    match l with
    | [] => ps = ∅
    | x :: l' => ∃ v m, den v x ∧ each (S i) l' m ∧ ps = <[pretty i := v]> m
    end.

Definition denotes_members (den : value → json → Prop)
    : gmap string value → list (string * json) → gmap string value → Prop :=
  fix each (acc : gmap string value) (l : list (string * json))
      (ps : gmap string value) : Prop :=
    match l with
    | [] => ps = acc
    | (k, x) :: l' => ∃ v, den v x ∧ each (<[k := v]> acc) l' ps
    end.

Fixpoint denotes (h : gmap addr object) (v : value) (j : json) : Prop :=
  match j with
  | JNull => v = VNull
  | JBool b => v = VBool b
  | JNum n => v = VNum n
  | JStr s => v = VStr s
  | JArr items =>
      ∃ a ps, v = VRef a ∧ h !! a = Some (Object ArrayObject ps)
              ∧ denotes_elements (denotes h) 0 items ps
  | JObj members =>
      ∃ a ps, v = VRef a ∧ h !! a = Some (Object PlainObject ps)
              ∧ denotes_members (denotes h) ∅ members ps
  end.

(** A reference is allocated when the heap holds its object. *)
Definition allocated (h : gmap addr object) (v : value) : Prop :=
  match v with
  | VRef a => is_Some (h !! a)
  | _ => True
  end.

(** The state apart from the heap. *)
Definition same_outside_heap (w w' : world) : Prop :=
  files w' = files w ∧ log w' = log w ∧ globals w' = globals w.

(** The members a spread copies out of a document, and the value a document
    gives a key: that of the last member of that name. *)
Definition members_of (doc : json) : list (string * json) :=
  match doc with
  | JObj ms => ms
  | JArr items => indexed (λ i x, (pretty i, x)) 0 items
  | JStr s =>
      indexed (λ i c, (pretty i, JStr (String c EmptyString))) 0
              (String.list_ascii_of_string s)
  | _ => []
  end.

Fixpoint member_last (k : string) (ms : list (string * json)) : option json :=
  match ms with
  | [] => None
  | (k', x) :: ms' =>
      match member_last k ms' with
      | Some y => Some y
      | None => if String.eqb k' k then Some x else None
      end
  end.

Definition doc_sets (doc : json) (k : string) : option json :=
  member_last k (members_of doc).

(** Merging documents in order, the later one winning: the value of [k]. *)
Definition resolve_key (k : string) (docs : list json) : option json :=
  foldl (λ acc doc, match doc_sets doc k with Some x => Some x | None => acc end)
        None docs.

(** File order of two matches: by offset. *)
Definition earlier (a b : match_result) : Prop := index a < index b.

(** The offsets a list of matches covers, and a text without the code
    units at covered offsets, [pos] being the offset of its first one. *)
Definition covered (ms : list match_result) (i : nat) : bool :=
  existsb (λ m, Nat.leb (index m) i && Nat.ltb i (last m)) ms.

Fixpoint erase (ms : list match_result) (pos : nat) (s : string) : string :=
  match s with
  | EmptyString => EmptyString
  | String c s' =>
      if covered ms pos then erase ms (S pos) s'
      else String c (erase ms (S pos) s')
  end.

(** A text without its first [n] code units. *)
Fixpoint skip_string (n : nat) (s : string) : string :=
  match n, s with
  | S n', String _ s' => skip_string n' s'
  | _, _ => s
  end.

(** [this.mode === "debug"] on a property map. *)
Definition debug_mode (ps : gmap string value) : bool :=
  strict_equal (default VUndefined (ps !! "mode")) (VStr "debug").

(** How the heap [h'] a constructor call leaves relates to the heap [h] in
    which the new instance got its properties [ps]: in debug mode the
    object held as [logger] has had its [level] set, otherwise nothing
    more happened. *)
Definition settled (ps : gmap string value) (h h' : gmap addr object) : Prop :=
  if debug_mode ps then
    ∃ l o, ps !! "logger" = Some (VRef l) ∧ h !! l = Some o
           ∧ h' = <[l := Object (kind_of o) (<["level" := VStr "debug"]> (props o))]> h
  else h' = h.

Section WithHost.
Context `{Host}.

(** The document a match carries: [JSON.parse(c.groups.json)]. *)
Definition payload (str : string) (c : match_result) : option json :=
  group_text str c 1 ≫= JSON_parse.

(** The matches that lie in no region. *)
Definition surviving (regions : list Region) (configs : list match_result)
    : list match_result :=
  filter (λ c, existsb (in_region (index c)) regions = false) configs.

(** The documents of the surviving matches, in the order of the matches. *)
Definition merged_docs (regions : list Region) (str : string)
    (configs : list match_result) : list json :=
  omap (payload str) (surviving regions configs).

(** What [getConfigFromString] sets out with: the matches of the pattern
    and the regions of the text. *)
Definition directives_of (w : world) (this : addr) (str : string)
    : outcome (list match_result * list Region) :=
  (((marker ← get (VRef this) "optionMarker";
   configRegex ← new_RegExp config_source config_regex marker;
   regions ← read_heap (λ h, getRegions h (VRef this) str);
   mret (matchAll true configRegex str, regions))
   : M world (list match_result * list Region)) w).1.

(** The property map of the receiver: that of an instance has every field. *)
Definition receiver (w : world) (this : addr) (tprops : gmap string value) : Prop :=
  ∃ k, heap w !! this = Some (Object k tprops).

Definition has_fields (tprops : gmap string value) : Prop :=
  ∀ k, k ∈ field_names → is_Some (tprops !! k).

(** [info.options] on the manifest document [info]: reading a property
    of [null] throws. *)
Definition manifest_options (doc : json) : outcome (option json) :=
  match doc with
  | JNull => Throw TypeError
  | JObj _ | JArr _ => Return (doc_sets doc "options")
  | _ => Return None
  end.

(** The folder-scoped options that [getFolderOptions] merges in: those of
    the manifest at the folder, when it is there and holds a truthy
    [options]. *)
Definition folder_doc (w : world) (tprops : gmap string value) (folderPath : string)
    : outcome (option json) :=
  match default VUndefined (tprops !! "scfFileName") with
  | VStr f =>
      match files w !! path_join folderPath f with
      | None => Return None
      | Some text =>
          match readJSON_parse text with
          | None => Throw SyntaxError
          | Some doc =>
              match manifest_options doc with
              | Return (Some d) =>
                  Return (if Json.truthy (Some d) then Some d else None)
              | other => other
              end
          end
      end
  | _ => Throw TypeError
  end.

(** How a value handed to the constructor relates to the receiver: under
    each key it holds what [look] gives, built from objects added since
    [w], or else what the receiver had. *)
Definition merged_over (w w1 : world) (tprops : gmap string value)
    (look : string → option json) (v : value) : Prop :=
  ∀ k, match look k with
       | Some x => ∃ vk, own_props (heap w1) v !! k = Some vk
                         ∧ denotes (heap w1 ∖ heap w) vk x
       | None => own_props (heap w1) v !! k = tprops !! k
       end.

(** The receiver holds a logger of its own: an allocated value other than
    the receiver itself. *)
Definition sound_logger (w : world) (this : addr) (tprops : gmap string value) : Prop :=
  ∃ lg, tprops !! "logger" = Some lg ∧ allocated (heap w) lg ∧ lg ≠ VRef this.

End WithHost.
End OptionsSpec.

(** ** A worked run of [runPartial] *)

Module ManifestExample.
Import Json FsDocs Scafflater.

#[export] Instance paths : Paths := λ a b, a +:+ "/" +:+ b.

(** A template manager that finds every partial under [/cache/tpl] and a
    generator that writes one file. *)
#[export] Instance collaborators : Collaborators := {|
  getPartial := λ partialPath _ _,
    mret (Some (JObj [("config", JObj []); ("path", JStr ("/cache/tpl/" +:+ partialPath))]));
  getTemplatePath := λ _ _, mret (Some (JStr "/cache/tpl"));
  getTemplate := λ _, mret (Some (JObj [("config", JObj [("name", JStr "tpl")])]));
  generate := λ _ w, (Return tt, <["./README.md" := Text "generated"]> w)
|}.

(** The same template manager with a generator that fails after writing. *)
Definition failing : Collaborators := {|
  getPartial := getPartial;
  getTemplatePath := getTemplatePath;
  getTemplate := getTemplate;
  generate := λ _ w, (Throw (Error "render failed"), <["./README.md" := Text "half"]> w)
|}.

Definition config : list (string * json) := new_config None.

Definition manifest : json :=
  JObj [ ("template", JObj [("name", JStr "tpl"); ("version", JStr "1.0.0")]);
         ("partials", JArr [JObj [("path", JStr "tpl/_init"); ("parameters", JObj [])]]) ].

Definition disk : fs :=
  {[ "./_scf.json" := Doc manifest;
     "/cache/tpl/_scf.json" := Doc (JObj [("name", JStr "tpl")]) ]}.

Definition parameters : json := JObj [("name", JStr "orders")].

(** The context that a run of the partial [orders] in the folder [.]
    builds for the generator. *)
Definition context : list (string * jsval) :=
  [ ("partial", Some (JObj []));
    ("partialPath", Some (JStr "/cache/tpl/orders"));
    ("parameters", Some parameters);
    ("targetPath", Some (JStr "."));
    ("template", Some (JObj [("name", JStr "tpl")]));
    ("templatePath", Some (JStr "/cache/tpl"));
    ("config", Some (JObj ConfigProvider.new_ConfigProvider)) ].

End ManifestExample.


(** ** Worked inputs for the options code *)

Module OptionsExample.
Import Json JS RegExp ScafflaterOptions ExampleHost.

(** The heap before any instance is made: the shared logger alone. *)
Definition bare : world :=
  World {[ logger_addr := Object LoggerObject {[ "level" := VStr "info" ]} ]} ∅ [] ∅.

(** A directive inside a region, then two outside it that set the same key. *)
Definition annotated : string := q "# @scf-region
# @scf-option {'a':1}
# @end-scf-region
# @scf-option {'appendStrategy':'replace', 'b':[1,2]}
x
# @scf-option {'appendStrategy':'ignore'}
".

(** The line of [annotated] that lies inside the region. *)
Definition frozen_line : string := q "# @scf-option {'a':1}
".

(** [annotated] without its three directive lines. *)
Definition stripped : string := "# @scf-region
# @end-scf-region
x
".

(** A payload that is never closed, and one that is closed but is no JSON. *)
Definition unclosed : string := "# @scf-option {bad json".
Definition unquoted : string := "# @scf-option {bad: json}".

(** What the pattern of [getConfigFromString] finds in [unquoted]. *)
Definition unquoted_match : match_result :=
  MatchResult 0 25 [(1, (14, 25)); (2, (23, 24))].

Definition manifest_text : string :=
  q "{'options': {'processors': ['x'], 'annotate': true}}".

Definition disk : gmap string string :=
  {[ "t/annotated" := annotated; "t/unclosed" := unclosed;
     "t/unquoted" := unquoted; "t/scafflater.jsonc" := manifest_text ]}.

(** [new ScafflaterOptions()] in the bare heap gives the instance [this]. *)
Definition constructed : outcome addr * world := new_ScafflaterOptions VUndefined bare.
Definition this : addr := 6%positive.

(** The generation context: an object whose [options] is the instance. *)
Definition context_addr : addr := 7%positive.
Definition context : value := VRef context_addr.

(** The heap with the instance and the context, and the files on disk. *)
Definition w : world :=
  World (<[context_addr := Object PlainObject {[ "options" := VRef this ]}]>
           (heap constructed.2))
        disk [] ∅.

Definition tprops : gmap string value := own_props (heap w) (VRef this).

(** What the pattern of [getConfigFromString] finds in [annotated]. *)
Definition first_match : match_result := MatchResult 14 35 [(1, (28, 35)); (2, (33, 34))].
Definition second_match : match_result :=
  MatchResult 54 107 [(1, (68, 107)); (2, (105, 106))].
Definition third_match : match_result :=
  MatchResult 110 151 [(1, (124, 151)); (2, (142, 150))].
Definition region : Region := mkRegion 0 54 14 36.

(** The documents of the two directives outside the region. *)
Definition second_doc : json :=
  JObj [("appendStrategy", JStr "replace"); ("b", JArr [JNum "1"; JNum "2"])].
Definition third_doc : json := JObj [("appendStrategy", JStr "ignore")].

(** The folder-scoped options of [manifest_text]. *)
Definition folder_options : list (string * json) :=
  [("processors", JArr [JStr "x"]); ("annotate", JBool true)].

(** What resolving the directives of [annotated] gives, and what resolving
    the options of the folder [t] gives. *)
Definition resolved : outcome addr * world := getConfigFromString this annotated w.
Definition folder_resolved : outcome addr * world := getFolderOptions this "t" context w.
Definition instance : addr := 17%positive.

(** The pattern of [stripConfig] around the default marker. *)
Definition strip_pattern : regex := strip_regex (literal "@scf-option").

End OptionsExample.

(** ** A folder manifest for [ConfigProvider.mergeFolderConfig] *)

Module FolderExample.
Import Json FsDocs.

Definition folder_config : list (string * json) :=
  [("processors", JArr [JStr "x"]); ("annotate", JBool false)].

Definition disk : fs :=
  {[ "t/_scf.json" := Doc (JObj [("config", JObj folder_config)]) ]}.

End FolderExample.

(** ** Worked calls of [getProcessor] and of the pipeline *)

Module ProcessorExample.
Import JS Processor.

(** Two kinds of stage: the base class, and one that appends a suffix and
    a blank to what it is given. *)
Inductive stages := base | suffix (s : string).

#[export] Instance sample_stage : Stage stages := λ p context input,
  match p with
  | base => process context input
  | suffix s => mret (mkProcessResult context (input +:+ s +:+ " "))
  end.

(** A host that constructs whatever object it is handed. *)
#[export] Instance constructors : Constructors := λ C,
  match C with
  | VRef a => mret (VRef a)
  | _ => throw TypeError
  end.

(** A module scope in which [RegionProcessor] is bound and [value] is not. *)
Definition scope : world :=
  World {[ 1%positive := Object PlainObject ∅ ]} ∅ []
        {[ "RegionProcessor" := VRef 1%positive ]}.

End ProcessorExample.

(** ** [config-provider/index.js]: directives in file content *)

Module ConfigDirectives.
Import Json RegExp.

(** Modelled from the spec: [fsUtil.readFileContentSync], whose source is
    absent: the text of the file at a path, a missing file being an
    error.  The files are a store of texts addressed by path. *)
Definition readFileContentSync (path : string) : M (gmap string string) string := λ w,
  match w !! path with
  | Some text => (Return text, w)
  | None => (Throw (SystemError path), w)
  end.

(** The text that [`${error}`] gives for the error [JSON.parse] throws on
    a text it rejects. *)
Class ParseErrors := JSON_parse_error : string → string.

(** The source text of the pattern around the interpolated comment token
    and marker. *)
Definition directive_source (comment marker : string) : string :=
  comment +:+ "\s*" +:+ marker +:+ "\s+(?<name>[^ ]+)\s+(?<value>.*)".

Definition whitespace : regex := Cls false [ASpace].

(** [r+] for a pattern [r] that consumes a code unit whenever it matches:
    [r] once, then [r*]. *)
Definition plus (r : regex) : regex := Seq r (Star true r).

(** The same pattern as a syntax tree; group 1 is [name], group 2 is
    [value]. *)
Definition directive_regex (comment marker : regex) : regex :=
  Seq comment
 (Seq (Star true whitespace)
 (Seq marker
 (Seq (plus whitespace)
 (Seq (Group 1 (plus (Cls true [AChar " "])))
 (Seq (plus whitespace)
      (Group 2 (Star true Dot))))))).

(** An object under construction: a property may hold [undefined]. *)
Definition properties := list (string * jsval).

(** [o[k] = v]: the property is replaced where it stands, or added after
    the others. *)
Fixpoint assign (k : string) (v : jsval) (o : properties) : properties :=
  match o with
  | [] => [(k, v)]
  | (k', v') :: o' =>
      if String.eqb k' k then (k, v) :: o' else (k', v') :: assign k v o'
  end.

(** [o[k]]: [undefined] for a property that is not there. *)
Definition read (k : string) (o : properties) : jsval :=
  match List.find (fun e => String.eqb (fst e) k) o with
  | Some e => snd e
  | None => None
  end.

(** [{ ...a, ...b }] with the own members of [a] and the properties [b]. *)
Definition spread_over (a : list (string * json)) (b : properties) : properties :=
  fold_left (fun acc e => assign (fst e) (snd e) acc) b
            (fold_left (fun acc e => assign (fst e) (Some (snd e)) acc) a []).

(** A step that returns or throws and leaves the files alone. *)
Definition pure_step {A} (o : outcome A) : M (gmap string string) A := λ w, (o, w).

(** The result: [{ config, fileContent }]. *)
Record extraction := mkExtraction {
  config : properties;
  fileContent : string
}.

Section WithHost.
Context `{Host} `{ParseErrors}.

(** [new RegExp(`..`, 'gi')]: tokens without pattern syntax stand for
    themselves; any other source is read by the host. *)
Definition new_RegExp (comment marker : jsval) : outcome regex :=
  let c := jsval_to_string comment in
  let m := jsval_to_string marker in
  if ScafflaterOptions.plain_marker c && ScafflaterOptions.plain_marker m
  then Return (directive_regex (literal c) (literal m))
  else match RegExp_parse (directive_source c m) with
       | Some r => Return r
       | None => Throw SyntaxError
       end.

(** ToString of a group that may not have taken part in the match. *)
Definition group_string (g : option string) : string :=
  match g with
  | Some s => s
  | None => "undefined"
  end.

Definition is_text (g : option string) (s : string) : bool :=
  match g with
  | Some t => String.eqb t s
  | None => false
  end.

(** The body of [switch (c.groups.name)]: the value a directive gives its
    name, or the error thrown for it. *)
Definition directive_value (filePath : string) (name value : option string)
    : outcome jsval :=
  if is_text name "processors" || is_text name "appenders" then
    match JSON_parse (group_string value) with
    | Some d => Return (Some d)
    | None =>
        Throw (Error ("Could not parse option '" +:+ group_string name
                      +:+ "' on file '" +:+ filePath +:+ "': "
                      +:+ JSON_parse_error (group_string value)))
    end
  else if is_text name "annotate" then
    Return (Some (JBool (is_text value "1" || is_text value "true")))
  else
    Return (JStr <$> value).

(** [newConfig[c.groups.name] = v] for the values the loop assigns, a
    string, a boolean, a parsed document or [undefined]: on the name
    [__proto__], reached with a string or [undefined] only, the assignment
    makes no property. *)
Definition assign_directive (name : option string) (v : jsval) (newConfig : properties)
    : properties :=
  if String.eqb (group_string name) "__proto__" then newConfig
  else assign (group_string name) v newConfig.

(** The body of [for (const c of configs)], on the matches that remain. *)
Fixpoint collect (filePath fileContent : string) (configs : list match_result)
    (newConfig : properties) : outcome properties :=
  match configs with
  | [] => Return newConfig
  | c :: rest =>
      let name := group_text fileContent c 1 in
      let value := group_text fileContent c 2 in
      match directive_value filePath name value with
      | Return v =>
          collect filePath fileContent rest (assign_directive name v newConfig)
      | Throw e => Throw e
      end
  end.

(** [static extractConfigFromFileContent(filePath, config)]. *)
Definition extractConfigFromFileContent (filePath : string) (config : jsval)
    : M (gmap string string) extraction :=
  fileContent ← readFileContentSync filePath;
  comment ← get config "singleLineComment";
  marker ← get config "configMarker";
  configRegex ← pure_step (new_RegExp comment marker);
  let configs := matchAll true configRegex fileContent in
  newConfig ← pure_step (collect filePath fileContent configs []);
  mret (mkExtraction (spread_over (FsDocs.own_members config) newConfig)
                     (replace_all_empty true configRegex fileContent)).

End WithHost.
End ConfigDirectives.

(** ** Vocabulary of the statements about the matcher, the constructor,
    the pipeline and the directives of [ConfigProvider] *)

Module MatcherVocabulary.
Import RegExp.

(** The text holds no code unit [c]. *)
Fixpoint lacks (c : ascii) (s : string) : bool :=
  match s with
  | EmptyString => true
  | String ch s' => negb (Ascii.eqb c ch) && lacks c s'
  end.

(** The loop of a starred pattern, with the matcher of its body and the
    reset of the body's captures as parameters. *)
Section StarLoop.
Variable body : continuation → string → nat → captures → option (nat * captures).
Variable reset : captures → captures.
Variable greedy : bool.
Variable k : continuation.

Fixpoint star_loop (fuel : nat) (s : string) (pos : nat) (cs : captures)
    : option (nat * captures) :=
  let again :=
    match fuel with
    | O => None
    | S fuel' =>
        body (fun s' p' c' => if Nat.eqb p' pos then None else star_loop fuel' s' p' c')
             s pos (reset cs)
    end in
  if greedy then first_of again (k s pos cs)
  else first_of (k s pos cs) again.
End StarLoop.

End MatcherVocabulary.

Module ConstructorSpec.
Import JS ScafflaterOptions.

(** The property map of a new instance: the properties the loop assigns
    from the argument over the field initialisers. *)
Definition instance_props `{Host} (h : gmap addr object) (options p a c s : value)
    : gmap string value :=
  assigned_props h options ∪ list_to_map (field_initialisers p a c s winston_logger).

End ConstructorSpec.

Module PipelineSpec.

(** The text is empty or begins with a code unit that [trim] keeps. *)
Definition head_kept (s : string) : Prop :=
  match s with
  | EmptyString => True
  | String c _ => Chars.is_space c = false
  end.

End PipelineSpec.

Module DirectivesSpec.
Import Json RegExp ConfigDirectives.

Section WithHost.
Context `{Host} `{ParseErrors}.

(** The property name a match assigns to, and what its directive gives. *)
Definition directive_key (fileContent : string) (c : match_result) : string :=
  group_string (group_text fileContent c 1).

Definition directive_gives (filePath fileContent : string) (c : match_result)
    : outcome jsval :=
  directive_value filePath (group_text fileContent c 1) (group_text fileContent c 2).

(** The object holds a property of that name, be it [undefined]. *)
Definition present (k : string) (o : properties) : bool :=
  existsb (fun e => String.eqb (fst e) k) o.

End WithHost.

(** In an object each name stands once. *)
Definition distinct (o : properties) : Prop := NoDup o.*1.

End DirectivesSpec.

(** ** Worked inputs for the pipeline, the constructor and the directives *)

Module PipelineExample.
Import JS Processor.

(** Stages that hand on, append a suffix, or fail. *)
Inductive steps := pass | append (s : string) | failing (message : string).

#[export] Instance steps_stage : Stage steps := λ p context input,
  match p with
  | pass => process context input
  | append s => mret (mkProcessResult context (input +:+ s))
  | failing message => throw (Error message)
  end.

End PipelineExample.

Module DirectivesExample.
Import Json RegExp ConfigDirectives ExampleHost.

#[export] Instance parse_errors : ParseErrors := λ text,
  "SyntaxError: " +:+ text +:+ " is not valid JSON".

Definition template : string := q "# @scf-config processors ['a', 'b']
line one
# @scf-config annotate 1
# @scf-config targetName out.txt
# @scf-config annotate no
line two
".

Definition broken : string := "# @scf-config appenders [1, 2
".

Definition disk : gmap string string :=
  {[ "t/template" := template; "t/broken" := broken ]}.

(** The pattern around the default tokens and what it finds in
    [template]. *)
Definition pattern : regex := directive_regex (literal "#") (literal "@scf-config").

Definition found : list match_result :=
  [ MatchResult 0 35 [(2, (25, 35)); (1, (14, 24))];
    MatchResult 45 69 [(2, (68, 69)); (1, (59, 67))];
    MatchResult 70 102 [(2, (95, 102)); (1, (84, 94))] ].

Definition last_found : match_result :=
  MatchResult 103 128 [(2, (126, 128)); (1, (117, 125))].

(** What [extractConfigFromFileContent] makes of [template] under the
    default configuration. *)
Definition extracted : extraction :=
  match (extractConfigFromFileContent "t/template"
           (Some (JObj ConfigProvider.new_ConfigProvider)) disk).1 with
  | Return result => result
  | Throw _ => mkExtraction [] EmptyString
  end.

End DirectivesExample.

Module MoreOptionsExample.
Import Json JS ScafflaterOptions ExampleHost OptionsExample.

(** An argument for the constructor that asks for debug mode, and one that
    asks for it and takes the logger away. *)
Definition debug_addr : addr := 2%positive.
Definition debug_world : world :=
  World (<[debug_addr := Object PlainObject {[ "mode" := VStr "debug" ]}]> (heap bare))
        ∅ [] ∅.
Definition mute_world : world :=
  World (<[debug_addr := Object PlainObject
                           {[ "mode" := VStr "debug"; "logger" := VNull ]}]> (heap bare))
        ∅ [] ∅.
Definition logger_object : object := Object LoggerObject {[ "level" := VStr "info" ]}.

(** An argument that sets the marker and has a property [__proto__] of its
    own, as [JSON.parse] and spread make it. *)
Definition override_world : world :=
  World (<[debug_addr := Object PlainObject
                           {[ "optionMarker" := VStr "@opt"; "__proto__" := VNum "5" ]}]>
           (heap bare))
        ∅ [] ∅.

(** A text whose one directive lies in a region, and one without braces. *)
Definition frozen_only : string := q "# @scf-region
# @scf-option {'a':1}
# @end-scf-region
".
Definition plain_text : string := "no directive here
".

End MoreOptionsExample.

Module CornerExample.
Import Json JS RegExp ScafflaterOptions ExampleHost OptionsExample.

(** A directive whose payload holds an object, and the same key set to an
    object by two directives. *)
Definition nested : string := q "# @scf-option {'sources':{'git':'./x'}}
".
Definition nested_twice : string := q "# @scf-option {'sources':{'git':'./a'}}
# @scf-option {'sources':{'git':'./b'}}
".

(** The payload as [nested] has it, and as the pattern captures it. *)
Definition nested_payload : string := q "{'sources':{'git':'./x'}}".
Definition nested_captured : string := q "{'sources':{'git':'./x'}".

(** What the pattern of [getConfigFromString] finds in [nested] and in
    [nested_twice]. *)
Definition nested_match : match_result :=
  MatchResult 0 39 [(1, (14, 38)); (2, (32, 37))].
Definition nested_again : match_result :=
  MatchResult 40 79 [(1, (54, 78)); (2, (72, 77))].

(** Directives that name [__proto__]. *)
Definition proto_directive : string := q "# @scf-option {'__proto__':5, 'annotate':true}
".
Definition proto_twice : string := q "# @scf-option {'__proto__':1}
# @scf-option {'__proto__':2}
".

(** What the pattern finds in them. *)
Definition proto_match : match_result :=
  MatchResult 0 46 [(1, (14, 46)); (2, (44, 45))].
Definition proto_first : match_result :=
  MatchResult 0 29 [(1, (14, 29)); (2, (27, 28))].
Definition proto_second : match_result :=
  MatchResult 30 59 [(1, (44, 59)); (2, (57, 58))].

(** A folder whose manifest names [__proto__] among its options. *)
Definition proto_manifest : string :=
  q "{'options': {'__proto__': 5, 'annotate': true}}".
Definition proto_world : world :=
  World (heap w) {[ "p/scafflater.jsonc" := proto_manifest ]} [] ∅.

End CornerExample.
(** * Properties *)

(** ** Sequencing *)

Lemma bind_return {W A B} (m : M W A) (f : A → M W B) w a w' :
  m w = (Return a, w') → (m ≫= f) w = f a w'.
Proof. intros E. unfold mbind, M_bind. by rewrite E. Qed.

Lemma bind_throw {W A B} (m : M W A) (f : A → M W B) w e w' :
  m w = (Throw e, w') → (m ≫= f) w = (Throw e, w').
Proof. intros E. unfold mbind, M_bind. by rewrite E. Qed.

Lemma bind_assoc {W A B C} (m : M W A) (f : A → M W B) (g : B → M W C) w :
  ((m ≫= f) ≫= g) w = (m ≫= (λ a, f a ≫= g)) w.
Proof. unfold mbind, M_bind. by destruct (m w) as [[a|e] w']. Qed.

Lemma bind_ext {W A B} (m : M W A) (f g : A → M W B) w :
  (∀ a w', f a w' = g a w') → (m ≫= f) w = (m ≫= g) w.
Proof. intros E. unfold mbind, M_bind. destruct (m w) as [[a|e] w']; auto. Qed.

Lemma bind_inv {W A B} (m : M W A) (f : A → M W B) w b w2 :
  (m ≫= f) w = (Return b, w2) →
  ∃ a w1, m w = (Return a, w1) ∧ f a w1 = (Return b, w2).
Proof.
  unfold mbind, M_bind. destruct (m w) as [[a|e] w1]; [eauto | discriminate].
Qed.

(** ** The processor pipeline *)

Module ProcessorFacts.
Import JS Processor.

Section Pipeline.
Context {P : Type} `{Stage P}.

(** Running the remaining stages after an accumulated computation is
    folding them into it. *)
Lemma run_stages_foldl (processors : list P) (acc : M world (value * string)) w :
  ('(ctx, text) ← acc; run_stages processors ctx text) w
  = ('(_, text) ← foldl stage acc processors; mret text) w.
Proof.
  revert acc w. induction processors as [|p ps IH]; intros acc w; simpl.
  - apply bind_ext. by intros [ctx text] w'.
  - rewrite <- IH. unfold stage at 1. rewrite bind_assoc.
    apply bind_ext. intros [ctx text] w'. rewrite bind_assoc.
    apply bind_ext. intros r w''. reflexivity.
Qed.

Lemma foldl_stage_snoc (init : list P) (p : P) (acc : M world (value * string)) :
  foldl stage acc (init ++ [p]) = stage (foldl stage acc init) p.
Proof. by rewrite foldl_app. Qed.

End Pipeline.
End ProcessorFacts.

(** C6. For every processor list, context and input, the pipeline is the
    left fold of the stages in list order over the copied context and the
    raw input, each stage taking the context and the trimmed text the stage
    before it returned; and the output of a pipeline that ends in stage [p]
    is the trimmed result of [p] run on what the stages before it left. *)
Theorem pipeline_is_left_fold {P : Type} `{Processor.Stage P}
    (init processors : list P) (p : P) (context : JS.value) (input : string)
    (w : JS.world) :
  Processor.runProcessorsPipeline processors context input w
  = Processor.pipeline_fold processors context input w
  ∧ Processor.runProcessorsPipeline (init ++ [p]) context input w
    = (generationContext ← JS.spread [context];
       '(ctx, text) ← foldl Processor.stage (mret (generationContext, input)) init;
       r ← Processor.process_of p ctx text;
       mret (JS.trim (Processor.result r))) w.
Proof.
  assert (Hfold : ∀ ps, Processor.runProcessorsPipeline ps context input w
                        = Processor.pipeline_fold ps context input w).
  { intros ps. unfold Processor.runProcessorsPipeline, Processor.pipeline_fold.
    apply bind_ext. intros gc w'.
    rewrite <- ProcessorFacts.run_stages_foldl.
    unfold mbind, M_bind, mret, M_ret. reflexivity. }
  split; [apply Hfold|].
  rewrite Hfold. unfold Processor.pipeline_fold.
  apply bind_ext. intros gc w'.
  rewrite ProcessorFacts.foldl_stage_snoc. unfold Processor.stage at 1.
  rewrite bind_assoc. apply bind_ext. intros [ctx text] w1.
  rewrite bind_assoc. apply bind_ext. intros r w2. reflexivity.
Qed.

(** C7 (what the code does). In a global scope that binds no [value],
    [getProcessor] throws ReferenceError for every name, the registered
    ['region-processor'] included, and leaves the state as it was: it never
    returns a processor and never reaches its own "No processor found". *)
Theorem getProcessor_always_throws `{Processor.Constructors}
    (name : string) (w : JS.world) :
  JS.globals w !! "value" = None →
  Processor.getProcessor name w = (Throw ReferenceError, w).
Proof.
  intros Hval. unfold Processor.getProcessor.
  apply bind_throw. unfold JS.resolve_global. by rewrite Hval.
Qed.

Lemma bind_cases {W A B} (m : M W A) (f : A → M W B) w r w' :
  (m ≫= f) w = (r, w') →
  (∃ e, m w = (Throw e, w') ∧ r = Throw e)
  ∨ (∃ a w1, m w = (Return a, w1) ∧ f a w1 = (r, w')).
Proof.
  unfold mbind, M_bind. destruct (m w) as [[a|e] w1]; intros E.
  - right. eauto.
  - left. exists e. by inversion E.
Qed.

(** ** The manifest commit of [runPartial] *)

Module ScafflaterFacts.
Import Json FsDocs Scafflater ManifestSpec.

Lemma get_pure (x : jsval) (k : string) (w : fs) r w' :
  get x k w = (r, w') → w' = w.
Proof. destruct x as [[]|]; simpl; unfold throw, mret, M_ret; by intros [= _ <-]. Qed.

Lemma get_returns (x : jsval) (k : string) (w : fs) v w' :
  get x k w = (Return v, w') →
  w' = w ∧ x ≠ None ∧ x ≠ Some JNull
  ∧ v = match x with Some (JObj ms) => member k ms | _ => None end.
Proof.
  destruct x as [[]|]; simpl; unfold throw, mret, M_ret;
    intros [= <- <-] || intros [=]; done.
Qed.

Lemma join_pure `{Paths} (a b : jsval) (w : fs) r w' :
  join a b w = (r, w') → w' = w.
Proof.
  unfold join. destruct a as [[]|], b as [[]|];
    unfold throw, mret, M_ret; by intros [= _ <-].
Qed.

Lemma join_returns `{Paths} (a b : jsval) (w : fs) p w' :
  join a b w = (Return p, w') →
  ∃ x y, a = Some (JStr x) ∧ b = Some (JStr y) ∧ p = path_join2 x y ∧ w' = w.
Proof.
  unfold join. destruct a as [[]|], b as [[]|];
    unfold throw, mret, M_ret; intros [=]; subst; eauto 10.
Qed.

Lemma readJsonSync_pure (path : string) (w : fs) r w' :
  readJsonSync path w = (r, w') → w' = w.
Proof. unfold readJsonSync. destruct (w !! path) as [[]|]; by intros [= _ <-]. Qed.

Lemma readJsonSync_returns (path : string) (w : fs) v w' :
  readJsonSync path w = (Return v, w') →
  ∃ d, w !! path = Some (Doc d) ∧ v = Some d ∧ w' = w.
Proof.
  unfold readJsonSync. destruct (w !! path) as [[]|]; intros [=]; subst; eauto.
Qed.

Lemma set_member_twice (k : string) (v1 v2 : json) (ms : list (string * json)) :
  set_member k v2 (set_member k v1 ms) = set_member k v2 ms.
Proof.
  induction ms as [|[k' v'] ms IH]; simpl.
  - by rewrite String.eqb_refl.
  - destruct (String.eqb k' k) eqn:E; simpl; rewrite ?E, ?String.eqb_refl; [done|].
    by rewrite IH.
Qed.

Lemma member_set_member (k : string) (v : json) (ms : list (string * json)) :
  member k (set_member k v ms) = Some v.
Proof.
  unfold member. induction ms as [|[k' v'] ms IH]; simpl.
  - by rewrite String.eqb_refl.
  - destruct (String.eqb k' k) eqn:E; simpl; rewrite ?E, ?String.eqb_refl; done.
Qed.

Ltac step H :=
  let e := fresh "e" in let a := fresh "a" in let w1 := fresh "w" in
  let Hm := fresh "Hm" in
  apply bind_cases in H as [(e & Hm & ->) | (a & w1 & Hm & H)].

(** The same step taken in two computations that begin alike. *)
Ltac step_both H G :=
  let e := fresh "e" in let a := fresh "a" in let w1 := fresh "w" in
  let Hm := fresh "Hm" in
  apply bind_cases in H as [(e & Hm & ->) | (a & w1 & Hm & H)];
  [rewrite (bind_throw _ _ _ _ _ Hm) in G; injection G as <- <-
  |rewrite (bind_return _ _ _ _ _ Hm) in G].


Import (hints) ManifestExample.

Lemma example_collaborators_preserve_manifest :
  (∀ a b c, preserves "./_scf.json" (getPartial a b c))
  ∧ (∀ a b, preserves "./_scf.json" (getTemplatePath a b))
  ∧ (∀ ctx, preserves "./_scf.json" (generate ctx)).
Proof.
  repeat split; intros; intros w r w' [= _ <-]; try done.
  by apply lookup_insert_ne.
Defined.

Lemma failing_collaborators_preserve_manifest :
  (∀ a b c, preserves "./_scf.json" (getPartial (Collaborators := ManifestExample.failing) a b c))
  ∧ (∀ a b, preserves "./_scf.json"
              (getTemplatePath (Collaborators := ManifestExample.failing) a b))
  ∧ (∀ ctx, preserves "./_scf.json"
              (generate (Collaborators := ManifestExample.failing) ctx)).
Proof.
  repeat split; intros; intros w r w' [= _ <-]; try done.
  by apply lookup_insert_ne.
Defined.


(** After that run the manifest lists the earlier record and the new one. *)
Example runPartial_example_manifest :
  (runPartial ManifestExample.config "orders" ManifestExample.parameters "."
     ManifestExample.disk).2 !! "./_scf.json"
  = Some (Doc (JObj
      [ ("template", JObj [("name", JStr "tpl"); ("version", JStr "1.0.0")]);
        ("partials",
         JArr [ JObj [("path", JStr "tpl/_init"); ("parameters", JObj [])];
                JObj [("path", JStr "tpl/orders");
                      ("parameters", JObj [("name", JStr "orders")])] ]) ])).
Proof. vm_compute. reflexivity. Qed.

(** With the failing generator the run throws the generator's error and the
    manifest file is the one the run found, although the generator had
    written another file by then. *)
Example runPartial_example_failure :
  let out := runPartial (collaborators := ManifestExample.failing) ManifestExample.config
               "orders" ManifestExample.parameters "." ManifestExample.disk in
  out.1 = Throw (Error "render failed")
  ∧ out.2 !! "./_scf.json" = Some (Doc ManifestExample.manifest)
  ∧ out.2 !! "./README.md" = Some (Text "half").
Proof. vm_compute. repeat split; reflexivity. Qed.

End ScafflaterFacts.

(** ** Heaps, documents and the graphs that denote them *)

Module HeapFacts.
Import Json JS OptionsSpec.

Lemma fresh_unallocated (h : gmap addr object) : h !! fresh (dom h) = None.
Proof. apply not_elem_of_dom, is_fresh. Qed.

Lemma alloc_spec (o : object) (w : world) :
  ∃ a, alloc o w = (Return a, with_heap (insert a o) w) ∧ heap w !! a = None.
Proof. eexists. split; [reflexivity | apply fresh_unallocated]. Qed.

Lemma same_outside_heap_refl w : same_outside_heap w w.
Proof. done. Qed.

Lemma same_outside_heap_trans w1 w2 w3 :
  same_outside_heap w1 w2 → same_outside_heap w2 w3 → same_outside_heap w1 w3.
Proof. unfold same_outside_heap. intros (?&?&?) (?&?&?). repeat split; congruence. Qed.

Lemma same_outside_with_heap f w : same_outside_heap w (with_heap f w).
Proof. done. Qed.

Lemma denotes_elements_mono (P Q : value → json → Prop) items :
  Forall (λ x, ∀ v, P v x → Q v x) items →
  ∀ i ps, denotes_elements P i items ps → denotes_elements Q i items ps.
Proof.
  induction 1 as [|x l Hx _ IH]; intros i ps; simpl; [done|].
  intros (v & m & Hv & Hm & ->). exists v, m. auto.
Qed.

Lemma denotes_members_mono (P Q : value → json → Prop) ms :
  Forall (λ e, ∀ v, P v e.2 → Q v e.2) ms →
  ∀ acc ps, denotes_members P acc ms ps → denotes_members Q acc ms ps.
Proof.
  induction 1 as [|[k x] l Hx _ IH]; intros acc ps; simpl; [done|].
  intros (v & Hv & Hm). exists v. auto.
Qed.

Lemma denotes_mono (h h' : gmap addr object) :
  h ⊆ h' → ∀ j v, denotes h v j → denotes h' v j.
Proof.
  intros Hsub. induction j as [| | | |items IH|ms IH] using json_induction;
    intros v; simpl; try done.
  - intros (a & ps & -> & Ha & Hps). exists a, ps. split; [done|].
    split; [by eapply lookup_weaken|]. by eapply denotes_elements_mono.
  - intros (a & ps & -> & Ha & Hps). exists a, ps. split; [done|].
    split; [by eapply lookup_weaken|]. by eapply denotes_members_mono.
Qed.

Lemma denotes_allocated h v j : denotes h v j → allocated h v.
Proof.
  destruct j; simpl; try (by intros ->).
  - intros (a & ps & -> & Ha & _). by eexists.
  - intros (a & ps & -> & Ha & _). by eexists.
Qed.

Lemma alloc_extends o w a w' :
  alloc o w = (Return a, w') →
  heap w !! a = None ∧ heap w' = <[a := o]> (heap w) ∧ heap w ⊆ heap w'
  ∧ same_outside_heap w w'.
Proof.
  destruct (alloc_spec o w) as (a' & E & Hfresh). rewrite E. intros [= <- <-].
  split; [done|]. split; [done|]. split; [|done].
  simpl. by apply insert_subseteq.
Qed.

Lemma difference_mono (h1 h1' h0 h0' : gmap addr object) :
  h1 ⊆ h1' → h0' ⊆ h0 → h1 ∖ h0 ⊆ h1' ∖ h0'.
Proof.
  intros S1 S0. apply map_subseteq_spec. intros a o.
  rewrite !lookup_difference_Some. intros [Ha Hn]. split.
  - by eapply lookup_weaken.
  - by eapply lookup_weaken_None.
Qed.

Lemma difference_subseteq (h h0 : gmap addr object) : h ∖ h0 ⊆ h.
Proof. by apply map_subseteq_difference_l. Qed.

(** [JSON.parse]'s allocation always returns, only adds objects and yields
    a graph that denotes the document and is made of the objects added. *)
Lemma alloc_json_spec (j : json) (w : world) :
  ∃ v w', alloc_json j w = (Return v, w') ∧ heap w ⊆ heap w'
          ∧ same_outside_heap w w' ∧ denotes (heap w' ∖ heap w) v j.
Proof.
  revert w. induction j as [| | | |items IH|ms IH] using json_induction; intros w;
    try (eexists _, w; by repeat split).
  - assert (Hloop : ∀ i w, ∃ ps w',
              alloc_elements alloc_json i items w = (Return ps, w')
              ∧ heap w ⊆ heap w' ∧ same_outside_heap w w'
              ∧ denotes_elements (denotes (heap w' ∖ heap w)) i items ps).
    { clear w. induction IH as [|x l Hx _ IHl]; intros i w; simpl.
      - exists ∅, w. by repeat split.
      - destruct (Hx w) as (v & w1 & Ev & S1 & O1 & Dv).
        destruct (IHl (S i) w1) as (m & w2 & Em & S2 & O2 & Dm).
        exists (<[pretty i := v]> m), w2.
        split. { erewrite bind_return by exact Ev. erewrite bind_return by exact Em. done. }
        split; [by etrans|]. split; [by eapply same_outside_heap_trans|].
        exists v, m. split; [eapply denotes_mono; [|exact Dv]; by apply difference_mono|].
        split; [|done]. eapply denotes_elements_mono; [|exact Dm].
        apply Forall_forall. intros y _ vy. apply denotes_mono.
        by apply difference_mono. }
    destruct (Hloop 0 w) as (ps & w1 & E1 & S1 & O1 & D1).
    destruct (alloc_spec (Object ArrayObject ps) w1) as (a & Ea & Hfresh).
    exists (VRef a), (with_heap (insert a (Object ArrayObject ps)) w1).
    assert (heap w1 ⊆ <[a := Object ArrayObject ps]> (heap w1)) by by apply insert_subseteq.
    split. { simpl. erewrite bind_return by exact E1. erewrite bind_return by exact Ea. done. }
    split; [by etrans|]. split; [done|].
    exists a, ps. split; [done|].
    split. { apply lookup_difference_Some. split; [apply lookup_insert_eq|].
             by eapply lookup_weaken_None. }
    eapply denotes_elements_mono; [|exact D1].
    apply Forall_forall. intros x _ v. apply denotes_mono. by apply difference_mono.
  - assert (Hloop : ∀ acc w, ∃ ps w',
              alloc_members alloc_json acc ms w = (Return ps, w')
              ∧ heap w ⊆ heap w' ∧ same_outside_heap w w'
              ∧ denotes_members (denotes (heap w' ∖ heap w)) acc ms ps).
    { clear w. induction IH as [|[k x] l Hx _ IHl]; intros acc w; simpl.
      - exists acc, w. by repeat split.
      - destruct (Hx w) as (v & w1 & Ev & S1 & O1 & Dv).
        destruct (IHl (<[k := v]> acc) w1) as (m & w2 & Em & S2 & O2 & Dm).
        exists m, w2.
        split. { erewrite bind_return by exact Ev. done. }
        split; [by etrans|]. split; [by eapply same_outside_heap_trans|].
        exists v. split; [eapply denotes_mono; [|exact Dv]; by apply difference_mono|].
        eapply denotes_members_mono; [|exact Dm].
        apply Forall_forall. intros y _ vy. apply denotes_mono.
        by apply difference_mono. }
    destruct (Hloop ∅ w) as (ps & w1 & E1 & S1 & O1 & D1).
    destruct (alloc_spec (Object PlainObject ps) w1) as (a & Ea & Hfresh).
    exists (VRef a), (with_heap (insert a (Object PlainObject ps)) w1).
    assert (heap w1 ⊆ <[a := Object PlainObject ps]> (heap w1)) by by apply insert_subseteq.
    split. { simpl. erewrite bind_return by exact E1. erewrite bind_return by exact Ea. done. }
    split; [by etrans|]. split; [done|].
    exists a, ps. split; [done|].
    split. { apply lookup_difference_Some. split; [apply lookup_insert_eq|].
             by eapply lookup_weaken_None. }
    eapply denotes_members_mono; [|exact D1].
    apply Forall_forall. intros x _ v. apply denotes_mono. by apply difference_mono.
Qed.

Lemma own_props_mono (h h' : gmap addr object) (v : value) :
  h ⊆ h' → allocated h v → own_props h' v = own_props h v.
Proof.
  intros Hsub. destruct v; simpl; try done.
  intros [o Ho]. rewrite Ho. by rewrite (lookup_weaken _ _ _ _ Ho Hsub).
Qed.

Lemma allocated_mono (h h' : gmap addr object) (v : value) :
  h ⊆ h' → allocated h v → allocated h' v.
Proof.
  intros Hsub. destruct v; simpl; try done.
  intros [o Ho]. exists o. by eapply lookup_weaken.
Qed.

(** The names of an indexed list are the indices from [i] on. *)
Lemma member_last_indexed_name {A} (f : nat → A → json) (k : string) (i : nat)
    (l : list A) (y : json) :
  member_last k (indexed (λ n x, (pretty n, f n x)) i l) = Some y →
  ∃ n, i ≤ n ∧ k = pretty n.
Proof.
  revert i y. induction l as [|x l IH]; intros i y; simpl; [done|].
  destruct (member_last k _) as [z|] eqn:E.
  - intros _. destruct (IH (S i) z E) as (n & Hn & ->). exists n. split; [lia|done].
  - destruct (String.eqb (pretty i) k) eqn:Ek; [|done].
    apply String.eqb_eq in Ek. intros _. exists i. split; [lia|done].
Qed.

Lemma denotes_members_lookup (den : value → json → Prop) ms :
  ∀ acc ps, denotes_members den acc ms ps →
  ∀ k, match member_last k ms with
       | Some x => ∃ vk, ps !! k = Some vk ∧ den vk x
       | None => ps !! k = acc !! k
       end.
Proof.
  induction ms as [|[k' x] ms IH]; intros acc ps; simpl.
  - by intros ->.
  - intros (v & Hv & Hps) k. specialize (IH _ _ Hps k).
    destruct (member_last k ms) as [y|]; [done|].
    rewrite IH. destruct (String.eqb k' k) eqn:Ek.
    + apply String.eqb_eq in Ek as ->. exists v. by rewrite lookup_insert_eq.
    + apply String.eqb_neq in Ek. by rewrite lookup_insert_ne.
Qed.

Lemma denotes_elements_lookup (den : value → json → Prop) items :
  ∀ i ps, denotes_elements den i items ps →
  ∀ k, match member_last k (indexed (λ n x, (pretty n, x)) i items) with
       | Some x => ∃ vk, ps !! k = Some vk ∧ den vk x
       | None => ps !! k = None
       end.
Proof.
  induction items as [|x items IH]; intros i ps; simpl.
  - by intros ->.
  - intros (v & m & Hv & Hm & ->) k. specialize (IH _ _ Hm k).
    destruct (member_last k _) as [y|] eqn:E.
    + destruct IH as (vk & Hvk & Hden). exists vk. split; [|done].
      apply (member_last_indexed_name (λ _ x, x)) in E as (n & Hn & ->).
      rewrite lookup_insert_ne; [done|]. intros Heq%(inj pretty). lia.
    + destruct (String.eqb (pretty i) k) eqn:Ek.
      * apply String.eqb_eq in Ek as <-. exists v. by rewrite lookup_insert_eq.
      * apply String.eqb_neq in Ek. by rewrite lookup_insert_ne.
Qed.

Lemma chars_lookup (cs : list ascii) :
  ∀ i k,
    match member_last k (indexed (λ n c, (pretty n, JStr (String c EmptyString))) i cs) with
    | Some x =>
        ∃ vk, (list_to_map (indexed (λ n c, (pretty n, VStr (String c EmptyString))) i cs)
                : gmap string value) !! k = Some vk
              ∧ ∀ h, denotes h vk x
    | None =>
        (list_to_map (indexed (λ n c, (pretty n, VStr (String c EmptyString))) i cs)
          : gmap string value) !! k = None
    end.
Proof.
  induction cs as [|c cs IH]; intros i k; simpl; [done|].
  specialize (IH (S i) k).
  destruct (member_last k _) as [y|] eqn:E.
  - destruct IH as (vk & Hvk & Hden). exists vk. split; [|done].
    apply (member_last_indexed_name (λ _ c, JStr (String c EmptyString))) in E
      as (n & Hn & ->).
    rewrite lookup_insert_ne; [done|]. intros Heq%(inj pretty). lia.
  - destruct (String.eqb (pretty i) k) eqn:Ek.
    + apply String.eqb_eq in Ek as <-. eexists. by rewrite lookup_insert_eq.
    + apply String.eqb_neq in Ek. by rewrite lookup_insert_ne.
Qed.

(** The own properties of a graph are the members of its document. *)
Lemma denotes_own_props (h : gmap addr object) (v : value) (doc : json) :
  denotes h v doc →
  ∀ k, match doc_sets doc k with
       | Some x => ∃ vk, own_props h v !! k = Some vk ∧ denotes h vk x
       | None => own_props h v !! k = None
       end.
Proof.
  unfold doc_sets. destruct doc as [| | |s|items|ms]; simpl.
  - by intros ->.
  - by intros ->.
  - by intros ->.
  - intros -> k. simpl. unfold chars_of.
    pose proof (chars_lookup (String.list_ascii_of_string s) 0 k) as Hc.
    destruct (member_last k _); [|done].
    destruct Hc as (vk & Hvk & Hden). eauto.
  - intros (a & ps & -> & Ha & Hps) k. simpl. rewrite Ha. simpl.
    by apply denotes_elements_lookup.
  - intros (a & ps & -> & Ha & Hps) k. simpl. rewrite Ha. simpl.
    pose proof (denotes_members_lookup _ _ _ _ Hps k) as Hm.
    destruct (member_last k ms); [done|]. by rewrite Hm.
Qed.

Lemma resolve_key_from (k : string) (docs : list json) (init : option json) :
  foldl (λ acc doc, match doc_sets doc k with Some x => Some x | None => acc end)
        init docs
  = match resolve_key k docs with
    | Some x => Some x
    | None => init
    end.
Proof.
  unfold resolve_key. revert init.
  induction docs as [|d ds IH]; intros init; simpl; [done|].
  rewrite IH. rewrite (IH (match doc_sets d k with Some x => Some x | None => None end)).
  destruct (foldl _ None ds); [done|]. by destruct (doc_sets d k).
Qed.

Lemma resolve_key_cons (k : string) (doc : json) (docs : list json) :
  resolve_key k (doc :: docs)
  = match resolve_key k docs with
    | Some x => Some x
    | None => doc_sets doc k
    end.
Proof.
  unfold resolve_key at 1. simpl. rewrite resolve_key_from.
  destruct (resolve_key k docs); [done|]. by destruct (doc_sets doc k).
Qed.

Lemma spread_spec (operands : list value) (w : world) :
  ∃ a, spread operands w
       = (Return (VRef a),
          with_heap (insert a (Object PlainObject
                       (foldl (λ acc v, own_props (heap w) v ∪ acc) ∅ operands))) w)
       ∧ heap w !! a = None.
Proof. eexists. split; [reflexivity | apply fresh_unallocated]. Qed.

End HeapFacts.

(** ** The order of the matches *)

Module RegExpFacts.
Import RegExp OptionsSpec.

(** The matches of a scan lie at or after its position, in strictly
    increasing order of their offsets. *)
Lemma scan_sorted (ic : bool) (r : regex) (s : string) :
  ∀ pos skip,
    Forall (λ m, pos ≤ index m) (scan ic r s pos skip)
    ∧ StronglySorted earlier (scan ic r s pos skip).
Proof.
  induction s as [|ch s IH]; intros pos skip; simpl.
  - destruct skip; [|by split; constructor].
    destruct (match_here ic r EmptyString pos) as [[e cs]|];
      split; repeat constructor.
  - destruct skip as [|skip'].
    + destruct (match_here ic r (String ch s) pos) as [[e cs]|].
      * destruct (IH (S pos) (Nat.pred (e - pos))) as [Hge Hsorted]. split.
        -- constructor; [simpl; lia|]. eapply Forall_impl; [exact Hge|].
           simpl. intros; lia.
        -- constructor; [done|]. eapply Forall_impl; [exact Hge|].
           unfold earlier. simpl. intros; lia.
      * destruct (IH (S pos) 0) as [Hge Hsorted]. split; [|done].
        eapply Forall_impl; [exact Hge|]. simpl. intros; lia.
    + destruct (IH (S pos) skip') as [Hge Hsorted]. split; [|done].
      eapply Forall_impl; [exact Hge|]. simpl. intros; lia.
Qed.

Lemma matchAll_sorted (ic : bool) (r : regex) (s : string) :
  StronglySorted earlier (matchAll ic r s).
Proof. apply scan_sorted. Qed.

Lemma StronglySorted_filter_earlier (P : match_result → Prop)
    `{∀ m, Decision (P m)} (l : list match_result) :
  StronglySorted earlier l → StronglySorted earlier (filter P l).
Proof.
  induction 1 as [|m l Hs IH Hm]; [constructor|].
  destruct (decide (P m)).
  - rewrite filter_cons_True by done. constructor; [done|].
    apply Forall_forall. intros x [_ Hx]%list_elem_of_filter.
    by eapply Forall_forall in Hm.
  - by rewrite filter_cons_False.
Qed.

End RegExpFacts.

(** ** The pipeline without stages *)

(** C10. With no processors the pipeline returns its input as it is, not
    trimmed, whatever the context; all it does besides is to add the copy
    it makes of the context to the heap, as a new object. *)
Theorem empty_pipeline_is_identity {P : Type} `{Processor.Stage P}
    (context : JS.value) (input : string) (w : JS.world) :
  ∃ a,
    Processor.runProcessorsPipeline (P := P) [] context input w
    = (Return input,
       JS.with_heap
         (insert a (JS.Object JS.PlainObject (JS.own_props (JS.heap w) context))) w)
    ∧ JS.heap w !! a = None.
Proof.
  destruct (HeapFacts.spread_spec [context] w) as (a & Hspread & Hfresh).
  exists a. split; [|exact Hfresh].
  unfold Processor.runProcessorsPipeline.
  rewrite (bind_return _ _ _ _ _ Hspread). cbn [Processor.run_stages foldl].
  by rewrite (right_id_L ∅ (∪)).
Qed.

(** ** Options resolution, step by step *)

Module ResolutionFacts.
Import Json JS RegExp ScafflaterOptions OptionsSpec HeapFacts.

Section WithHost.
Context `{Host}.

Lemma surviving_skip regions c rest :
  existsb (in_region (index c)) regions = true →
  surviving regions (c :: rest) = surviving regions rest.
Proof. intros E. unfold surviving. rewrite filter_cons_False; [done|]. by rewrite E. Qed.

Lemma surviving_keep regions c rest :
  existsb (in_region (index c)) regions = false →
  surviving regions (c :: rest) = c :: surviving regions rest.
Proof. intros E. unfold surviving. by rewrite filter_cons_True. Qed.

(** The loop over the matches: it only adds objects to the heap; when it
    returns, every surviving match carried a document and the value it
    returns has, under each key, what the documents merged in order give
    it, built from objects added on the way, or else what the value it
    started from had; when it throws, some surviving match carried no
    document. *)
Lemma merge_configs_spec regions str configs :
  ∀ v w r w',
    merge_configs regions str configs v w = (r, w') →
    allocated (heap w) v →
    heap w ⊆ heap w' ∧ same_outside_heap w w'
    ∧ match r with
      | Return v' =>
          allocated (heap w') v'
          ∧ Forall (λ c, is_Some (payload str c)) (surviving regions configs)
          ∧ ∀ k, match resolve_key k (merged_docs regions str configs) with
                 | Some x => ∃ vk, own_props (heap w') v' !! k = Some vk
                                   ∧ denotes (heap w' ∖ heap w) vk x
                 | None => own_props (heap w') v' !! k = own_props (heap w) v !! k
                 end
      | Throw e =>
          e = Error "Could not parse option 'undefined'"
          ∧ Exists (λ c, payload str c = None) (surviving regions configs)
      end.
Proof.
  induction configs as [|c rest IH]; intros v w r w'; simpl.
  - intros [= <- <-] Hv. repeat split; try done.
  - destruct (existsb (in_region (index c)) regions) eqn:Hin.
    + unfold merged_docs. rewrite surviving_skip by done. apply IH.
    + unfold merged_docs. rewrite surviving_keep by done. simpl.
      fold (payload str c). destruct (payload str c) as [doc|] eqn:Hdoc.
      * intros Hrun Hv.
        destruct (alloc_json_spec doc w) as (parsed & w1 & Ep & S1 & O1 & Dp).
        erewrite bind_return in Hrun by exact Ep.
        destruct (spread_spec [v; parsed] w1) as (a & Es & Hfresh).
        erewrite bind_return in Hrun by exact Es.
        set (ps := foldl (λ acc v0, own_props (heap w1) v0 ∪ acc) ∅ [v; parsed]) in *.
        set (w2 := with_heap (insert a (Object PlainObject ps)) w1) in *.
        assert (S2 : heap w1 ⊆ heap w2) by (by apply insert_subseteq).
        assert (Ha : heap w2 !! a = Some (Object PlainObject ps))
          by apply lookup_insert_eq.
        destruct (IH _ _ _ _ Hrun) as (S3 & O3 & Hr); [by eexists|].
        split; [etrans; [exact S1|]; etrans; [exact S2|exact S3]|].
        split.
        { eapply same_outside_heap_trans; [exact O1|].
          eapply same_outside_heap_trans; [|exact O3]. done. }
        destruct r as [v'|e].
        -- destruct Hr as (Hv' & Hall & Hkeys). split; [done|].
           split; [constructor; [by eexists | done]|].
           intros k. rewrite resolve_key_cons. specialize (Hkeys k).
           unfold merged_docs in Hkeys.
           destruct (resolve_key k _) as [x|].
           { destruct Hkeys as (vk & Hvk & Hden). exists vk. split; [done|].
             eapply denotes_mono; [|exact Hden]. apply difference_mono; [done|].
             by etrans. }
           rewrite Hkeys.
           assert (Hown : own_props (heap w2) (VRef a)
                          = own_props (heap w1) parsed ∪ own_props (heap w1) v).
           { unfold own_props at 1. rewrite Ha. subst ps. simpl.
             by rewrite (right_id_L ∅ (∪)). }
           rewrite Hown.
           pose proof (denotes_own_props _ _ _ Dp k) as Hk.
           rewrite <- (own_props_mono (heap w1 ∖ heap w) (heap w1)) in Hk;
             [|apply difference_subseteq|by eapply denotes_allocated].
           destruct (doc_sets doc k) as [x|].
           ++ destruct Hk as (vk & Hvk & Hden). exists vk.
              split; [by apply lookup_union_Some_l|].
              eapply denotes_mono; [|done]. apply difference_mono; [|done]. by etrans.
           ++ rewrite lookup_union_r by done.
              by rewrite (own_props_mono _ _ _ S1 Hv).
        -- destruct Hr as (-> & Hex). split; [done|]. by apply Exists_cons_tl.
      * unfold throw. intros [= <- <-] Hv.
        split; [done|]. split; [done|]. split; [done|]. by apply Exists_cons_hd.
Qed.

Lemma field_initialisers_names p a c s l :
  (field_initialisers p a c s l).*1 = field_names.
Proof. reflexivity. Qed.

Lemma field_initialisers_lookup p a c s l (k : string) :
  is_Some ((list_to_map (field_initialisers p a c s l) : gmap string value) !! k)
  ↔ k ∈ field_names.
Proof.
  rewrite <- elem_of_dom, dom_list_to_map_L, elem_of_list_to_set.
  by rewrite field_initialisers_names.
Qed.

Lemma not_a_field (dm : gmap string value) :
  (∀ k, is_Some (dm !! k) ↔ k ∈ field_names) → dm !! "__proto__" = None.
Proof.
  intros Hdm. apply eq_None_not_Some. rewrite Hdm.
  apply (bool_decide_unpack _). vm_compute. exact I.
Qed.

Lemma assigned_props_lookup (h : gmap addr object) (x : value) (k : string) :
  k ≠ "__proto__" → assigned_props h x !! k = own_props h x !! k.
Proof. intros Hk. unfold assigned_props. by rewrite lookup_delete_ne. Qed.

Lemma assigned_props_proto (h : gmap addr object) (x : value) :
  assigned_props h x !! "__proto__" = None.
Proof. unfold assigned_props. apply lookup_delete_eq. Qed.

Lemma assigned_props_mono (h h' : gmap addr object) (v : value) :
  h ⊆ h' → allocated h v → assigned_props h' v = assigned_props h v.
Proof. intros Hs Hv. unfold assigned_props. by rewrite (own_props_mono h h'). Qed.

(** The constructor: a fresh instance whose properties are those the loop
    assigns from its argument over the field initialisers; in debug mode the object held as
    [logger] has its level set, and the call throws when there is none. *)
Lemma new_ScafflaterOptions_spec (options : value) (w : world) r w' :
  new_ScafflaterOptions options w = (r, w') →
  allocated (heap w) options →
  ∃ this h ps dm,
    heap w ⊆ h ∧ heap w !! this = None
    ∧ h !! this = Some (Object OptionsInstance ps)
    ∧ ps = assigned_props (heap w) options ∪ dm
    ∧ (∀ k, is_Some (dm !! k) ↔ k ∈ field_names)
    ∧ same_outside_heap w w'
    ∧ (if debug_mode ps then
         match ps !! "logger" with
         | Some (VRef l) =>
             match h !! l with
             | Some o =>
                 r = Return this
                 ∧ heap w' = <[l := Object (kind_of o)
                                      (<["level" := VStr "debug"]> (props o))]> h
             | None => r = Throw TypeError ∧ heap w' = h
             end
         | _ => r = Throw TypeError ∧ heap w' = h
         end
       else r = Return this ∧ heap w' = h).
Proof.
  intros Hrun Hopt. unfold new_ScafflaterOptions in Hrun.
  destruct (alloc_json_spec default_processors w) as (p & w1 & E1 & S1 & O1 & _).
  erewrite bind_return in Hrun by exact E1.
  destruct (alloc_json_spec default_appenders w1) as (a & w2 & E2 & S2 & O2 & _).
  erewrite bind_return in Hrun by exact E2.
  destruct (alloc_json_spec default_cacheStorages w2) as (c & w3 & E3 & S3 & O3 & _).
  erewrite bind_return in Hrun by exact E3.
  destruct (alloc_json_spec default_sources w3) as (s & w4 & E4 & S4 & O4 & _).
  erewrite bind_return in Hrun by exact E4.
  set (dm := list_to_map (field_initialisers p a c s winston_logger)
             : gmap string value) in *.
  destruct (alloc_spec (Object OptionsInstance dm) w4) as (this & E5 & Hfresh).
  erewrite bind_return in Hrun by exact E5.
  assert (S04 : heap w ⊆ heap w4) by (etrans; [exact S1|]; etrans; [exact S2|];
                                       etrans; [exact S3|exact S4]).
  assert (O04 : same_outside_heap w w4).
  { eapply same_outside_heap_trans; [exact O1|].
    eapply same_outside_heap_trans; [exact O2|].
    eapply same_outside_heap_trans; [exact O3|exact O4]. }
  set (w5 := with_heap (insert this (Object OptionsInstance dm)) w4) in *.
  assert (S45 : heap w4 ⊆ heap w5) by (by apply insert_subseteq).
  set (ps := assigned_props (heap w) options ∪ dm).
  set (h := <[this := Object OptionsInstance ps]> (heap w4)).
  unfold modify_state in Hrun. unfold mbind at 1, M_bind in Hrun.
  assert (Hh : heap (with_heap
              (alter (λ o, Object (kind_of o) (assigned_props (heap w5) options ∪ props o))
                     this) w5) = h).
  { simpl. rewrite alter_insert_eq. simpl. subst h ps.
    rewrite (assigned_props_mono (heap w) (<[this:=_]> (heap w4)) options); [done| |done].
    etrans; [exact S04|exact S45]. }
  set (w6 := with_heap _ w5) in *.
  assert (Hthis : heap w6 !! this = Some (Object OptionsInstance ps)).
  { rewrite Hh. apply lookup_insert_eq. }
  exists this, h, ps, dm.
  split. { subst h. etrans; [exact S04|]. by apply insert_subseteq. }
  split. { by eapply lookup_weaken_None. }
  split. { subst h. apply lookup_insert_eq. }
  split; [done|].
  split. { intros k. apply field_initialisers_lookup. }
  assert (O06 : same_outside_heap w w6) by (by eapply same_outside_heap_trans).
  clearbody w6. clear w5 S45 E5.
  unfold mbind at 1, M_bind, get in Hrun. rewrite Hthis in Hrun.
  cbn [props] in Hrun. fold (debug_mode ps) in Hrun.
  destruct (debug_mode ps).
  - unfold mbind at 1 2, M_bind, get in Hrun. rewrite Hthis in Hrun.
    cbn [props default] in Hrun. unfold set in Hrun.
    destruct (ps !! "logger") as [[| | | | |l]|]; cbn [default from_option id] in Hrun;
      try (injection Hrun as <- <-; by rewrite <- Hh).
    rewrite <- Hh.
    destruct (heap w6 !! l) as [o|] eqn:Hl;
      injection Hrun as <- <-; done.
  - unfold mbind, M_bind, mret, M_ret in Hrun. injection Hrun as <- <-.
    by rewrite <- Hh.
Qed.

(** The constructor on such a value, when it returns. *)
Lemma construct_merged (w w1 : world) (tprops : gmap string value)
    (look : string → option json) (v : value) (r : addr) (w' : world) :
  heap w ⊆ heap w1 → allocated (heap w1) v →
  merged_over w w1 tprops look v →
  new_ScafflaterOptions v w1 = (Return r, w') →
  ∃ h ps dm,
    heap w ⊆ h ∧ heap w !! r = None
    ∧ h !! r = Some (Object OptionsInstance ps)
    ∧ settled ps h (heap w') ∧ same_outside_heap w1 w'
    ∧ (∀ k, is_Some (dm !! k) ↔ k ∈ field_names)
    ∧ ps !! "__proto__" = None
    ∧ ∀ k, k ≠ "__proto__" →
           match look k with
           | Some x => ∃ vk, ps !! k = Some vk ∧ denotes (h ∖ heap w) vk x
           | None => ps !! k = (tprops ∪ dm) !! k
           end.
Proof.
  intros S1 Hv Hkeys Hnew.
  apply new_ScafflaterOptions_spec in Hnew
    as (this' & h & ps & dm & S2 & Hfresh & Hh & -> & Hdm & O2 & Hmode); [|done].
  assert (Hr : r = this' ∧ settled (assigned_props (heap w1) v ∪ dm) h (heap w')).
  { unfold settled. destruct (debug_mode _).
    - destruct (_ !! "logger") as [[| | | | |l]|]; try (by destruct Hmode).
      destruct (h !! l) as [o|] eqn:Hl; destruct Hmode as [[=] ->]. subst.
      split; [done|]. by exists l, o.
    - by destruct Hmode as [[= ->] ->]. }
  destruct Hr as [-> Hsettled].
  exists h, (assigned_props (heap w1) v ∪ dm), dm.
  split; [by etrans|]. split; [by eapply lookup_weaken_None|].
  split; [done|]. split; [done|]. split; [done|]. split; [done|].
  split. { rewrite lookup_union_r by apply assigned_props_proto. by apply not_a_field. }
  intros k Hk. specialize (Hkeys k).
  destruct (look k) as [x|].
  - destruct Hkeys as (vk & Hvk & Hden). exists vk.
    split; [apply lookup_union_Some_l; by rewrite assigned_props_lookup|].
    eapply denotes_mono; [|exact Hden]. by apply difference_mono.
  - by rewrite !lookup_union, assigned_props_lookup, Hkeys.
Qed.

(** The constructor on such a value, whatever it does: the receiver is as
    it was, and an instance returned is a new object. *)
Lemma construct_frame (w w1 : world) (this : addr) (tprops : gmap string value)
    (look : string → option json) (v : value) r (w' : world) :
  heap w ⊆ heap w1 → allocated (heap w1) v →
  receiver w this tprops → sound_logger w this tprops →
  merged_over w w1 tprops look v →
  new_ScafflaterOptions v w1 = (r, w') →
  heap w' !! this = heap w !! this
  ∧ match r with
    | Return a => heap w !! a = None
                  ∧ ∃ ps, heap w' !! a = Some (Object OptionsInstance ps)
    | Throw _ => True
    end.
Proof.
  intros S1 Hv [kd Hthis] (lg & Hlg & Hlga & Hlgn) Hkeys Hnew.
  apply new_ScafflaterOptions_spec in Hnew
    as (this' & h & ps & dm & S2 & Hfresh & Hh & -> & Hdm & O2 & Hmode); [|done].
  assert (Hthis1 : heap w1 !! this = Some (Object kd tprops)) by by eapply lookup_weaken.
  assert (Hthish : h !! this = heap w !! this).
  { rewrite Hthis. by eapply lookup_weaken. }
  assert (Hlogger : ∀ l, (assigned_props (heap w1) v ∪ dm) !! "logger" = Some (VRef l) →
                         l ≠ this ∧ l ≠ this').
  { intros l Hl. specialize (Hkeys "logger").
    rewrite lookup_union, assigned_props_lookup, <- lookup_union in Hl by done.
    destruct (look "logger") as [x|].
    - destruct Hkeys as (vk & Hvk & Hden).
      rewrite (lookup_union_Some_l _ _ _ _ Hvk) in Hl. injection Hl as ->.
      apply denotes_allocated in Hden as [o Ho].
      apply lookup_difference_Some in Ho as [Ho Hn]. split; congruence.
    - rewrite lookup_union, Hkeys, Hlg in Hl. simpl in Hl.
      assert (Hlgl : lg = VRef l) by (by destruct (dm !! "logger"); injection Hl).
      subst lg. destruct Hlga as [o Ho]. split; [congruence|].
      intros Heq. subst l. by rewrite (lookup_weaken _ _ _ _ Ho S1) in Hfresh. }
  destruct (debug_mode _).
  - destruct ((assigned_props (heap w1) v ∪ dm) !! "logger") as [[| | | | |l]|] eqn:Hl;
      try (destruct Hmode as [-> ->]; by split).
    destruct (Hlogger l eq_refl) as [Hn1 Hn2].
    destruct (h !! l) as [o|]; destruct Hmode as [-> ->]; [|by split].
    rewrite !lookup_insert_ne by done. split; [done|].
    split; [by eapply lookup_weaken_None|]. eauto.
  - destruct Hmode as [-> ->]. split; [done|].
    split; [by eapply lookup_weaken_None|]. eauto.
Qed.

Lemma get_ref_spec (a : addr) (k : string) (w : world) :
  get (VRef a) k w
  = (Return (default VUndefined (own_props (heap w) (VRef a) !! k)), w).
Proof. unfold get, own_props. by destruct (heap w !! a). Qed.

Lemma new_RegExp_pure source tree marker (w : world) :
  ∃ r, new_RegExp source tree marker w = (r, w).
Proof.
  unfold new_RegExp. destruct (plain_marker _); [eauto|].
  destruct (RegExp_parse _); eauto.
Qed.

(** [getConfigFromString] is its set-up, which changes nothing, followed by
    the loop and the constructor. *)
Lemma getConfigFromString_unfold (this : addr) (str : string) (w : world) :
  getConfigFromString this str w
  = match directives_of w this str with
    | Return (configs, regions) =>
        (newConfig ← merge_configs regions str configs (VRef this);
         new_ScafflaterOptions newConfig) w
    | Throw e => (Throw e, w)
    end.
Proof.
  unfold getConfigFromString, directives_of, mbind, M_bind, read_heap, mret, M_ret.
  rewrite get_ref_spec. set (marker := default VUndefined _).
  destruct (new_RegExp_pure config_source config_regex marker w) as [[re|e] ->];
    [|done].
  by destruct (getRegions (heap w) (VRef this) str).
Qed.

(** The value the loop hands to the constructor. *)
Lemma merge_configs_merged_over regions str configs this tprops w v w1 :
  receiver w this tprops →
  merge_configs regions str configs (VRef this) w = (Return v, w1) →
  heap w ⊆ heap w1 ∧ same_outside_heap w w1 ∧ allocated (heap w1) v
  ∧ Forall (λ c, is_Some (payload str c)) (surviving regions configs)
  ∧ merged_over w w1 tprops (λ k, resolve_key k (merged_docs regions str configs)) v.
Proof.
  intros [kd Hthis] Hmerge.
  apply merge_configs_spec in Hmerge as (S1 & O1 & Hv & Hall & Hkeys); [|by eexists].
  do 4 (split; [done|]). intros k. specialize (Hkeys k).
  destruct (resolve_key k _); [done|].
  rewrite Hkeys. unfold own_props. by rewrite Hthis.
Qed.

(** What a returning [getConfigFromString] has built. *)
Lemma resolution_spec (this : addr) (str : string) (w : world)
    (configs : list match_result) (regions : list Region)
    (tprops : gmap string value) (r : addr) (w' : world) :
  receiver w this tprops →
  directives_of w this str = Return (configs, regions) →
  getConfigFromString this str w = (Return r, w') →
  ∃ h ps dm,
    heap w ⊆ h ∧ heap w !! r = None
    ∧ h !! r = Some (Object OptionsInstance ps)
    ∧ settled ps h (heap w') ∧ same_outside_heap w w'
    ∧ (∀ k, is_Some (dm !! k) ↔ k ∈ field_names)
    ∧ Forall (λ c, is_Some (payload str c)) (surviving regions configs)
    ∧ ps !! "__proto__" = None
    ∧ ∀ k, k ≠ "__proto__" →
           match resolve_key k (merged_docs regions str configs) with
           | Some x => ∃ vk, ps !! k = Some vk ∧ denotes (h ∖ heap w) vk x
           | None => ps !! k = (tprops ∪ dm) !! k
           end.
Proof.
  intros Hrec Hdir Hrun. rewrite getConfigFromString_unfold, Hdir in Hrun.
  apply bind_inv in Hrun as (newConfig & w1 & Hmerge & Hnew).
  eapply merge_configs_merged_over in Hmerge as (S1 & O1 & Hv & Hall & Hkeys); [|done].
  destruct (construct_merged _ _ _ _ _ _ _ S1 Hv Hkeys Hnew)
    as (h & ps & dm & S & Hfresh & Hr & Hset & O2 & Hdm & Hproto & Hps).
  exists h, ps, dm. do 4 (split; [done|]).
  split; [by eapply same_outside_heap_trans|]. done.
Qed.

End WithHost.
End ResolutionFacts.

(** ** Folder-level options, step by step *)

Module FolderFacts.
Import Json JS RegExp FsUtil ScafflaterOptions OptionsSpec HeapFacts ResolutionFacts.

Section WithHost.
Context `{Host}.

Lemma get_keeps_world (x : value) (k : string) (w : world) r w' :
  get x k w = (r, w') → w' = w.
Proof.
  unfold get. destruct x; try (by intros [= _ <-]).
  destruct (heap w !! a); by intros [= _ <-].
Qed.

Lemma call_debug_spec (logger : value) (e : log_entry) (w : world) r w' :
  call_debug logger e w = (r, w') → heap w' = heap w ∧ files w' = files w.
Proof.
  unfold call_debug. destruct logger; try (by intros [= _ <-]).
  destruct (heap w !! a) as [[[] ps]|]; by intros [= _ <-].
Qed.

(** The debug-level log call changes neither heap nor files. *)
Lemma log_step_spec (b : bool) (context : value) (e : log_entry) (w : world) r w' :
  (if b then
     ctx_options ← get context "options";
     logger ← get ctx_options "logger";
     call_debug logger e
   else mret tt) w = (r, w') →
  heap w' = heap w ∧ files w' = files w.
Proof.
  destruct b; [|by intros [= _ <-]]. intros Hrun.
  apply bind_cases in Hrun as [(e1 & Hg & ->) | (v1 & w1 & Hg & Hrun)];
    apply get_keeps_world in Hg as ->; [done|].
  apply bind_cases in Hrun as [(e1 & Hg & ->) | (v2 & w2 & Hg & Hrun)];
    apply get_keeps_world in Hg as ->; [done|].
  by apply call_debug_spec in Hrun.
Qed.

Lemma bind_mret {W A B} (a : A) (f : A → M W B) (w : W) :
  (mret a ≫= f) w = f a w.
Proof. reflexivity. Qed.

Lemma pathExists_spec (path : string) (w : world) :
  pathExists path w = (Return (bool_decide (is_Some (files w !! path))), w).
Proof. reflexivity. Qed.

Lemma denotes_truthy (h : gmap addr object) (v : value) (d : json) :
  denotes h v d → JS.truthy v = Json.truthy (Some d).
Proof.
  destruct d; simpl; try (by intros ->).
  - by intros (a & ps & -> & _).
  - by intros (a & ps & -> & _).
Qed.

Lemma merged_over_receiver (w w1 : world) (this a : addr) kd
    (tprops : gmap string value) :
  heap w !! this = Some (Object kd tprops) →
  heap w1 !! a = Some (Object PlainObject tprops) →
  merged_over w w1 tprops (λ _, None) (VRef a).
Proof. intros Hthis Ha k. simpl. by rewrite Ha. Qed.

(** [getFolderOptions] up to the constructor: either it has thrown, having
    at most added objects, or it hands the constructor a value that merges
    the folder-scoped options over the receiver. *)
Lemma getFolderOptions_phase (this : addr) (folderPath : string) (context : value)
    (w : world) (tprops : gmap string value) r (w' : world) :
  receiver w this tprops →
  getFolderOptions this folderPath context w = (r, w') →
  (∃ e, r = Throw e ∧ heap w ⊆ heap w' ∧ files w' = files w)
  ∨ ∃ v w1 folder,
      heap w ⊆ heap w1 ∧ files w1 = files w ∧ allocated (heap w1) v
      ∧ folder_doc w tprops folderPath = Return folder
      ∧ merged_over w w1 tprops (λ k, folder ≫= (λ d, doc_sets d k)) v
      ∧ new_ScafflaterOptions v w1 = (r, w').
Proof.
  intros [kd Hthis] Hrun. unfold getFolderOptions in Hrun.
  destruct (spread_spec [VRef this] w) as (a0 & Es & Hfresh0).
  erewrite bind_return in Hrun by exact Es.
  set (w0 := with_heap _ w) in *.
  assert (S0 : heap w ⊆ heap w0) by (by apply insert_subseteq).
  assert (Hthis0 : heap w0 !! this = Some (Object kd tprops)) by by eapply lookup_weaken.
  assert (Ha0 : heap w0 !! a0 = Some (Object PlainObject tprops)).
  { unfold w0. simpl. rewrite lookup_insert_eq. unfold own_props. rewrite Hthis.
    by rewrite (right_id_L ∅ (∪)). }
  assert (F0 : files w0 = files w) by done.
  clearbody w0. clear Es.
  rewrite (bind_return _ _ _ _ _ (get_ref_spec this "scfFileName" w0)) in Hrun.
  unfold own_props in Hrun. rewrite Hthis0 in Hrun. cbn [props] in Hrun.
  unfold folder_doc.
  destruct (default VUndefined (tprops !! "scfFileName")) as [| | | |f|];
    try (injection Hrun as <- <-; left; eexists; by repeat split).
  unfold join in Hrun. rewrite bind_mret in Hrun.
  rewrite (bind_return _ _ _ _ _ (pathExists_spec _ w0)) in Hrun. rewrite F0 in Hrun.
  destruct (files w !! path_join folderPath f) as [text|] eqn:Hfile.
  2:{ rewrite bool_decide_eq_false_2 in Hrun by (by intros [? ?]).
      rewrite bind_mret in Hrun.
      right. exists (VRef a0), w0, None.
      split; [done|]. split; [done|]. split; [by eexists|]. split; [done|].
      split; [|done]. by eapply merged_over_receiver. }
  rewrite bool_decide_eq_true_2 in Hrun by (by eexists).
  rewrite bind_assoc in Hrun. unfold readJSON in Hrun. rewrite bind_assoc in Hrun.
  assert (Eread : readFileContent (path_join folderPath f) w0 = (Return text, w0)).
  { unfold readFileContent. by rewrite F0, Hfile. }
  rewrite (bind_return _ _ _ _ _ Eread) in Hrun.
  destruct (readJSON_parse text) as [doc|].
  2:{ rewrite (bind_throw _ _ w0 SyntaxError w0) in Hrun by done.
      injection Hrun as <- <-. left. eexists. by repeat split. }
  destruct (alloc_json_spec doc w0) as (info & w2 & Ei & S2 & O2 & Di).
  erewrite bind_return in Hrun by exact Ei.
  assert (F2 : files w2 = files w) by (destruct O2 as (-> & _); done).
  assert (S02 : heap w ⊆ heap w2) by by etrans.
  assert (Ha2 : heap w2 !! a0 = Some (Object PlainObject tprops)) by by eapply lookup_weaken.
  rewrite bind_assoc in Hrun.
  assert (Hfalsy : new_ScafflaterOptions (VRef a0) w2 = (r, w') →
            ∃ v w1 folder,
              heap w ⊆ heap w1 ∧ files w1 = files w ∧ allocated (heap w1) v
              ∧ Return (@None json) = Return folder
              ∧ merged_over w w1 tprops (λ k, folder ≫= (λ d, doc_sets d k)) v
              ∧ new_ScafflaterOptions v w1 = (r, w')).
  { intros Hnew. exists (VRef a0), w2, None.
    split; [done|]. split; [done|]. split; [by eexists|]. split; [done|].
    split; [|done]. by eapply merged_over_receiver. }
  assert (Hprim : get info "options" w2 = (Return VUndefined, w2) →
            manifest_options doc = Return None →
            ∃ v w1 folder,
              heap w ⊆ heap w1 ∧ files w1 = files w ∧ allocated (heap w1) v
              ∧ match manifest_options doc with
                | Return (Some d) =>
                    Return (if Json.truthy (Some d) then Some d else None)
                | other => other
                end = Return folder
              ∧ merged_over w w1 tprops (λ k, folder ≫= (λ d, doc_sets d k)) v
              ∧ new_ScafflaterOptions v w1 = (r, w')).
  { intros Eg Eo. rewrite (bind_return _ _ _ _ _ Eg) in Hrun.
    cbn [truthy] in Hrun. rewrite bind_mret in Hrun. rewrite Eo. by apply Hfalsy. }
  assert (Hobj : ∀ a, info = VRef a →
            manifest_options doc = Return (doc_sets doc "options") →
            (∃ e, r = Throw e ∧ heap w ⊆ heap w' ∧ files w' = files w)
            ∨ ∃ v w1 folder,
                heap w ⊆ heap w1 ∧ files w1 = files w ∧ allocated (heap w1) v
                ∧ match manifest_options doc with
                  | Return (Some d) =>
                      Return (if Json.truthy (Some d) then Some d else None)
                  | other => other
                  end = Return folder
                ∧ merged_over w w1 tprops (λ k, folder ≫= (λ d, doc_sets d k)) v
                ∧ new_ScafflaterOptions v w1 = (r, w')).
  { intros a -> Eo. rewrite Eo.
    rewrite (bind_return _ _ _ _ _ (get_ref_spec a "options" w2)) in Hrun.
    pose proof (denotes_own_props _ _ _ Di "options") as Ho.
    rewrite <- (own_props_mono (heap w2 ∖ heap w0) (heap w2)) in Ho;
      [|apply difference_subseteq|by eapply denotes_allocated].
    destruct (doc_sets doc "options") as [d|].
    2:{ rewrite Ho in Hrun. cbn [default from_option truthy] in Hrun.
        rewrite bind_mret in Hrun. right. by apply Hfalsy. }
    destruct Ho as (vo & Hvo & Dvo). rewrite Hvo in Hrun.
    cbn [default from_option id] in Hrun.
    rewrite (denotes_truthy _ _ _ Dvo) in Hrun.
    destruct (Json.truthy (Some d)).
    2:{ rewrite bind_mret in Hrun. right. by apply Hfalsy. }
    rewrite bind_assoc in Hrun.
    rewrite (bind_return _ _ w2 w2 w2) in Hrun by done.
    rewrite bind_assoc in Hrun.
    apply bind_cases in Hrun as [(e & Hlog & ->) | ([] & w3 & Hlog & Hrun)];
      apply log_step_spec in Hlog as [Hh3 F3].
    { left. exists e. rewrite Hh3, F3. by repeat split. }
    destruct (spread_spec [VRef a0; vo] w3) as (a1 & Es & Hfresh1).
    erewrite bind_return in Hrun by exact Es.
    rewrite Hh3 in Hfresh1.
    set (ps1 := foldl _ ∅ [VRef a0; vo]) in *.
    assert (Hps1 : ps1 = own_props (heap w2) vo ∪ tprops).
    { subst ps1. simpl. rewrite Hh3, Ha2. by rewrite (right_id_L ∅ (∪)). }
    set (w4 := with_heap _ w3) in *.
    assert (Hh4 : heap w4 = <[a1 := Object PlainObject ps1]> (heap w2)).
    { subst w4. simpl. by rewrite Hh3. }
    assert (F4 : files w4 = files w) by (subst w4; simpl; congruence).
    clearbody w4 ps1. subst ps1.
    assert (S24 : heap w2 ⊆ heap w4) by (rewrite Hh4; by apply insert_subseteq).
    right. exists (VRef a1), w4, (Some d).
    split; [by etrans|]. split; [done|].
    split. { simpl. rewrite Hh4, lookup_insert_eq. by eexists. }
    split; [done|]. split; [|exact Hrun].
    intros k. cbn [mbind option_bind]. unfold own_props at 1 2.
    rewrite Hh4, lookup_insert_eq. cbn [props].
    pose proof (denotes_own_props _ _ _ Dvo k) as Hk.
    rewrite <- (own_props_mono (heap w2 ∖ heap w0) (heap w2)) in Hk;
      [|apply difference_subseteq|by eapply denotes_allocated].
    destruct (doc_sets d k) as [x|].
    - destruct Hk as (vk & Hvk & Hden). exists vk.
      split; [by apply lookup_union_Some_l|].
      eapply denotes_mono; [|exact Hden].
      apply difference_mono; [|done]. by rewrite <- Hh4.
    - by rewrite lookup_union_r. }
  destruct doc as [|b|n|s|items|ms]; simpl in Di.
  - subst info. rewrite (bind_throw _ _ w2 TypeError w2) in Hrun by done.
    injection Hrun as <- <-. left. eexists. by repeat split.
  - subst info. right. by apply Hprim.
  - subst info. right. by apply Hprim.
  - subst info. right. by apply Hprim.
  - destruct Di as (a & ps & -> & _). by eapply Hobj.
  - destruct Di as (a & ps & -> & _). by eapply Hobj.
Qed.


End WithHost.
End FolderFacts.

(** ** Replacing every match by nothing

    [str.replace(re, "")] with a global pattern keeps exactly the code
    units that no match covers. *)

Module StripFacts.
Import RegExp OptionsSpec RegExpFacts.

(** The matcher only moves forward: a match is found by calling the
    continuation at an index no smaller than the one it started from. *)
Lemma run_advances (ic : bool) (r : regex) :
  ∀ k s pos cs res,
    run ic r k s pos cs = Some res →
    ∃ s' p' cs', pos ≤ p' ∧ k s' p' cs' = Some res.
Proof.
  induction r as [|c| |neg atoms|r1 IH1 r2 IH2|r1 IH1 r2 IH2|g r1 IH1|g r1 IH1|i r1 IH1];
    intros k s pos cs res; simpl.
  - eauto.
  - destruct s as [|ch s']; [done|]. destruct (Chars.same_char ic c ch); [|done].
    intros Hk. exists s', (S pos), cs. split; [lia|done].
  - destruct s as [|ch s']; [done|]. destruct (Chars.is_line_terminator ch); [done|].
    intros Hk. exists s', (S pos), cs. split; [lia|done].
  - destruct s as [|ch s']; [done|]. destruct (class_matches ic neg atoms ch); [|done].
    intros Hk. exists s', (S pos), cs. split; [lia|done].
  - intros Hrun. apply IH1 in Hrun as (s1 & p1 & c1 & Hp1 & Hrun).
    apply IH2 in Hrun as (s2 & p2 & c2 & Hp2 & Hrun).
    exists s2, p2, c2. split; [lia|done].
  - destruct (run ic r1 k s pos cs) eqn:E1; simpl.
    + intros [= <-]. by apply IH1 in E1.
    + apply IH2.
  - assert (Hloop : ∀ fuel s pos cs res,
      (fix loop (fuel : nat) (s : string) (pos : nat) (cs : captures)
         : option (nat * captures) :=
         let again :=
           match fuel with
           | O => None
           | S fuel' =>
               run ic r1
                 (fun s' p' c' => if Nat.eqb p' pos then None else loop fuel' s' p' c')
                 s pos (clear_captures (group_ids r1) cs)
           end in
         if g then first_of again (k s pos cs)
         else first_of (k s pos cs) again) fuel s pos cs = Some res →
      ∃ s' p' cs', pos ≤ p' ∧ k s' p' cs' = Some res).
    { clear s pos cs res. induction fuel as [|fuel IHf]; intros s pos cs res.
      - destruct g; simpl; [eauto|]. destruct (k s pos cs) eqn:Ek; simpl; [|done].
        intros [= <-]. eauto.
      - assert (Hagain : ∀ res',
          run ic r1
            (fun s' p' c' => if Nat.eqb p' pos then None
                             else (fix loop (fuel : nat) (s : string) (pos : nat)
                                       (cs : captures) : option (nat * captures) :=
                                     let again :=
                                       match fuel with
                                       | O => None
                                       | S fuel' =>
                                           run ic r1
                                             (fun s' p' c' =>
                                                if Nat.eqb p' pos then None
                                                else loop fuel' s' p' c')
                                             s pos (clear_captures (group_ids r1) cs)
                                       end in
                                     if g then first_of again (k s pos cs)
                                     else first_of (k s pos cs) again) fuel s' p' c')
            s pos (clear_captures (group_ids r1) cs) = Some res' →
          ∃ s' p' cs', pos ≤ p' ∧ k s' p' cs' = Some res').
        { intros res' Hrun. apply IH1 in Hrun as (s1 & p1 & c1 & Hp1 & Hrun).
          destruct (Nat.eqb p1 pos); [done|].
          apply IHf in Hrun as (s2 & p2 & c2 & Hp2 & Hrun).
          exists s2, p2, c2. split; [lia|done]. }
        destruct g; cbn beta iota zeta.
        + destruct (run ic r1 _ s pos _) eqn:E; simpl.
          * intros [= <-]. by apply Hagain.
          * eauto.
        + destruct (k s pos cs) eqn:Ek; simpl.
          * intros [= <-]. eauto.
          * apply Hagain. }
    exact (Hloop (S (String.length s)) s pos cs res).
  - assert (Honce : ∀ res',
      run ic r1 (fun s' p' c' => if Nat.eqb p' pos then None else k s' p' c')
          s pos (clear_captures (group_ids r1) cs) = Some res' →
      ∃ s' p' cs', pos ≤ p' ∧ k s' p' cs' = Some res').
    { intros res' Hrun. apply IH1 in Hrun as (s1 & p1 & c1 & Hp1 & Hrun).
      destruct (Nat.eqb p1 pos); [done|]. eauto. }
    destruct g.
    + destruct (run ic r1 _ s pos _) eqn:E; simpl.
      * intros [= <-]. by apply Honce.
      * eauto.
    + destruct (k s pos cs) eqn:Ek; simpl.
      * intros [= <-]. eauto.
      * apply Honce.
  - intros Hrun. apply IH1 in Hrun as (s1 & p1 & c1 & Hp1 & Hrun). eauto.
Qed.

Lemma match_here_advances (ic : bool) (r : regex) (s : string) (pos e : nat) cs :
  match_here ic r s pos = Some (e, cs) → pos ≤ e.
Proof.
  intros Hm. apply run_advances in Hm as (s' & p' & cs' & Hp & [= -> _]). done.
Qed.

Lemma substring_zero (n : nat) (s : string) : String.substring n 0 s = EmptyString.
Proof.
  revert n. induction s as [|c s IH]; intros [|n]; simpl; auto.
Qed.

Lemma slice_empty (s : string) (from to : nat) : to ≤ from → slice s from to = EmptyString.
Proof. intros Hle. unfold slice. replace (to - from) with 0 by lia. apply substring_zero. Qed.

Lemma length_append (a b : string) :
  String.length (a +:+ b) = String.length a + String.length b.
Proof. induction a as [|c a IH]; simpl; [done|]. f_equal. apply IH. Qed.

Lemma append_assoc (a b c : string) : (a +:+ b) +:+ c = a +:+ (b +:+ c).
Proof.
  induction a as [|x a IH]; [done|].
  change (String x ((a +:+ b) +:+ c) = String x (a +:+ (b +:+ c))). by rewrite IH.
Qed.

(** The slice that begins at a code unit begins with it. *)
Lemma slice_cons (pre : string) (c : ascii) (s : string) (to : nat) :
  String.length pre < to →
  slice (pre +:+ String c s) (String.length pre) to
  = String c (slice (pre +:+ String c s) (S (String.length pre)) to).
Proof.
  unfold slice. revert to. induction pre as [|x pre IH]; intros to Hlt; simpl in *.
  - destruct to as [|to]; [lia|]. simpl. by rewrite Nat.sub_0_r.
  - destruct to as [|to]; [lia|]. simpl. apply IH. lia.
Qed.

Lemma covered_cons (m : match_result) (ms : list match_result) (i : nat) :
  covered (m :: ms) i = (Nat.leb (index m) i && Nat.ltb i (last m)) || covered ms i.
Proof. reflexivity. Qed.

Lemma covered_later (ms : list match_result) (i : nat) :
  Forall (λ m, i < index m) ms → covered ms i = false.
Proof.
  induction 1 as [|m ms Hm _ IH]; [done|]. rewrite covered_cons, IH.
  apply Nat.leb_gt in Hm. by rewrite Hm.
Qed.

(** A match that ends at or before [pos] erases nothing from there on. *)
Lemma erase_past (m : match_result) (ms : list match_result) (s : string) :
  ∀ pos, last m ≤ pos → erase (m :: ms) pos s = erase ms pos s.
Proof.
  induction s as [|c s IH]; intros pos Hle; cbn [erase]; [done|].
  rewrite covered_cons. replace (Nat.ltb pos (last m)) with false
    by (symmetry; apply Nat.ltb_ge; lia).
  rewrite andb_false_r. cbn [orb]. by rewrite !IH by lia.
Qed.

(** From inside a match on, erasing skips to the end of the match. *)
Lemma erase_inside (m : match_result) (ms : list match_result) (s : string) :
  ∀ pos n, index m ≤ pos → pos + n = last m →
    erase (m :: ms) pos s = erase ms (last m) (skip_string n s).
Proof.
  induction s as [|c s IH]; intros pos n Hge Hlast.
  - by destruct n.
  - destruct n as [|n].
    + simpl skip_string. replace (last m) with pos by lia. apply erase_past. lia.
    + cbn [erase skip_string]. rewrite covered_cons.
      replace (Nat.leb (index m) pos) with true by (symmetry; apply Nat.leb_le; lia).
      replace (Nat.ltb pos (last m)) with true by (symmetry; apply Nat.ltb_lt; lia).
      cbn [andb orb]. apply IH; lia.
Qed.

(** Before the matches begin, splicing copies the code unit at hand. *)
Lemma splice_cons (pre : string) (c : ascii) (s : string) (ms : list match_result) :
  Forall (λ m, String.length pre < index m) ms →
  splice (pre +:+ String c s) (String.length pre) ms
  = String c (splice (pre +:+ String c s) (S (String.length pre)) ms).
Proof.
  intros Hms. destruct ms as [|m ms]; cbn [splice].
  - apply slice_cons. rewrite length_append. simpl. lia.
  - apply Forall_cons in Hms as [Hm _].
    replace (Nat.leb (String.length pre) (index m)) with true
      by (symmetry; apply Nat.leb_le; lia).
    replace (Nat.leb (S (String.length pre)) (index m)) with true
      by (symmetry; apply Nat.leb_le; lia).
    by rewrite slice_cons.
Qed.

(** Replacing every match by nothing erases the offsets the matches cover. *)
Lemma splice_scan (ic : bool) (r : regex) (s : string) :
  ∀ pre skip,
    splice (pre +:+ s) (String.length pre + skip) (scan ic r s (String.length pre) skip)
    = erase (scan ic r s (String.length pre) skip) (String.length pre + skip)
            (skip_string skip s).
Proof.
  induction s as [|c s IH]; intros pre skip.
  - destruct skip as [|skip]; simpl.
    + destruct (match_here ic r EmptyString (String.length pre)) as [[e cs]|] eqn:Hm;
        simpl.
      * apply match_here_advances in Hm.
        rewrite Nat.add_0_r, Nat.leb_refl, !slice_empty; [done| |lia].
        rewrite length_append. simpl. lia.
      * apply slice_empty. rewrite length_append. simpl. lia.
    + apply slice_empty. rewrite length_append. simpl. lia.
  - assert (Hpre : pre +:+ String c s = (pre +:+ String c EmptyString) +:+ s)
      by (by rewrite append_assoc).
    assert (Hlen : String.length (pre +:+ String c EmptyString) = S (String.length pre))
      by (rewrite length_append; simpl; lia).
    destruct skip as [|skip].
    + rewrite Nat.add_0_r. simpl scan. simpl skip_string.
      destruct (match_here ic r (String c s) (String.length pre)) as [[e cs]|] eqn:Hm.
      * apply match_here_advances in Hm.
        specialize (IH (pre +:+ String c EmptyString) (Nat.pred (e - String.length pre))).
        rewrite Hlen, <- Hpre in IH.
        destruct (scan_sorted ic r s (S (String.length pre))
                    (Nat.pred (e - String.length pre))) as [Hge _].
        set (rest := scan ic r s (S (String.length pre)) _) in *.
        simpl splice. rewrite Nat.leb_refl, slice_empty by lia.
        change (splice (pre +:+ String c s) e rest
                = erase (MatchResult (String.length pre) e cs :: rest)
                        (String.length pre) (String c s)).
        destruct (decide (e = String.length pre)) as [->|Hne].
        -- rewrite Nat.sub_diag in IH. simpl in IH. rewrite Nat.add_0_r in IH.
           rewrite splice_cons by (eapply Forall_impl; [exact Hge|]; simpl; lia).
           rewrite IH. cbn [erase]. rewrite covered_cons. cbn [index last].
           rewrite Nat.ltb_irrefl, andb_false_r. cbn [orb].
           rewrite covered_later by (eapply Forall_impl; [exact Hge|]; simpl; lia).
           by rewrite erase_past by (simpl; lia).
        -- replace (S (String.length pre) + Nat.pred (e - String.length pre)) with e
             in IH by lia.
           rewrite IH.
           rewrite (erase_inside _ _ _ _ (e - String.length pre)) by (simpl; lia).
           simpl last. destruct (e - String.length pre) as [|n] eqn:Hn; [lia|].
           done.
      * specialize (IH (pre +:+ String c EmptyString) 0).
        rewrite Hlen, <- Hpre, Nat.add_0_r in IH.
        destruct (scan_sorted ic r s (S (String.length pre)) 0) as [Hge _].
        rewrite splice_cons by (eapply Forall_impl; [exact Hge|]; simpl; lia).
        rewrite IH. cbn [erase].
        by rewrite covered_later by (eapply Forall_impl; [exact Hge|]; simpl; lia).
    + simpl scan. simpl skip_string.
      specialize (IH (pre +:+ String c EmptyString) skip).
      rewrite Hlen, <- Hpre in IH.
      by replace (String.length pre + S skip) with (S (String.length pre) + skip) by lia.
Qed.

Lemma replace_all_erases (ic : bool) (r : regex) (s : string) :
  replace_all_empty ic r s = erase (matchAll ic r s) 0 s.
Proof. apply (splice_scan ic r s EmptyString 0). Qed.

End StripFacts.


(** ** In-file directives *)

Module ResolutionProperties.
Import Json JS RegExp ScafflaterOptions OptionsSpec HeapFacts RegExpFacts ResolutionFacts.

Section WithHost.
Context `{Host}.

(** A match inside a region leaves the loop as it found it. *)
Lemma merge_configs_drop regions str before c after :
  existsb (in_region (index c)) regions = true →
  ∀ v w, merge_configs regions str (before ++ c :: after) v w
         = merge_configs regions str (before ++ after) v w.
Proof.
  intros Hin. induction before as [|b before IH]; intros v w; simpl.
  - by rewrite Hin.
  - destruct (existsb (in_region (index b)) regions); [apply IH|].
    destruct (group_text str b 1 ≫= JSON_parse); [|done].
    apply bind_ext. intros parsed w1. apply bind_ext. intros merged w2. apply IH.
Qed.

Lemma resolve_key_is_Some (k : string) (docs : list json) (doc x : json) :
  doc ∈ docs → doc_sets doc k = Some x → is_Some (resolve_key k docs).
Proof.
  induction docs as [|d docs IH]; [by intros ?%elem_of_nil|].
  rewrite resolve_key_cons. intros [->|Hin]%elem_of_cons Hx.
  - rewrite Hx. by destruct (resolve_key k docs).
  - destruct (IH Hin Hx) as [y ->]. by eexists.
Qed.

Lemma resolve_key_app (k : string) (docs1 docs2 : list json) :
  resolve_key k (docs1 ++ docs2)
  = match resolve_key k docs2 with
    | Some x => Some x
    | None => resolve_key k docs1
    end.
Proof. unfold resolve_key at 1. rewrite foldl_app. apply resolve_key_from. Qed.

Lemma resolve_key_none (k : string) (docs : list json) :
  Forall (λ d, doc_sets d k = None) docs → resolve_key k docs = None.
Proof.
  induction 1 as [|d docs Hd _ IH]; [done|].
  by rewrite resolve_key_cons, IH.
Qed.



End WithHost.
End ResolutionProperties.

(** ** Frames, failures and folder-level overwrite *)

Module OptionsProperties.
Import Json JS RegExp FsUtil ScafflaterOptions OptionsSpec HeapFacts ResolutionFacts
       FolderFacts.

Section WithHost.
Context `{Host}.

Lemma getConfigFromString_frame (this : addr) (str : string) (w : world)
    (tprops : gmap string value) r (w' : world) :
  receiver w this tprops → sound_logger w this tprops →
  getConfigFromString this str w = (r, w') →
  heap w' !! this = heap w !! this
  ∧ files w' = files w
  ∧ match r with
    | Return a => heap w !! a = None
                  ∧ ∃ ps, heap w' !! a = Some (Object OptionsInstance ps)
    | Throw _ => True
    end.
Proof.
  intros Hrec Hlog Hrun. rewrite getConfigFromString_unfold in Hrun.
  destruct (directives_of w this str) as [[configs regions]|e].
  2:{ by injection Hrun as <- <-. }
  apply bind_cases in Hrun as [(e & Hmerge & ->) | (v & w1 & Hmerge & Hnew)].
  - apply merge_configs_spec in Hmerge as (S1 & (F1 & _) & _).
    + split; [|done]. destruct Hrec as [kd Hthis]. rewrite Hthis.
      by eapply lookup_weaken.
    + destruct Hrec as [kd Hthis]. by eexists.
  - eapply merge_configs_merged_over in Hmerge as (S1 & (F1 & _) & Hv & _ & Hkeys);
      [|done].
    pose proof Hnew as Hnew'.
    apply new_ScafflaterOptions_spec in Hnew'
      as (? & ? & ? & ? & _ & _ & _ & _ & _ & (F2 & _) & _);
      [|done].
    destruct (construct_frame _ _ _ _ _ _ _ _ S1 Hv Hrec Hlog Hkeys Hnew) as [Hf Hr].
    split; [done|]. split; [congruence|done].
Qed.

Lemma getConfigFromString_files (this : addr) (str : string) (w : world)
    (tprops : gmap string value) r (w' : world) :
  receiver w this tprops →
  getConfigFromString this str w = (r, w') → files w' = files w.
Proof.
  intros [kd Hthis] Hrun. rewrite getConfigFromString_unfold in Hrun.
  destruct (directives_of w this str) as [[configs regions]|e].
  2:{ by injection Hrun as <- <-. }
  apply bind_cases in Hrun as [(e & Hmerge & ->) | (v & w1 & Hmerge & Hnew)];
    apply merge_configs_spec in Hmerge as (S1 & (F1 & _) & Hr); try (by eexists);
    [done|].
  destruct Hr as (Hv & _).
  apply new_ScafflaterOptions_spec in Hnew
    as (? & ? & ? & ? & _ & _ & _ & _ & _ & (F2 & _) & _); [|done].
  congruence.
Qed.

Lemma getFolderOptions_frame (this : addr) (folderPath : string) (context : value)
    (w : world) (tprops : gmap string value) r (w' : world) :
  receiver w this tprops → sound_logger w this tprops →
  getFolderOptions this folderPath context w = (r, w') →
  heap w' !! this = heap w !! this
  ∧ files w' = files w
  ∧ match r with
    | Return a => heap w !! a = None
                  ∧ ∃ ps, heap w' !! a = Some (Object OptionsInstance ps)
    | Throw _ => True
    end.
Proof.
  intros Hrec Hlog Hrun.
  destruct (getFolderOptions_phase _ _ _ _ _ _ _ Hrec Hrun)
    as [(e & -> & S1 & F1) | (v & w1 & folder & S1 & F1 & Hv & _ & Hkeys & Hnew)].
  - split; [|done]. destruct Hrec as [kd Hthis]. rewrite Hthis.
    by eapply lookup_weaken.
  - pose proof Hnew as Hnew'.
    apply new_ScafflaterOptions_spec in Hnew'
      as (? & ? & ? & ? & _ & _ & _ & _ & _ & (F2 & _) & _); [|done].
    destruct (construct_frame _ _ _ _ _ _ _ _ S1 Hv Hrec Hlog Hkeys Hnew) as [Hf Hr].
    split; [done|]. split; [congruence|done].
Qed.

(** C5. Let the receiver hold a logger other than itself.  Whatever
    in-file or folder-level resolution does, return or throw, the receiver
    object is afterwards what it was before, property for property; and an
    instance returned is a new object: one the heap did not hold before. *)
Theorem resolution_leaves_receiver (this : addr) (w : world)
    (tprops : gmap string value) :
  receiver w this tprops →
  sound_logger w this tprops →
  (∀ str r w',
     getConfigFromString this str w = (r, w') →
     heap w' !! this = heap w !! this
     ∧ match r with
       | Return a => heap w !! a = None
                     ∧ ∃ ps, heap w' !! a = Some (Object OptionsInstance ps)
       | Throw _ => True
       end)
  ∧ (∀ folderPath context r w',
       getFolderOptions this folderPath context w = (r, w') →
       heap w' !! this = heap w !! this
       ∧ match r with
         | Return a => heap w !! a = None
                       ∧ ∃ ps, heap w' !! a = Some (Object OptionsInstance ps)
         | Throw _ => True
         end).
Proof.
  intros Hrec Hlog. split.
  - intros str r w' Hrun.
    by destruct (getConfigFromString_frame _ _ _ _ _ _ Hrec Hlog Hrun) as (? & _ & ?).
  - intros folderPath context r w' Hrun.
    by destruct (getFolderOptions_frame _ _ _ _ _ _ _ Hrec Hlog Hrun) as (? & _ & ?).
Qed.

(** C3 (as the code has it). When a match of the directive pattern outside
    every region carries a payload that [JSON.parse] rejects, reading the
    options of the file throws; and whatever reading the options of a file
    does, the files are afterwards what they were. *)
Theorem malformed_directive_throws (this : addr) (filePath : string)
    (context : value) (w : world) (tprops : gmap string value) (content : string)
    (configs : list match_result) (regions : list Region) :
  receiver w this tprops →
  files w !! filePath = Some content →
  directives_of w this content = Return (configs, regions) →
  (Exists (λ c, payload content c = None) (surviving regions configs) →
   ∃ e w', getFileOptions this filePath context w = (Throw e, w'))
  ∧ (∀ r w', getFileOptions this filePath context w = (r, w') → files w' = files w).
Proof.
  intros Hrec Hfile Hdir.
  assert (Eread : readFileContent filePath w = (Return content, w)).
  { unfold readFileContent. by rewrite Hfile. }
  split.
  - intros Hbad. unfold getFileOptions.
    rewrite (bind_return _ _ _ _ _ Eread).
    destruct (getConfigFromString this content w) as [[a|e] w1] eqn:Hrun.
    + rewrite getConfigFromString_unfold, Hdir in Hrun.
      apply bind_inv in Hrun as (v & w2 & Hmerge & _).
      apply merge_configs_spec in Hmerge as (_ & _ & _ & Hall & _).
      * apply Exists_exists in Hbad as (c & Hc & Hnone).
        eapply Forall_forall in Hall; [|exact Hc]. rewrite Hnone in Hall.
        by destruct Hall.
      * destruct Hrec as [kd Hthis]. by eexists.
    + exists e, w1. by apply bind_throw.
  - intros r w' Hrun. unfold getFileOptions in Hrun.
    rewrite (bind_return _ _ _ _ _ Eread) in Hrun.
    apply bind_cases in Hrun as [(e & Hcfg & ->) | (a & w1 & Hcfg & Hrun)];
      apply (getConfigFromString_files _ _ _ _ _ _ Hrec) in Hcfg as F1; [done|].
    rewrite (bind_return _ _ w1 w1 w1) in Hrun by done.
    apply bind_cases in Hrun as [(e & Hl & ->) | ([] & w2 & Hl & Hrun)];
      apply log_step_spec in Hl as [_ F2]; [congruence|].
    injection Hrun as _ <-. congruence.
Qed.

Lemma union_fields (tprops dm : gmap string value) (k : string) :
  has_fields tprops → (∀ k, is_Some (dm !! k) ↔ k ∈ field_names) →
  (tprops ∪ dm) !! k = tprops !! k.
Proof.
  intros Hf Hdm. rewrite lookup_union.
  destruct (tprops !! k) as [v|] eqn:Hk; [by destruct (dm !! k)|].
  destruct (dm !! k) as [d|] eqn:Hd; [|done].
  assert (Hin : k ∈ field_names) by (apply Hdm; by eexists).
  apply Hf in Hin as [v Hv]. congruence.
Qed.

End WithHost.
End OptionsProperties.

Module ConfigProviderFacts.
Import Json FsDocs ConfigProvider OptionsSpec.

Lemma member_set_member_ne (k k' : string) (v : json) (ms : list (string * json)) :
  k' ≠ k → member k (set_member k' v ms) = member k ms.
Proof.
  intros Hne. unfold member. induction ms as [|[k0 v0] ms IH]; simpl.
  - by rewrite (proj2 (String.eqb_neq _ _) Hne).
  - destruct (String.eqb k0 k') eqn:E0; simpl.
    + apply String.eqb_eq in E0 as ->.
      by rewrite (proj2 (String.eqb_neq _ _) Hne).
    + destruct (String.eqb k0 k); [done|]. apply IH.
Qed.

Lemma member_set_member_eq (k : string) (v : json) (ms : list (string * json)) :
  member k (set_member k v ms) = Some v.
Proof.
  unfold member. induction ms as [|[k' v'] ms IH]; simpl.
  - by rewrite String.eqb_refl.
  - destruct (String.eqb k' k) eqn:E; simpl; rewrite ?E, ?String.eqb_refl; done.
Qed.

(** Spread: the later operand wins, key by key. *)
Lemma member_spread_members (k : string) (b a : list (string * json)) :
  member k (spread_members a b)
  = match member_last k b with
    | Some x => Some x
    | None => member k a
    end.
Proof.
  unfold spread_members. revert a.
  induction b as [|[k' x] b IH]; intros a; simpl; [done|].
  rewrite IH. destruct (member_last k b); [done|].
  destruct (String.eqb k' k) eqn:E.
  - apply String.eqb_eq in E as ->. apply member_set_member_eq.
  - apply String.eqb_neq in E. by apply member_set_member_ne.
Qed.

Lemma member_last_NoDup (k : string) (ms : list (string * json)) :
  NoDup ms.*1 → member_last k ms = member k ms.
Proof.
  unfold member. induction ms as [|[k' x] ms IH]; simpl; [done|].
  intros [Hnotin Hnd]%NoDup_cons. rewrite IH by done.
  destruct (String.eqb k' k) eqn:E; simpl.
  - apply String.eqb_eq in E as ->.
    destruct (List.find _ ms) as [[k0 y]|] eqn:Hfind; [|done]. exfalso.
    apply List.find_some in Hfind as [Hin Hk0]. simpl in Hk0.
    apply String.eqb_eq in Hk0 as ->. apply Hnotin.
    apply list_elem_of_fmap. exists (k, y). split; [done|].
    by apply list_elem_of_In.
  - by destruct (List.find _ ms) as [[k0 y]|].
Qed.

End ConfigProviderFacts.


Module FolderProperties.
Import Json JS OptionsSpec HeapFacts ResolutionFacts FolderFacts OptionsProperties
       ConfigProviderFacts.


End FolderProperties.

(** ** Stripping the directives *)

Module StripProperties.
Import JS RegExp ScafflaterOptions OptionsSpec ResolutionFacts StripFacts.

Section WithHost.
Context `{Host}.

(** C8 (as the code has it). Stripping looks at no region.  When the
    pattern built around the receiver's option marker is [re],
    [stripConfig] returns the text without the code units that a match of
    [re] covers, every match counted whether a region holds it or not, and
    with every other code unit kept in place; the state is left as it was. *)
Theorem stripConfig_erases_every_match (this : addr) (str : string) (w : world)
    (tprops : gmap string value) (re : regex) :
  receiver w this tprops →
  new_RegExp strip_source strip_regex (default VUndefined (tprops !! "optionMarker")) w
  = (Return re, w) →
  stripConfig this str w = (Return (erase (matchAll true re str) 0 str), w).
Proof.
  intros [kd Hthis] Hre. unfold stripConfig.
  rewrite (bind_return _ _ _ _ _ (get_ref_spec this "optionMarker" w)).
  unfold own_props. rewrite Hthis. cbn [props].
  rewrite (bind_return _ _ _ _ _ Hre).
  by rewrite replace_all_erases.
Qed.

End WithHost.
End StripProperties.

(** ** The properties on the worked inputs *)

Module WorkedExamples.
Import Json JS RegExp ScafflaterOptions OptionsSpec ExampleHost OptionsExample.
Import (hints) ProcessorExample.

Lemma this_is_receiver : receiver w this tprops.
Proof. exists OptionsInstance. vm_compute. reflexivity. Qed.

Lemma this_has_logger : sound_logger w this tprops.
Proof.
  exists (VRef logger_addr). split; [vm_compute; reflexivity|].
  split; [|discriminate]. exists (Object LoggerObject {[ "level" := VStr "info" ]}).
  vm_compute. reflexivity.
Qed.

Lemma annotated_directives :
  directives_of w this annotated
  = Return ([first_match; second_match; third_match], [region]).
Proof. vm_compute. reflexivity. Qed.

Lemma annotated_resolved :
  getConfigFromString this annotated w = (Return instance, resolved.2).
Proof. vm_compute. reflexivity. Qed.

Lemma folder_options_resolved :
  getFolderOptions this "t" context w = (Return instance, folder_resolved.2).
Proof. vm_compute. reflexivity. Qed.



(** A payload that is closed but is no JSON makes the call throw. *)
Lemma malformed_directive_throws_witness :
  files w !! "t/unquoted" = Some unquoted
  ∧ directives_of w this unquoted = Return ([unquoted_match], [])
  ∧ payload unquoted unquoted_match = None
  ∧ (∃ e w', getFileOptions this "t/unquoted" context w = (Throw e, w'))
  ∧ (∀ r w', getFileOptions this "t/unquoted" context w = (r, w') → files w' = files w).
Proof.
  assert (Hfile : files w !! "t/unquoted" = Some unquoted) by (vm_compute; reflexivity).
  assert (Hdir : directives_of w this unquoted
                 = Return ([unquoted_match], []))
    by (vm_compute; reflexivity).
  assert (Hbad : payload unquoted unquoted_match = None)
    by (vm_compute; reflexivity).
  destruct (OptionsProperties.malformed_directive_throws this "t/unquoted" context w
              tprops unquoted _ _ this_is_receiver Hfile Hdir) as [Hthrow Hfiles].
  do 3 (split; [assumption|]). split; [|exact Hfiles].
  apply Hthrow. apply Exists_cons_hd. exact Hbad.
Defined.

(** A payload that is never closed is no match of the pattern: the call
    returns; and the error thrown for a payload that is no JSON names no
    file. *)
Lemma unclosed_directive_returns :
  files w !! "t/unclosed" = Some unclosed
  ∧ directives_of w this unclosed = Return ([], [])
  ∧ (getFileOptions this "t/unclosed" context w).1 = Return 12%positive
  ∧ (getFileOptions this "t/unquoted" context w).1
    = Throw (Error "Could not parse option 'undefined'").
Proof. repeat split; vm_compute; reflexivity. Qed.




(** In-file and folder-level resolution on the worked inputs: the receiver
    stays, the instance returned is new. *)
Lemma resolution_leaves_receiver_witness :
  sound_logger w this tprops
  ∧ (heap resolved.2 !! this = heap w !! this
     ∧ heap w !! instance = None
     ∧ ∃ ps, heap resolved.2 !! instance = Some (Object OptionsInstance ps))
  ∧ (heap folder_resolved.2 !! this = heap w !! this
     ∧ heap w !! instance = None
     ∧ ∃ ps, heap folder_resolved.2 !! instance = Some (Object OptionsInstance ps)).
Proof.
  destruct (OptionsProperties.resolution_leaves_receiver this w tprops
              this_is_receiver this_has_logger) as [Hfile Hfolder].
  split; [exact this_has_logger|]. split.
  - exact (Hfile annotated (Return instance) resolved.2 annotated_resolved).
  - exact (Hfolder "t" context (Return instance) folder_resolved.2
             folder_options_resolved).
Defined.


(** The pipeline on sample stages: no stage leaves the blanks, the base
    stage trims them, and stages act in the order of the list. *)
Example empty_pipeline_keeps_blanks :
  (Processor.runProcessorsPipeline (P := ProcessorExample.stages) []
     VUndefined "  a  " ProcessorExample.scope).1
  = Return "  a  ".
Proof. reflexivity. Qed.

Example base_stage_trims :
  (Processor.runProcessorsPipeline [ProcessorExample.base]
     VUndefined "  a  " ProcessorExample.scope).1
  = Return "a".
Proof. vm_compute. reflexivity. Qed.

Example stages_run_in_order :
  (Processor.runProcessorsPipeline
     [ProcessorExample.suffix "1"; ProcessorExample.suffix "2"]
     VUndefined "a" ProcessorExample.scope).1
  = Return "a12".
Proof. vm_compute. reflexivity. Qed.

(** With [RegionProcessor] bound and [value] not, asking for the
    registered name throws ReferenceError. *)
Lemma getProcessor_always_throws_witness :
  globals ProcessorExample.scope !! "value" = None
  ∧ Processor.getProcessor "region-processor" ProcessorExample.scope
    = (Throw ReferenceError, ProcessorExample.scope).
Proof.
  split; [reflexivity|].
  apply (getProcessor_always_throws "region-processor" ProcessorExample.scope).
  reflexivity.
Defined.

(** Stripping [annotated] erases what the matches of the pattern cover. *)
Lemma stripConfig_erases_every_match_witness :
  new_RegExp strip_source strip_regex
    (default VUndefined (tprops !! "optionMarker")) w
  = (Return strip_pattern, w)
  ∧ stripConfig this annotated w
    = (Return (erase (matchAll true strip_pattern annotated) 0 annotated), w).
Proof.
  assert (Hre : new_RegExp strip_source strip_regex
                  (default VUndefined (tprops !! "optionMarker")) w
                = (Return strip_pattern, w)) by (vm_compute; reflexivity).
  split; [exact Hre|].
  exact (StripProperties.stripConfig_erases_every_match this annotated w tprops
           strip_pattern this_is_receiver Hre).
Defined.

(** The region of [annotated] holds the line [frozen_line], at the offset
    of the first match; stripping removes that line with the others. *)
Lemma stripConfig_strips_inside_region :
  getRegions (heap w) (VRef this) annotated = Return [region]
  ∧ slice annotated 14 36 = frozen_line
  ∧ in_region 14 region = true
  ∧ stripConfig this annotated w = (Return stripped, w)
  ∧ RegionScanner.contains frozen_line stripped = false.
Proof. repeat split; vm_compute; reflexivity. Qed.

End WorkedExamples.

(** * Further properties *)

(** ** The pipeline: failure and the base class *)


Module PipelineProperties.
Import JS Processor PipelineSpec.


Lemma trim_start_kept (s : string) : head_kept (trim_start s).
Proof.
  induction s as [|c s IH]; simpl; [done|].
  destruct (Chars.is_space c) eqn:E; [done|]. simpl. done.
Qed.

Lemma trim_start_fixed (s : string) : head_kept s → trim_start s = s.
Proof. destruct s as [|c s]; simpl; [done|]. by intros ->. Qed.

Lemma trim_end_kept (s : string) : head_kept s → head_kept (trim_end s).
Proof.
  destruct s as [|c s]; simpl; [done|]. intros E.
  destruct (trim_end s); [by rewrite E|done].
Qed.

Lemma trim_end_idem (s : string) : trim_end (trim_end s) = trim_end s.
Proof.
  induction s as [|c s IH]; simpl; [done|].
  destruct (trim_end s) as [|d t] eqn:E.
  - destruct (Chars.is_space c) eqn:Ec; simpl; [done|]. by rewrite Ec.
  - simpl in *. by rewrite IH.
Qed.

Lemma trim_idem (s : string) : trim (trim s) = trim s.
Proof.
  unfold trim. rewrite (trim_start_fixed (trim_end _)).
  - apply trim_end_idem.
  - apply trim_end_kept, trim_start_kept.
Qed.

Section Pipeline.
Context {P : Type} `{Stage P}.

(** Running a list of stages is running its front part, then the rest. *)
Lemma run_stages_after (front rest : list P) :
  ∀ (acc : M world (value * string)) w,
    ('(ctx, text) ← acc; run_stages (front ++ rest) ctx text) w
    = ('(ctx', text') ← foldl stage acc front; run_stages rest ctx' text') w.
Proof.
  induction front as [|p front IH]; intros acc w; [done|].
  cbn [app foldl]. rewrite <- IH. unfold stage at 1. rewrite bind_assoc.
  apply bind_ext. intros [c t] w1. cbn [run_stages]. rewrite bind_assoc.
  apply bind_ext. intros r w2. reflexivity.
Qed.

Lemma run_stages_app (front rest : list P) (ctx : value) (text : string) w :
  run_stages (front ++ rest) ctx text w
  = ('(ctx', text') ← foldl stage (mret (ctx, text)) front;
     run_stages rest ctx' text') w.
Proof. by rewrite <- run_stages_after. Qed.

(** X1. A stage that throws ends the pipeline: the stages after it are not
    run, and the pipeline throws what the stage threw, in the state the
    stage left. *)
Theorem pipeline_stops_at_throw (front rest : list P) (p : P)
    (context : value) (input : string) (w w0 w1 w2 : world)
    (gc ctx : value) (text : string) (e : exn) :
  spread [context] w = (Return gc, w0) →
  foldl stage (mret (gc, input)) front w0 = (Return (ctx, text), w1) →
  process_of p ctx text w1 = (Throw e, w2) →
  runProcessorsPipeline (front ++ p :: rest) context input w = (Throw e, w2).
Proof.
  intros Hcopy Hfront Hthrow. unfold runProcessorsPipeline.
  rewrite (bind_return _ _ _ _ _ Hcopy), run_stages_app.
  rewrite (bind_return _ _ _ _ _ Hfront). simpl.
  by apply bind_throw.
Qed.

(** X2. Stages that only hand on what they are given, as the base class
    does, make the pipeline a trim: one or more of them return the input
    trimmed once, and the context they pass along is the copy. *)
Theorem base_stages_trim (processors : list P) (context : value)
    (input : string) (w : world) :
  Forall (λ p, ∀ c i, process_of p c i = process c i) processors →
  processors ≠ [] →
  ∃ a,
    runProcessorsPipeline processors context input w
    = (Return (trim input),
       with_heap (insert a (Object PlainObject (own_props (heap w) context))) w)
    ∧ heap w !! a = None.
Proof.
  intros Hbase Hne.
  destruct (HeapFacts.spread_spec [context] w) as (a & Hspread & Hfresh).
  exists a. split; [|exact Hfresh].
  unfold runProcessorsPipeline. rewrite (bind_return _ _ _ _ _ Hspread).
  cbn [foldl]. rewrite (right_id_L ∅ (∪)).
  set (w0 := with_heap _ w). clearbody w0.
  destruct processors as [|p ps]; [done|]. clear Hne.
  apply Forall_cons in Hbase as [Hp Hps]. cbn [run_stages].
  rewrite Hp. unfold process at 1. rewrite FolderFacts.bind_mret. cbn [Processor.context result].
  generalize (VRef a). intros c.
  assert (Hrest : ∀ t, run_stages ps c (trim t) w0 = (Return (trim t), w0)).
  { induction Hps as [|q qs Hq _ IH]; intros t; [done|].
    cbn [run_stages]. rewrite Hq. unfold process at 1.
    rewrite FolderFacts.bind_mret. cbn [Processor.context result].
    rewrite trim_idem. apply IH. }
  apply Hrest.
Qed.

End Pipeline.
End PipelineProperties.

(** ** The constructor of the options *)

Module ConstructorFacts.
Import Json JS RegExp ScafflaterOptions OptionsSpec ConstructorSpec HeapFacts ResolutionFacts.

Lemma strict_equal_str (v : value) (s : string) :
  strict_equal v (VStr s) = true ↔ v = VStr s.
Proof.
  destruct v; simpl; try (split; [done|discriminate]).
  rewrite String.eqb_eq. split; [by intros ->|by intros [= ->]].
Qed.

Lemma debug_mode_spec (ps : gmap string value) :
  debug_mode ps = true ↔ ps !! "mode" = Some (VStr "debug").
Proof.
  unfold debug_mode. rewrite strict_equal_str.
  destruct (ps !! "mode") as [v|]; simpl; [|split; discriminate].
  split; [by intros ->|by intros [= ->]].
Qed.

Section WithHost.
Context `{Host}.


(** The constructor, with the initial values of the fields spelled out:
    the four literals are new objects. *)
Lemma new_ScafflaterOptions_fields (options : value) (w : world) r w' :
  new_ScafflaterOptions options w = (r, w') →
  allocated (heap w) options →
  ∃ this h p a c s,
    heap w ⊆ h ∧ heap w !! this = None
    ∧ h !! this = Some (Object OptionsInstance (instance_props (heap w) options p a c s))
    ∧ denotes (h ∖ heap w) p default_processors
    ∧ denotes (h ∖ heap w) a default_appenders
    ∧ denotes (h ∖ heap w) c default_cacheStorages
    ∧ denotes (h ∖ heap w) s default_sources
    ∧ same_outside_heap w w'
    ∧ (if debug_mode (instance_props (heap w) options p a c s) then
         match instance_props (heap w) options p a c s !! "logger" with
         | Some (VRef l) =>
             match h !! l with
             | Some o =>
                 r = Return this
                 ∧ heap w' = <[l := Object (kind_of o)
                                      (<["level" := VStr "debug"]> (props o))]> h
             | None => r = Throw TypeError ∧ heap w' = h
             end
         | _ => r = Throw TypeError ∧ heap w' = h
         end
       else r = Return this ∧ heap w' = h).
Proof.
  intros Hrun Hopt. unfold new_ScafflaterOptions in Hrun.
  destruct (alloc_json_spec default_processors w) as (p & w1 & E1 & S1 & O1 & D1).
  erewrite bind_return in Hrun by exact E1.
  destruct (alloc_json_spec default_appenders w1) as (a & w2 & E2 & S2 & O2 & D2).
  erewrite bind_return in Hrun by exact E2.
  destruct (alloc_json_spec default_cacheStorages w2) as (c & w3 & E3 & S3 & O3 & D3).
  erewrite bind_return in Hrun by exact E3.
  destruct (alloc_json_spec default_sources w3) as (s & w4 & E4 & S4 & O4 & D4).
  erewrite bind_return in Hrun by exact E4.
  set (dm := list_to_map (field_initialisers p a c s winston_logger)
             : gmap string value) in *.
  destruct (alloc_spec (Object OptionsInstance dm) w4) as (this & E5 & Hfresh).
  erewrite bind_return in Hrun by exact E5.
  assert (S02 : heap w ⊆ heap w2) by (etrans; [exact S1|exact S2]).
  assert (S03 : heap w ⊆ heap w3) by (etrans; [exact S02|exact S3]).
  assert (S04 : heap w ⊆ heap w4) by (etrans; [exact S03|exact S4]).
  assert (O04 : same_outside_heap w w4).
  { eapply same_outside_heap_trans; [exact O1|].
    eapply same_outside_heap_trans; [exact O2|].
    eapply same_outside_heap_trans; [exact O3|exact O4]. }
  set (w5 := with_heap (insert this (Object OptionsInstance dm)) w4) in *.
  assert (S45 : heap w4 ⊆ heap w5) by (by apply insert_subseteq).
  set (ps := instance_props (heap w) options p a c s).
  set (h := <[this := Object OptionsInstance ps]> (heap w4)).
  assert (S4h : heap w4 ⊆ h) by (by apply insert_subseteq).
  unfold modify_state in Hrun. unfold mbind at 1, M_bind in Hrun.
  assert (Hh : heap (with_heap
              (alter (λ o, Object (kind_of o) (assigned_props (heap w5) options ∪ props o))
                     this) w5) = h).
  { simpl. rewrite alter_insert_eq. simpl. subst h ps. unfold instance_props.
    rewrite (assigned_props_mono (heap w) (<[this:=_]> (heap w4)) options); [done| |done].
    etrans; [exact S04|exact S45]. }
  set (w6 := with_heap _ w5) in *.
  assert (Hthis : heap w6 !! this = Some (Object OptionsInstance ps)).
  { rewrite Hh. apply lookup_insert_eq. }
  exists this, h, p, a, c, s.
  split. { etrans; [exact S04|exact S4h]. }
  split. { by eapply lookup_weaken_None. }
  split. { subst h. apply lookup_insert_eq. }
  split. { eapply denotes_mono; [|exact D1]. apply difference_mono; [|done].
           etrans; [exact S2|]. etrans; [exact S3|]. etrans; [exact S4|exact S4h]. }
  split. { eapply denotes_mono; [|exact D2]. apply difference_mono; [|done].
           etrans; [exact S3|]. etrans; [exact S4|exact S4h]. }
  split. { eapply denotes_mono; [|exact D3]. apply difference_mono; [|done].
           etrans; [exact S4|exact S4h]. }
  split. { eapply denotes_mono; [|exact D4]. by apply difference_mono. }
  assert (O06 : same_outside_heap w w6) by (by eapply same_outside_heap_trans).
  clearbody w6. clear w5 S45 E5. fold ps.
  unfold mbind at 1, M_bind, get in Hrun. rewrite Hthis in Hrun.
  cbn [props] in Hrun. fold (debug_mode ps) in Hrun.
  destruct (debug_mode ps).
  - unfold mbind at 1 2, M_bind, get in Hrun. rewrite Hthis in Hrun.
    cbn [props default] in Hrun. unfold set in Hrun.
    destruct (ps !! "logger") as [[| | | | |l]|]; cbn [default from_option id] in Hrun;
      try (injection Hrun as <- <-; by rewrite <- Hh).
    rewrite <- Hh.
    destruct (heap w6 !! l) as [o|] eqn:Hl;
      injection Hrun as <- <-; done.
  - unfold mbind, M_bind, mret, M_ret in Hrun. injection Hrun as <- <-.
    by rewrite <- Hh.
Qed.

Lemma instance_props_mode (h : gmap addr object) (options p a c s : value) :
  instance_props h options p a c s !! "mode"
  = Some (default (VStr "prod") (own_props h options !! "mode")).
Proof.
  unfold instance_props. rewrite lookup_union, assigned_props_lookup by done.
  destruct (own_props h options !! "mode"); reflexivity.
Qed.

Lemma instance_props_logger (h : gmap addr object) (options p a c s : value) :
  instance_props h options p a c s !! "logger"
  = Some (default winston_logger (own_props h options !! "logger")).
Proof.
  unfold instance_props. rewrite lookup_union, assigned_props_lookup by done.
  destruct (own_props h options !! "logger"); reflexivity.
Qed.

Lemma instance_props_debug (h : gmap addr object) (options p a c s : value) :
  debug_mode (instance_props h options p a c s) = true
  ↔ own_props h options !! "mode" = Some (VStr "debug").
Proof.
  rewrite debug_mode_spec, instance_props_mode.
  destruct (own_props h options !! "mode"); simpl; split; congruence.
Qed.

End WithHost.
End ConstructorFacts.

Module ConstructorProperties.
Import Json JS RegExp ScafflaterOptions OptionsSpec ConstructorSpec HeapFacts ResolutionFacts
       ConstructorFacts.

Section WithHost.
Context `{Host}.

(** X3. Outside debug mode the constructor always returns, and what it
    returns is a new object: under each key other than [__proto__] that the
    argument has as a property of its own it holds the argument's value,
    under [__proto__] nothing, and under every other key the initial value
    of the field of that name, if there is one; the arrays and objects
    among the initial values are made anew for the instance.  Nothing the
    heap held before is changed, nor files, log or globals. *)
Theorem constructor_overrides_defaults (options : value) (w : world) :
  allocated (heap w) options →
  own_props (heap w) options !! "mode" ≠ Some (VStr "debug") →
  ∃ this w' ps p a c s,
    new_ScafflaterOptions options w = (Return this, w')
    ∧ heap w !! this = None ∧ heap w ⊆ heap w' ∧ same_outside_heap w w'
    ∧ heap w' !! this = Some (Object OptionsInstance ps)
    ∧ (∀ k v, k ≠ "__proto__" →
              own_props (heap w) options !! k = Some v → ps !! k = Some v)
    ∧ ps !! "__proto__" = None
    ∧ (∀ k, own_props (heap w) options !! k = None →
            ps !! k = (list_to_map (field_initialisers p a c s winston_logger)
                       : gmap string value) !! k)
    ∧ denotes (heap w' ∖ heap w) p default_processors
    ∧ denotes (heap w' ∖ heap w) a default_appenders
    ∧ denotes (heap w' ∖ heap w) c default_cacheStorages
    ∧ denotes (heap w' ∖ heap w) s default_sources.
Proof.
  intros Hopt Hmode.
  destruct (new_ScafflaterOptions options w) as [r w'] eqn:Hrun.
  destruct (new_ScafflaterOptions_fields _ _ _ _ Hrun Hopt)
    as (this & h & p & a & c & s & S & Hfresh & Hthis & Dp & Da & Dc & Ds & O & Hm).
  destruct (debug_mode _) eqn:Hd; [by apply instance_props_debug in Hd|].
  destruct Hm as [-> Hw']. subst h.
  exists this, w', (instance_props (heap w) options p a c s), p, a, c, s.
  do 5 (split; [done|]). split; [|split; [|split; [|done]]].
  - intros k v Hne Hk. unfold instance_props.
    apply lookup_union_Some_l. by rewrite assigned_props_lookup.
  - unfold instance_props. rewrite lookup_union_r by apply assigned_props_proto.
    apply not_a_field. intros k. apply field_initialisers_lookup.
  - intros k Hk. unfold instance_props. rewrite lookup_union_r; [done|].
    unfold assigned_props. destruct (decide (k = "__proto__")) as [->|Hne];
      [apply lookup_delete_eq|by rewrite lookup_delete_ne].
Qed.

(** X4. In debug mode the constructor writes on the logger the instance
    holds: when the argument sets [mode] to ["debug"] and the logger, the
    argument's or else the imported one, is an object, the call returns
    and that object has its [level] set to ["debug"], for every holder of
    the logger to see; every other object the heap held is as it was. *)
Theorem debug_mode_sets_logger_level (options : value) (w : world)
    (l : addr) (o : object) :
  allocated (heap w) options →
  own_props (heap w) options !! "mode" = Some (VStr "debug") →
  default winston_logger (own_props (heap w) options !! "logger") = VRef l →
  heap w !! l = Some o →
  ∃ this w',
    new_ScafflaterOptions options w = (Return this, w')
    ∧ heap w !! this = None
    ∧ heap w' !! l = Some (Object (kind_of o) (<["level" := VStr "debug"]> (props o)))
    ∧ (∀ a x, a ≠ l → heap w !! a = Some x → heap w' !! a = Some x)
    ∧ same_outside_heap w w'.
Proof.
  intros Hopt Hmode Hlogger Hl.
  destruct (new_ScafflaterOptions options w) as [r w'] eqn:Hrun.
  destruct (new_ScafflaterOptions_fields _ _ _ _ Hrun Hopt)
    as (this & h & p & a & c & s & S & Hfresh & Hthis & _ & _ & _ & _ & O & Hm).
  rewrite (proj2 (instance_props_debug _ _ p a c s) Hmode) in Hm.
  rewrite instance_props_logger, Hlogger in Hm.
  rewrite (lookup_weaken _ _ _ _ Hl S) in Hm. destruct Hm as [-> Hw'].
  exists this, w'. do 2 (split; [done|]). rewrite Hw'.
  split; [apply lookup_insert_eq|]. split; [|done].
  intros a' x Hne Ha. rewrite lookup_insert_ne by done. by eapply lookup_weaken.
Qed.

(** X5. In debug mode a logger that is no object makes the constructor
    throw TypeError: nothing the heap held is changed, nor files, log or
    globals. *)
Theorem debug_mode_needs_logger (options : value) (w : world) :
  allocated (heap w) options →
  own_props (heap w) options !! "mode" = Some (VStr "debug") →
  (∀ l, default winston_logger (own_props (heap w) options !! "logger") ≠ VRef l) →
  ∃ w',
    new_ScafflaterOptions options w = (Throw TypeError, w')
    ∧ heap w ⊆ heap w' ∧ same_outside_heap w w'.
Proof.
  intros Hopt Hmode Hlogger.
  destruct (new_ScafflaterOptions options w) as [r w'] eqn:Hrun.
  destruct (new_ScafflaterOptions_fields _ _ _ _ Hrun Hopt)
    as (this & h & p & a & c & s & S & Hfresh & Hthis & _ & _ & _ & _ & O & Hm).
  rewrite (proj2 (instance_props_debug _ _ p a c s) Hmode) in Hm.
  rewrite instance_props_logger in Hm.
  destruct (default winston_logger _) as [| | | | |l] eqn:Hlg;
    try (destruct Hm as [-> Hw']; subst h; by exists w').
  by destruct (Hlogger l).
Qed.

End WithHost.
End ConstructorProperties.

(** ** Texts without a directive *)


Module MatcherFacts.
Import Chars RegExp OptionsSpec RegExpFacts StripFacts MatcherVocabulary.

(** A starred pattern runs its loop with one more round than the text
    has code units. *)
Lemma run_star (ic g : bool) (r : regex) (k : continuation) (s : string)
    (pos : nat) (cs : captures) :
  run ic (Star g r) k s pos cs
  = star_loop (run ic r) (clear_captures (group_ids r)) g k
              (S (String.length s)) s pos cs.
Proof. reflexivity. Qed.

Section Invariant.
Variable Q : string → Prop.
Hypothesis Q_tail : ∀ c s, Q (String c s) → Q s.

(** The continuation of a match is called on a tail of the text: what
    holds of a text and of each of its tails holds where the continuation
    is called. *)
Lemma run_invariant (ic : bool) (r : regex) :
  ∀ k s pos cs res,
    Q s →
    run ic r k s pos cs = Some res →
    ∃ s' p' cs', Q s' ∧ k s' p' cs' = Some res.
Proof.
  induction r as [|c| |neg atoms|r1 IH1 r2 IH2|r1 IH1 r2 IH2|g r1 IH1|g r1 IH1|i r1 IH1];
    intros k s pos cs res HQ.
  - simpl. eauto.
  - simpl. destruct s as [|ch s']; [done|]. destruct (same_char ic c ch); [|done].
    intros Hk. exists s', (S pos), cs. split; [by eapply Q_tail|done].
  - simpl. destruct s as [|ch s']; [done|]. destruct (is_line_terminator ch); [done|].
    intros Hk. exists s', (S pos), cs. split; [by eapply Q_tail|done].
  - simpl. destruct s as [|ch s']; [done|].
    destruct (class_matches ic neg atoms ch); [|done].
    intros Hk. exists s', (S pos), cs. split; [by eapply Q_tail|done].
  - simpl. intros Hrun. apply IH1 in Hrun as (s1 & p1 & c1 & HQ1 & Hrun); [|done].
    exact (IH2 _ _ _ _ _ HQ1 Hrun).
  - simpl. destruct (run ic r1 k s pos cs) eqn:E1; simpl.
    + intros [= <-]. exact (IH1 _ _ _ _ _ HQ E1).
    + by apply IH2.
  - rewrite run_star. generalize (S (String.length s)). intros fuel.
    revert s pos cs res HQ.
    induction fuel as [|fuel IHf]; intros s pos cs res HQ.
    + simpl. destruct g; simpl; [eauto 6|].
      destruct (k s pos cs) eqn:Ek; simpl; [|done]. intros [= <-]. eauto 6.
    + cbn [star_loop].
      set (again := run ic r1 _ s pos _).
      assert (Hagain : ∀ res', again = Some res' →
                ∃ s' p' cs', Q s' ∧ k s' p' cs' = Some res').
      { intros res' Hrun. apply IH1 in Hrun as (s1 & p1 & c1 & HQ1 & Hrun); [|done].
        destruct (Nat.eqb p1 pos); [done|]. exact (IHf _ _ _ _ HQ1 Hrun). }
      destruct g.
      * destruct again eqn:E; simpl.
        -- intros [= <-]. by apply Hagain.
        -- eauto 6.
      * destruct (k s pos cs) eqn:Ek; simpl.
        -- intros [= <-]. eauto 6.
        -- apply Hagain.
  - simpl. set (once := run ic r1 _ s pos _).
    assert (Honce : ∀ res', once = Some res' →
              ∃ s' p' cs', Q s' ∧ k s' p' cs' = Some res').
    { intros res' Hrun. apply IH1 in Hrun as (s1 & p1 & c1 & HQ1 & Hrun); [|done].
      destruct (Nat.eqb p1 pos); [done|]. eauto 6. }
    destruct g.
    + destruct once eqn:E; simpl.
      * intros [= <-]. by apply Honce.
      * eauto 6.
    + destruct (k s pos cs) eqn:Ek; simpl.
      * intros [= <-]. eauto 6.
      * apply Honce.
  - simpl. intros Hrun. apply IH1 in Hrun as (s1 & p1 & c1 & HQ1 & Hrun); eauto 6.
Qed.

End Invariant.

Lemma lacks_tail (c ch : ascii) (s : string) : lacks c (String ch s) = true → lacks c s = true.
Proof. simpl. by intros [_ ?]%andb_prop. Qed.

Lemma same_char_brace (ic : bool) (ch : ascii) :
  same_char ic "{" ch = true → ch = "{"%char.
Proof.
  destruct ic;
    destruct ch as [[] [] [] [] [] [] [] []]; vm_compute; intros E; done.
Qed.

Lemma run_seq (ic : bool) (a b : regex) (k : continuation) (s : string)
    (pos : nat) (cs : captures) :
  run ic (Seq a b) k s pos cs
  = run ic a (fun s' p' c' => run ic b k s' p' c') s pos cs.
Proof. reflexivity. Qed.

Lemma brace_needed (ic : bool) (rest : regex) (k : continuation)
    (s : string) (pos : nat) (cs : captures) :
  lacks "{" s = true →
  run ic (Group 1 (Seq (Chr "{") rest)) k s pos cs = None.
Proof.
  destruct s as [|ch s]; [done|]. cbn [lacks run]. intros [Hne _]%andb_prop.
  destruct (same_char ic "{" ch) eqn:E; [|done].
  apply same_char_brace in E as ->. by rewrite Ascii.eqb_refl in Hne.
Qed.

(** A pattern that asks for an opening brace after three parts has no
    match in a text without one. *)
Lemma no_brace_no_match (ic : bool) (a b c body rest : regex) (s : string) (pos : nat) :
  lacks "{" s = true →
  match_here ic (Seq a (Seq b (Seq c (Seq (Group 1 (Seq (Chr "{") body)) rest)))) s pos
  = None.
Proof.
  intros Hs. unfold match_here.
  destruct (run ic _ _ s pos []) as [res|] eqn:E; [exfalso|done].
  rewrite run_seq in E.
  apply (run_invariant (λ s, lacks "{" s = true) (lacks_tail "{")) in E
    as (s1 & p1 & c1 & H1 & E); [|done].
  rewrite run_seq in E.
  apply (run_invariant (λ s, lacks "{" s = true) (lacks_tail "{")) in E
    as (s2 & p2 & c2 & H2 & E); [|done].
  rewrite run_seq in E.
  apply (run_invariant (λ s, lacks "{" s = true) (lacks_tail "{")) in E
    as (s3 & p3 & c3 & H3 & E); [|done].
  rewrite run_seq in E. by rewrite brace_needed in E.
Qed.

Lemma scan_without_match (ic : bool) (r : regex) (s : string) :
  (∀ s' pos, lacks "{" s' = true → match_here ic r s' pos = None) →
  lacks "{" s = true →
  ∀ pos skip, scan ic r s pos skip = [].
Proof.
  intros Hnone. induction s as [|ch s IH]; intros Hs pos skip.
  - destruct skip; [|done]. simpl. by rewrite Hnone.
  - pose proof (lacks_tail _ _ _ Hs) as Hs'.
    destruct skip as [|skip]; simpl; [|by apply IH].
    rewrite Hnone by done. by apply IH.
Qed.

Lemma config_regex_needs_brace (marker : regex) (s : string) :
  lacks "{" s = true →
  matchAll true (ScafflaterOptions.config_regex marker) s = [].
Proof.
  intros Hs. apply scan_without_match; [|done].
  intros s' pos Hs'. by apply no_brace_no_match.
Qed.

Lemma strip_regex_needs_brace (marker : regex) (s : string) :
  lacks "{" s = true →
  matchAll true (ScafflaterOptions.strip_regex marker) s = [].
Proof.
  intros Hs. apply scan_without_match; [|done].
  intros s' pos Hs'. by apply no_brace_no_match.
Qed.

Lemma erase_nothing (s : string) : ∀ pos, erase [] pos s = s.
Proof. induction s as [|c s IH]; intros pos; simpl; [done|]. by rewrite IH. Qed.

(** What [erase] returns is what is left of the text after dropping some
    of its code units. *)
Lemma erase_sublist (ms : list match_result) (s : string) :
  ∀ pos, sublist (String.list_ascii_of_string (erase ms pos s))
                 (String.list_ascii_of_string s).
Proof.
  induction s as [|c s IH]; intros pos; cbn [erase String.list_ascii_of_string]; [done|].
  destruct (covered ms pos); cbn [String.list_ascii_of_string].
  - by apply sublist_cons.
  - by apply sublist_skip.
Qed.

End MatcherFacts.

(** ** Resolution without directives, failures and logging *)

Module OptionsMoreFacts.
Import Json JS RegExp FsUtil ScafflaterOptions OptionsSpec HeapFacts ResolutionFacts
       FolderFacts ConstructorSpec ConstructorFacts MatcherVocabulary MatcherFacts.

Section WithHost.
Context `{Host}.

Lemma merge_configs_none regions str configs v w :
  surviving regions configs = [] →
  merge_configs regions str configs v w = (Return v, w).
Proof.
  induction configs as [|c rest IH]; [done|]. simpl.
  destruct (existsb (in_region (index c)) regions) eqn:Hin.
  - rewrite surviving_skip by done. apply IH.
  - by rewrite surviving_keep.
Qed.

Lemma fields_over_defaults (tprops : gmap string value) (p a c s : value) :
  has_fields tprops →
  delete "__proto__" tprops ∪ list_to_map (field_initialisers p a c s winston_logger)
  = delete "__proto__" tprops.
Proof.
  intros Hf. apply map_eq. intros k.
  assert (Hdm : ∀ k', is_Some ((list_to_map (field_initialisers p a c s winston_logger)
                                : gmap string value) !! k') ↔ k' ∈ field_names)
    by (intros k'; apply field_initialisers_lookup).
  destruct (decide (k = "__proto__")) as [->|Hne].
  - by rewrite lookup_union_r, (not_a_field _ Hdm), lookup_delete_eq
      by apply lookup_delete_eq.
  - rewrite lookup_union, !lookup_delete_ne, <- lookup_union by done.
    by apply OptionsProperties.union_fields.
Qed.

Lemma debug_mode_delete (tprops : gmap string value) :
  debug_mode (delete "__proto__" tprops) = debug_mode tprops.
Proof. unfold debug_mode. by rewrite lookup_delete_ne. Qed.

(** The constructor on a value with the properties of an instance that is
    not in debug mode: a new instance with the same properties, an own
    [__proto__] apart. *)
Lemma construct_copy (v : value) (tprops : gmap string value) (w : world) :
  allocated (heap w) v → own_props (heap w) v = tprops →
  has_fields tprops → debug_mode tprops = false →
  ∃ r w',
    new_ScafflaterOptions v w = (Return r, w')
    ∧ heap w !! r = None ∧ heap w ⊆ heap w' ∧ same_outside_heap w w'
    ∧ heap w' !! r = Some (Object OptionsInstance (delete "__proto__" tprops)).
Proof.
  intros Hv Hown Hf Hmode.
  destruct (new_ScafflaterOptions v w) as [r w'] eqn:Hrun.
  destruct (new_ScafflaterOptions_fields _ _ _ _ Hrun Hv)
    as (this & h & p & a & c & s & S & Hfresh & Hthis & _ & _ & _ & _ & O & Hm).
  unfold instance_props, assigned_props in *.
  rewrite Hown, fields_over_defaults in * by done.
  rewrite debug_mode_delete, Hmode in Hm. destruct Hm as [-> Hw']. subst h.
  by exists this, w'.
Qed.

(** A returned instance has properties. *)
Lemma constructed_has_keys (v : value) (w : world) (r : addr) (w' : world) :
  allocated (heap w) v →
  new_ScafflaterOptions v w = (Return r, w') →
  has_keys (heap w') (VRef r) = true.
Proof.
  intros Hv Hrun.
  destruct (new_ScafflaterOptions_fields _ _ _ _ Hrun Hv)
    as (this & h & p & a & c & s & S & Hfresh & Hthis & _ & _ & _ & _ & O & Hm).
  set (ps := instance_props (heap w) v p a c s) in *.
  assert (Hmode : is_Some (ps !! "mode"))
    by (unfold ps; rewrite instance_props_mode; by eexists).
  assert (Hkeys : ∀ o, heap w' !! this = Some o → is_Some (props o !! "mode") →
                       has_keys (heap w') (VRef this) = true).
  { intros o Ho [x Hx]. unfold has_keys, own_props. rewrite Ho.
    apply negb_true_iff, Nat.eqb_neq. intros Hsize.
    apply map_size_empty_iff in Hsize. by rewrite Hsize in Hx. }
  destruct (debug_mode ps).
  - destruct (ps !! "logger") as [[| | | | |l]|];
      try (by destruct Hm as [[=] _]).
    destruct (h !! l) as [o|] eqn:Hl; [|by destruct Hm as [[=] _]].
    destruct Hm as [[= ->] Hw'].
    destruct (decide (l = this)) as [->|Hne].
    + eapply Hkeys; [rewrite Hw'; apply lookup_insert_eq|]. cbn [props].
      rewrite Hthis in Hl. injection Hl as <-. cbn [props].
      rewrite lookup_insert_ne by done. done.
    + eapply Hkeys; [rewrite Hw', lookup_insert_ne by done; exact Hthis|done].
  - destruct Hm as [[= ->] Hw']. eapply Hkeys; [by rewrite Hw'|done].
Qed.

End WithHost.
End OptionsMoreFacts.

Module OptionsMoreProperties.
Import Json JS RegExp FsUtil ScafflaterOptions OptionsSpec HeapFacts ResolutionFacts
       FolderFacts ConstructorSpec ConstructorFacts MatcherVocabulary MatcherFacts
       OptionsMoreFacts.

Section WithHost.
Context `{Host}.

(** X6. A text all of whose directives lie in regions, or that has none,
    resolves to a copy of the receiver: for a receiver that is an instance
    not in debug mode, [getConfigFromString] returns a new instance with
    the receiver's properties, value for value, but for a property
    [__proto__], which the loop of the constructor does not carry over,
    and changes nothing the heap held, nor files, log or globals. *)
Theorem no_directive_copies_receiver (this : addr) (str : string) (w : world)
    (configs : list match_result) (regions : list Region)
    (tprops : gmap string value) :
  receiver w this tprops → has_fields tprops → debug_mode tprops = false →
  directives_of w this str = Return (configs, regions) →
  surviving regions configs = [] →
  ∃ r w',
    getConfigFromString this str w = (Return r, w')
    ∧ heap w !! r = None ∧ heap w ⊆ heap w' ∧ same_outside_heap w w'
    ∧ heap w' !! r = Some (Object OptionsInstance (delete "__proto__" tprops)).
Proof.
  intros [kd Hthis] Hf Hmode Hdir Hnone.
  rewrite getConfigFromString_unfold, Hdir.
  rewrite (bind_return _ _ _ _ _ (merge_configs_none _ _ _ _ _ Hnone)).
  apply construct_copy; [by eexists| |done|done].
  unfold own_props. by rewrite Hthis.
Qed.

(** X7. A text without an opening brace holds no directive: with a marker
    free of pattern syntax and a region scanner that returns,
    [getConfigFromString] on such a text returns a copy of the receiver,
    a property [__proto__] apart. *)
Theorem text_without_brace_copies_receiver (this : addr) (str : string) (w : world)
    (tprops : gmap string value) (marker : string) (regions : list Region) :
  receiver w this tprops → has_fields tprops → debug_mode tprops = false →
  tprops !! "optionMarker" = Some (VStr marker) →
  plain_marker marker = true →
  getRegions (heap w) (VRef this) str = Return regions →
  lacks "{" str = true →
  ∃ r w',
    getConfigFromString this str w = (Return r, w')
    ∧ heap w !! r = None ∧ heap w ⊆ heap w' ∧ same_outside_heap w w'
    ∧ heap w' !! r = Some (Object OptionsInstance (delete "__proto__" tprops)).
Proof.
  intros [kd Hthis] Hf Hmode Hmarker Hplain Hregions Hstr.
  assert (Hdir : directives_of w this str = Return ([], regions)).
  { unfold directives_of. rewrite (bind_return _ _ _ _ _ (get_ref_spec this _ w)).
    unfold own_props. rewrite Hthis. cbn [props]. rewrite Hmarker.
    cbn [default from_option id].
    unfold mbind, M_bind, new_RegExp, read_heap. cbn [to_string]. rewrite Hplain.
    rewrite Hregions. cbn [mret M_ret fst]. by rewrite config_regex_needs_brace. }
  rewrite getConfigFromString_unfold, Hdir.
  rewrite (bind_return _ _ _ _ _ (merge_configs_none _ _ [] _ _ eq_refl)).
  apply construct_copy; [by eexists| |done|done].
  unfold own_props. by rewrite Hthis.
Qed.



(** X10. A folder without a manifest resolves to a copy of the receiver: for
    a receiver that is an instance not in debug mode, [getFolderOptions]
    returns a new instance with the receiver's properties, a property
    [__proto__] apart, whatever the context is, and writes nothing to the
    log. *)
Theorem folder_without_manifest_copies_receiver (this : addr) (folderPath : string)
    (context : value) (w : world) (tprops : gmap string value) (f : string) :
  receiver w this tprops → has_fields tprops → debug_mode tprops = false →
  tprops !! "scfFileName" = Some (VStr f) →
  files w !! path_join folderPath f = None →
  ∃ r w',
    getFolderOptions this folderPath context w = (Return r, w')
    ∧ heap w !! r = None ∧ heap w ⊆ heap w' ∧ same_outside_heap w w'
    ∧ heap w' !! r = Some (Object OptionsInstance (delete "__proto__" tprops)).
Proof.
  intros [kd Hthis] Hf Hmode Hname Hfile. unfold getFolderOptions.
  destruct (spread_spec [VRef this] w) as (a0 & Es & Hfresh0).
  rewrite (bind_return _ _ _ _ _ Es). cbn [foldl] in *.
  rewrite (right_id_L ∅ (∪)) in *. unfold own_props at 1. rewrite Hthis. cbn [props].
  set (w0 := with_heap _ w).
  assert (S0 : heap w ⊆ heap w0) by (by apply insert_subseteq).
  assert (Hthis0 : heap w0 !! this = Some (Object kd tprops)) by by eapply lookup_weaken.
  rewrite (bind_return _ _ _ _ _ (get_ref_spec this "scfFileName" w0)).
  unfold own_props at 1. rewrite Hthis0. cbn [props]. rewrite Hname.
  cbn [default from_option id join]. rewrite bind_mret.
  rewrite (bind_return _ _ _ _ _ (pathExists_spec _ w0)).
  change (files w0) with (files w). rewrite Hfile.
  rewrite bool_decide_eq_false_2 by (by intros [? ?]). rewrite bind_mret.
  destruct (construct_copy (VRef a0) tprops w0) as (r & w' & Hrun & Hr & S & O & Hps);
    [by eexists; apply lookup_insert_eq | | done | done |].
  { unfold own_props, w0. cbn [heap with_heap]. by rewrite lookup_insert_eq. }
  exists r, w'. split; [done|]. split; [by eapply lookup_weaken_None|].
  split; [by etrans|]. split; [|done].
  by eapply same_outside_heap_trans.
Qed.

(** X11. Folder options that are not empty are logged through the context:
    where the manifest of the folder is an object whose [options] is an
    object with a member, [getFolderOptions] with a context that is
    [undefined] throws TypeError, having changed nothing the heap held,
    nor files, log or globals. *)
Theorem folder_options_need_context (this : addr) (folderPath : string) (w : world)
    (tprops : gmap string value) (f text : string)
    (ms folder : list (string * json)) :
  receiver w this tprops →
  tprops !! "scfFileName" = Some (VStr f) →
  files w !! path_join folderPath f = Some text →
  readJSON_parse text = Some (JObj ms) →
  member_last "options" ms = Some (JObj folder) →
  folder ≠ [] →
  ∃ w',
    getFolderOptions this folderPath VUndefined w = (Throw TypeError, w')
    ∧ heap w ⊆ heap w' ∧ same_outside_heap w w'.
Proof.
  intros [kd Hthis] Hname Hfile Hparse Hoptions Hne. unfold getFolderOptions.
  destruct (spread_spec [VRef this] w) as (a0 & Es & Hfresh0).
  rewrite (bind_return _ _ _ _ _ Es).
  set (w0 := with_heap _ w).
  assert (S0 : heap w ⊆ heap w0) by (by apply insert_subseteq).
  assert (Hthis0 : heap w0 !! this = Some (Object kd tprops)) by by eapply lookup_weaken.
  assert (O0 : same_outside_heap w w0) by done.
  assert (F0 : files w0 = files w) by done.
  clearbody w0.
  rewrite (bind_return _ _ _ _ _ (get_ref_spec this "scfFileName" w0)).
  unfold own_props at 1. rewrite Hthis0. cbn [props]. rewrite Hname.
  cbn [default from_option id join]. rewrite bind_mret.
  rewrite (bind_return _ _ _ _ _ (pathExists_spec _ w0)).
  rewrite F0, Hfile. rewrite bool_decide_eq_true_2 by (by eexists).
  rewrite bind_assoc. unfold readJSON. rewrite bind_assoc.
  assert (Eread : readFileContent (path_join folderPath f) w0 = (Return text, w0)).
  { unfold readFileContent. by rewrite F0, Hfile. }
  rewrite (bind_return _ _ _ _ _ Eread), Hparse.
  destruct (alloc_json_spec (JObj ms) w0) as (info & w2 & Ei & S2 & O2 & Di).
  rewrite (bind_return _ _ _ _ _ Ei). rewrite bind_assoc.
  pose proof (denotes_own_props _ _ _ Di "options") as Ho.
  rewrite <- (own_props_mono (heap w2 ∖ heap w0) (heap w2)) in Ho;
    [|apply difference_subseteq|by eapply denotes_allocated].
  unfold doc_sets in Ho. cbn [members_of] in Ho. rewrite Hoptions in Ho.
  destruct Ho as (vo & Hvo & Dvo).
  destruct Di as (a & ps & -> & _).
  rewrite (bind_return _ _ _ _ _ (get_ref_spec a "options" w2)).
  rewrite Hvo. cbn [default from_option id].
  rewrite (denotes_truthy _ _ _ Dvo). cbn [Json.truthy].
  rewrite bind_assoc. rewrite (bind_return _ _ w2 w2 w2) by done.
  assert (Hkeys : has_keys (heap w2) vo = true).
  { destruct folder as [|[k0 x0] rest]; [done|].
    pose proof (denotes_own_props _ _ _ Dvo k0) as Hk.
    rewrite <- (own_props_mono (heap w2 ∖ heap w0) (heap w2)) in Hk;
      [|apply difference_subseteq|by eapply denotes_allocated].
    unfold doc_sets in Hk. cbn [members_of member_last] in Hk.
    rewrite String.eqb_refl in Hk.
    assert (Hsome : ∃ vk, own_props (heap w2) vo !! k0 = Some vk).
    { destruct (member_last k0 rest); destruct Hk as (vk & Hvk & _); eauto. }
    destruct Hsome as [vk Hvk]. unfold has_keys.
    apply negb_true_iff, Nat.eqb_neq. intros Hsize.
    apply map_size_empty_iff in Hsize. by rewrite Hsize in Hvk. }
  rewrite Hkeys. exists w2. split; [reflexivity|].
  split; [by etrans|]. by eapply same_outside_heap_trans.
Qed.

(** X12. Stripping only takes away: whatever the marker, what [stripConfig]
    returns is what is left of the text after dropping some of its code
    units, the others kept in order; and the call changes no state. *)
Theorem stripConfig_only_deletes (this : addr) (str : string) (w : world)
    (out : string) (w' : world) :
  stripConfig this str w = (Return out, w') →
  sublist (String.list_ascii_of_string out) (String.list_ascii_of_string str)
  ∧ w' = w.
Proof.
  unfold stripConfig. intros Hrun.
  rewrite (bind_return _ _ _ _ _ (get_ref_spec this _ w)) in Hrun.
  destruct (new_RegExp_pure strip_source strip_regex
              (default VUndefined (own_props (heap w) (VRef this) !! "optionMarker")) w)
    as [[re|e] Hre].
  - rewrite (bind_return _ _ _ _ _ Hre) in Hrun. injection Hrun as <- <-.
    split; [|done]. rewrite StripFacts.replace_all_erases. apply erase_sublist.
  - by rewrite (bind_throw _ _ _ _ _ Hre) in Hrun.
Qed.

(** X13. A text without an opening brace is stripped of nothing: with a
    marker free of pattern syntax, [stripConfig] returns it as it is. *)
Theorem stripConfig_keeps_text_without_brace (this : addr) (str : string) (w : world)
    (tprops : gmap string value) (marker : string) :
  receiver w this tprops →
  tprops !! "optionMarker" = Some (VStr marker) →
  plain_marker marker = true →
  lacks "{" str = true →
  stripConfig this str w = (Return str, w).
Proof.
  intros [kd Hthis] Hmarker Hplain Hstr. unfold stripConfig.
  rewrite (bind_return _ _ _ _ _ (get_ref_spec this _ w)).
  unfold own_props. rewrite Hthis. cbn [props]. rewrite Hmarker.
  cbn [default from_option id].
  unfold mbind, M_bind, new_RegExp. cbn [to_string]. rewrite Hplain.
  cbn [mret M_ret]. rewrite StripFacts.replace_all_erases.
  by rewrite strip_regex_needs_brace, erase_nothing.
Qed.

End WithHost.
End OptionsMoreProperties.

(** ** Objects as lists of members *)

Module MemberFacts.
Import Json FsDocs ConfigProviderFacts.

Lemma set_member_keys (k : string) (v : json) (ms : list (string * json)) :
  (set_member k v ms).*1 = if bool_decide (k ∈ ms.*1) then ms.*1 else ms.*1 ++ [k].
Proof.
  induction ms as [|[k' v'] ms IH]; [done|]. cbn [set_member].
  destruct (String.eqb k' k) eqn:E; rewrite !fmap_cons; cbn [fst].
  - apply String.eqb_eq in E as ->.
    by rewrite bool_decide_eq_true_2 by left.
  - apply String.eqb_neq in E. rewrite IH.
    destruct (bool_decide (k ∈ ms.*1)) eqn:Hin.
    + apply bool_decide_eq_true_1 in Hin.
      by rewrite bool_decide_eq_true_2 by (by right).
    + apply bool_decide_eq_false_1 in Hin.
      rewrite bool_decide_eq_false_2; [done|].
      intros [?|?]%elem_of_cons; congruence.
Qed.

Lemma set_member_new (k : string) (v : json) (ms : list (string * json)) :
  k ∉ ms.*1 → set_member k v ms = ms ++ [(k, v)].
Proof.
  induction ms as [|[k' v'] ms IH]; [done|]. rewrite fmap_cons. cbn [fst set_member].
  intros Hnotin. apply not_elem_of_cons in Hnotin as [Hne Hnotin].
  rewrite (proj2 (String.eqb_neq _ _)) by done. by rewrite IH.
Qed.

Lemma set_member_same (k : string) (v : json) (ms : list (string * json)) :
  member k ms = Some v → set_member k v ms = ms.
Proof.
  unfold member. induction ms as [|[k' v'] ms IH]; simpl; [done|].
  destruct (String.eqb k' k) eqn:E; simpl.
  - apply String.eqb_eq in E as ->. by intros [= ->].
  - intros Hm. by rewrite IH.
Qed.

Lemma set_member_NoDup (k : string) (v : json) (ms : list (string * json)) :
  NoDup ms.*1 → NoDup (set_member k v ms).*1.
Proof.
  intros Hnd. rewrite set_member_keys. case_bool_decide; [done|].
  apply NoDup_app. split; [done|]. split; [|apply NoDup_singleton].
  intros x Hx ->%list_elem_of_singleton. done.
Qed.

Lemma spread_members_NoDup (a b : list (string * json)) :
  NoDup a.*1 → NoDup (spread_members a b).*1.
Proof.
  unfold spread_members. revert a. induction b as [|[k v] b IH]; intros a Ha; [done|].
  simpl. apply IH. by apply set_member_NoDup.
Qed.

Lemma spread_members_append (a b : list (string * json)) :
  NoDup (a ++ b).*1 → spread_members a b = a ++ b.
Proof.
  unfold spread_members. revert a.
  induction b as [|[k v] b IH]; intros a Hnd; simpl; [by rewrite app_nil_r|].
  rewrite set_member_new.
  - rewrite IH; rewrite <- app_assoc; done.
  - rewrite fmap_app in Hnd. apply NoDup_app in Hnd as (_ & Hdis & _).
    intros Hin. apply (Hdis k Hin). by left.
Qed.

(** Spreading an object with distinct names into an empty one copies it. *)
Lemma spread_members_copy (ms : list (string * json)) :
  NoDup ms.*1 → spread_members [] ms = ms.
Proof. intros Hnd. by rewrite spread_members_append. Qed.

Lemma member_elem (k : string) (v : json) (ms : list (string * json)) :
  NoDup ms.*1 → (k, v) ∈ ms → member k ms = Some v.
Proof.
  unfold member. induction ms as [|[k' v'] ms IH]; simpl; [by intros _ ?%elem_of_nil|].
  intros [Hnotin Hnd]%NoDup_cons [[= -> ->]|Hin]%elem_of_cons.
  - by rewrite String.eqb_refl.
  - destruct (String.eqb k' k) eqn:E; [|by apply IH].
    apply String.eqb_eq in E as ->. exfalso. apply Hnotin.
    apply list_elem_of_fmap. by exists (k, v).
Qed.

(** Spreading into an object what it already holds changes nothing. *)
Lemma spread_members_same (a b : list (string * json)) :
  Forall (λ e, member e.1 a = Some e.2) b → spread_members a b = a.
Proof.
  unfold spread_members. induction 1 as [|[k v] b Hkv _ IH]; [done|].
  simpl in *. by rewrite set_member_same.
Qed.

(** The lookup of a spread of objects with distinct names. *)
Lemma member_spread (k : string) (a b : list (string * json)) :
  NoDup b.*1 →
  member k (spread_members a b)
  = match member k b with Some x => Some x | None => member k a end.
Proof. intros Hnd. by rewrite member_spread_members, member_last_NoDup. Qed.

End MemberFacts.

Module ConfigProviderProperties.
Import Json FsDocs ConfigProvider ConfigProviderFacts MemberFacts.

Section WithPaths.
Context `{Paths}.

(** X14. Without something to merge, [mergeFolderConfig] hands back a copy
    of the configuration: when the folder has no manifest, or has one
    whose [config] is missing or falsy, the result has the members of the
    configuration, and no file is touched. *)
Theorem mergeFolderConfig_without_folder_config (folderPath f : string)
    (cms : list (string * json)) (w : fs) :
  NoDup cms.*1 →
  member "scfFileName" cms = Some (JStr f) →
  (w !! path_join2 folderPath f = None
   ∨ ∃ info, w !! path_join2 folderPath f = Some (Doc (JObj info))
             ∧ truthy (member "config" info) = false) →
  mergeFolderConfig folderPath (Some (JObj cms)) w = (Return cms, w).
Proof.
  intros Hnd Hname Hcase. unfold mergeFolderConfig. cbn [get own_members].
  rewrite FolderFacts.bind_mret, Hname. cbn [join]. rewrite FolderFacts.bind_mret.
  rewrite spread_members_copy by done.
  erewrite bind_return; [|reflexivity].
  destruct Hcase as [Hnone | (info & Hfile & Hfalsy)].
  - rewrite Hnone. by rewrite bool_decide_eq_false_2 by (by intros [? ?]).
  - rewrite Hfile. rewrite bool_decide_eq_true_2 by (by eexists).
    erewrite bind_return; [|unfold readJsonSync; by rewrite Hfile].
    cbn [get]. rewrite FolderFacts.bind_mret. by rewrite Hfalsy.
Qed.

(** X15. A configuration that carries no file name as a string makes
    [mergeFolderConfig] throw TypeError before any file is looked at:
    [undefined], [null], a value that is no object, or an object whose
    [scfFileName] is missing or no string. *)
Theorem mergeFolderConfig_needs_file_name (folderPath : string) (config : jsval)
    (w : fs) :
  (∀ ms f, config = Some (JObj ms) → member "scfFileName" ms ≠ Some (JStr f)) →
  mergeFolderConfig folderPath config w = (Throw TypeError, w).
Proof.
  intros Hname. unfold mergeFolderConfig.
  destruct config as [[| | | | |ms]|]; try reflexivity.
  cbn [get]. rewrite FolderFacts.bind_mret.
  destruct (member "scfFileName" ms) as [[| | |f| |]|] eqn:E; try reflexivity.
  by destruct (Hname ms f).
Qed.

(** X16. Merging the folder's configuration is idempotent: where the
    manifest of the folder holds an object under [config] that does not
    rename the manifest file, merging it into the result of merging it
    gives that result again. *)
Theorem mergeFolderConfig_idempotent (folderPath f : string)
    (cms info folder : list (string * json)) (w : fs) :
  NoDup cms.*1 → NoDup folder.*1 →
  member "scfFileName" cms = Some (JStr f) →
  w !! path_join2 folderPath f = Some (Doc (JObj info)) →
  member "config" info = Some (JObj folder) →
  member "scfFileName" folder = None →
  ∃ result,
    mergeFolderConfig folderPath (Some (JObj cms)) w = (Return result, w)
    ∧ mergeFolderConfig folderPath (Some (JObj result)) w = (Return result, w).
Proof.
  intros Hnd1 Hnd2 Hname Hfile Hconfig Hkeep.
  assert (Hmerge : ∀ ms, NoDup ms.*1 → member "scfFileName" ms = Some (JStr f) →
            mergeFolderConfig folderPath (Some (JObj ms)) w
            = (Return (spread_members ms folder), w)).
  { intros ms Hnd Hms. unfold mergeFolderConfig. cbn [get own_members].
    rewrite FolderFacts.bind_mret, Hms. cbn [join]. rewrite FolderFacts.bind_mret.
    rewrite spread_members_copy by done.
    erewrite bind_return; [|reflexivity]. rewrite Hfile.
    rewrite bool_decide_eq_true_2 by (by eexists).
    erewrite bind_return; [|unfold readJsonSync; by rewrite Hfile].
    cbn [get]. rewrite FolderFacts.bind_mret, Hconfig. reflexivity. }
  exists (spread_members cms folder). split; [by apply Hmerge|].
  rewrite Hmerge.
  - f_equal. f_equal. apply spread_members_same. apply Forall_forall.
    intros [k v] Hkv. cbn [fst snd]. rewrite member_spread by done.
    by rewrite (member_elem _ _ _ Hnd2 Hkv).
  - by apply spread_members_NoDup.
  - by rewrite member_spread, Hkeep.
Qed.

End WithPaths.
End ConfigProviderProperties.

(** ** The first manifest *)

Module InitFacts.
Import Json FsDocs Scafflater ManifestSpec ScafflaterFacts.

Section WithCollaborators.
Context `{Paths} `{Collaborators}.

(** The manifest after a run of [runPartial] that found the manifest
    [ms]: with one more record when the run returns, as found when it
    throws. *)
Lemma runPartial_manifest (config : list (string * json)) (partialPath : string)
    (parameters : json) (targetPath file : string) (w : fs)
    (ms : list (string * json)) (r : outcome unit) (w' : fs) :
  member "scfFileName" config = Some (JStr file) →
  (∀ a b c, preserves (path_join2 targetPath file) (getPartial a b c)) →
  (∀ a b, preserves (path_join2 targetPath file) (getTemplatePath a b)) →
  (∀ ctx, preserves (path_join2 targetPath file) (generate ctx)) →
  w !! path_join2 targetPath file = Some (Doc (JObj ms)) →
  runPartial config partialPath parameters targetPath w = (r, w') →
  w' !! path_join2 targetPath file
  = Some (Doc (JObj
      match r with
      | Return _ =>
          set_member "partials"
            (JArr (partials_of ms ++
                   [applied_record (template_name ms) partialPath parameters])) ms
      | Throw _ => ms
      end)).
Proof.
  intros Hfile HgetPartial HgetTemplatePath Hgenerate Hms Hrun.
  unfold runPartial in Hrun. rewrite Hfile in Hrun.
  cbn [join] in Hrun. rewrite FolderFacts.bind_mret in Hrun.
  set (manifest := path_join2 targetPath file) in *.
  erewrite bind_return in Hrun; [|unfold readJsonSync; by rewrite Hms].
  step Hrun.
  { by apply get_pure in Hm as ->. }
  apply get_returns in Hm as (-> & _ & _ & ->).
  step Hrun.
  { by apply get_pure in Hm as ->. }
  apply get_returns in Hm as (-> & _ & _ & ->).
  step Hrun.
  { by apply get_pure in Hm as ->. }
  apply get_returns in Hm as (-> & _ & _ & ->).
  step Hrun.
  { apply HgetPartial in Hm. congruence. }
  pose proof (HgetPartial _ _ _ _ _ _ Hm) as F1.
  step Hrun.
  { apply HgetTemplatePath in Hm0. congruence. }
  pose proof (HgetTemplatePath _ _ _ _ _ Hm0) as F2.
  step Hrun.
  { apply join_pure in Hm1 as ->. congruence. }
  apply join_pure in Hm1 as ->.
  step Hrun.
  { apply readJsonSync_pure in Hm1 as ->. congruence. }
  apply readJsonSync_pure in Hm1 as ->.
  step Hrun.
  { apply get_pure in Hm1 as ->. congruence. }
  apply get_pure in Hm1 as ->.
  step Hrun.
  { apply get_pure in Hm1 as ->. congruence. }
  apply get_pure in Hm1 as ->.
  step Hrun.
  { pose proof (Hgenerate _ _ _ _ Hm1). congruence. }
  pose proof (Hgenerate _ _ _ _ Hm1) as F3.
  destruct a5.
  assert (Hkept : w2 !! manifest = Some (Doc (JObj ms))) by congruence.
  simpl in Hrun.
  unfold mbind at 1, M_bind, mret, M_ret in Hrun.
  destruct (truthy (member "partials" ms)) eqn:Htruthy.
  - simpl in Hrun. unfold mbind, M_bind, mret, M_ret in Hrun.
    destruct (member "partials" ms) as [[| | | |items|]|] eqn:Hpartials;
      try (by injection Hrun as <- <-).
    unfold writeJSONSync in Hrun. injection Hrun as <- <-.
    unfold manifest, fs in *. rewrite lookup_insert_eq. unfold partials_of, template_name.
    by rewrite Hpartials.
  - simpl in Hrun. rewrite member_set_member in Hrun.
    unfold mbind, M_bind, mret, M_ret in Hrun. simpl in Hrun.
    rewrite set_member_twice in Hrun.
    unfold writeJSONSync in Hrun. injection Hrun as <- <-.
    unfold manifest, fs in *. rewrite lookup_insert_eq. unfold partials_of, template_name.
    by destruct (member "partials" ms) as [[]|].
Qed.

End WithCollaborators.
End InitFacts.

Module ScafflaterProperties.
Import Json FsDocs Scafflater ManifestSpec ScafflaterFacts ConfigProviderFacts
       MemberFacts InitFacts.

(** X20. The configuration of a new [Scafflater]: each member of the object
    handed to the constructor stands for the provider's default of that
    name, every other default stays; [undefined] and [null] give the
    defaults as they are. *)
Theorem constructor_config_over_defaults (ms : list (string * json)) (k : string) :
  NoDup ms.*1 →
  member k (new_config (Some (JObj ms)))
  = match member k ms with
    | Some x => Some x
    | None => member k ConfigProvider.new_ConfigProvider
    end
  ∧ new_config None = ConfigProvider.new_ConfigProvider
  ∧ new_config (Some JNull) = ConfigProvider.new_ConfigProvider.
Proof.
  intros Hnd. split; [|split; reflexivity].
  unfold new_config. cbn [own_members]. by rewrite member_spread.
Qed.

Section WithCollaborators.
Context `{Paths} `{Collaborators}.

(** X21. [init] starts the manifest afresh.  With a template manager and a
    generator that leave the manifest file alone: either the template was
    not found, [getTemplate] having thrown or given [undefined] or [null],
    and [init] has written nothing; or the manifest holds a copy of the
    template's [config] and, as its partials, the one record of the
    [_init] partial when [init] returns and none when it throws.  What the
    manifest held before is gone either way. *)
Theorem init_starts_manifest (config : list (string * json)) (sourceKey : string)
    (parameters : json) (targetPath file : string) (w : fs)
    (r : outcome unit) (w' : fs) :
  member "scfFileName" config = Some (JStr file) →
  (∀ a b c, preserves (path_join2 targetPath file) (getPartial a b c)) →
  (∀ a b, preserves (path_join2 targetPath file) (getTemplatePath a b)) →
  (∀ ctx, preserves (path_join2 targetPath file) (generate ctx)) →
  init config sourceKey parameters targetPath w = (r, w') →
  (∃ e, r = Throw e
        ∧ (getTemplate sourceKey w = (Throw e, w')
           ∨ e = TypeError
             ∧ (getTemplate sourceKey w = (Return None, w')
                ∨ getTemplate sourceKey w = (Return (Some JNull), w'))))
  ∨ ∃ tc w1,
      getTemplate sourceKey w = (Return tc, w1)
      ∧ let t := spread_members []
                   (own_members match tc with
                                | Some (JObj tms) => member "config" tms
                                | _ => None
                                end) in
        w' !! path_join2 targetPath file
        = Some (Doc (JObj
            [ ("template", JObj t);
              ("partials",
               JArr match r with
                    | Return _ => [applied_record (member "name" t) "_init" parameters]
                    | Throw _ => []
                    end) ])).
Proof.
  intros Hfile HgetPartial HgetTemplatePath Hgenerate Hrun. unfold init in Hrun.
  step Hrun.
  { left. exists e. eauto. }
  step Hrun.
  { left. exists e. split; [done|]. right.
    destruct a as [[]|]; cbn [get] in Hm0; try discriminate;
      injection Hm0 as <- <-; eauto. }
  apply get_returns in Hm0 as (-> & _ & _ & ->).
  rewrite Hfile in Hrun. cbn [join] in Hrun. rewrite FolderFacts.bind_mret in Hrun.
  unfold writeJSONSync at 1 in Hrun.
  erewrite bind_return in Hrun; [|reflexivity].
  right. exists a, w0. split; [done|]. cbn zeta.
  set (t := spread_members [] _) in *.
  set (fresh := [("template", JObj t); ("partials", JArr [])]) in *.
  assert (Hms : (<[path_join2 targetPath file := Doc (JObj fresh)]> w0 : fs)
                !! path_join2 targetPath file = Some (Doc (JObj fresh)))
    by (unfold fs; apply lookup_insert_eq).
  rewrite (runPartial_manifest _ _ _ _ _ _ _ _ _ Hfile HgetPartial HgetTemplatePath
             Hgenerate Hms Hrun).
  destruct r; reflexivity.
Qed.

End WithCollaborators.
End ScafflaterProperties.

(** ** Directives of [ConfigProvider] *)

Module DirectivesFacts.
Import Json RegExp OptionsSpec ConfigDirectives DirectivesSpec MatcherFacts ConfigProviderFacts.

Lemma read_assign_eq (k : string) (v : jsval) (o : properties) :
  read k (assign k v o) = v.
Proof.
  unfold read. induction o as [|[k' v'] o IH]; simpl.
  - by rewrite String.eqb_refl.
  - destruct (String.eqb k' k) eqn:E; simpl; rewrite ?E, ?String.eqb_refl; done.
Qed.

Lemma read_assign_ne (k k' : string) (v : jsval) (o : properties) :
  k' ≠ k → read k (assign k' v o) = read k o.
Proof.
  intros Hne. unfold read. induction o as [|[k0 v0] o IH]; simpl.
  - by rewrite (proj2 (String.eqb_neq _ _) Hne).
  - destruct (String.eqb k0 k') eqn:E0; simpl.
    + apply String.eqb_eq in E0 as ->.
      by rewrite (proj2 (String.eqb_neq _ _) Hne).
    + destruct (String.eqb k0 k); [done|]. apply IH.
Qed.

Lemma present_assign_eq (k : string) (v : jsval) (o : properties) :
  present k (assign k v o) = true.
Proof.
  unfold present. induction o as [|[k' v'] o IH]; simpl.
  - by rewrite String.eqb_refl.
  - destruct (String.eqb k' k) eqn:E; simpl; rewrite ?E, ?String.eqb_refl; done.
Qed.

Lemma present_assign_ne (k k' : string) (v : jsval) (o : properties) :
  k' ≠ k → present k (assign k' v o) = present k o.
Proof.
  intros Hne. unfold present. induction o as [|[k0 v0] o IH]; simpl.
  - by rewrite (proj2 (String.eqb_neq _ _) Hne).
  - destruct (String.eqb k0 k') eqn:E0; simpl.
    + apply String.eqb_eq in E0 as ->.
      by rewrite (proj2 (String.eqb_neq _ _) Hne).
    + by rewrite IH.
Qed.

Lemma read_absent (k : string) (o : properties) : present k o = false → read k o = None.
Proof.
  unfold present, read. induction o as [|[k0 v0] o IH]; simpl; [done|].
  destruct (String.eqb k0 k); [done|]. apply IH.
Qed.

(** Spreading properties over an object: a property that is there wins,
    be it [undefined]. *)
Lemma read_spread_properties (k : string) (b : properties) :
  ∀ a : properties,
    read k (fold_left (fun acc e => assign (fst e) (snd e) acc) b a)
    = fold_left (fun acc e => if String.eqb (fst e) k then snd e else acc) b (read k a).
Proof.
  induction b as [|[k' v] b IH]; intros a; simpl; [done|]. rewrite IH. f_equal.
  destruct (String.eqb k' k) eqn:E.
  - apply String.eqb_eq in E as ->. apply read_assign_eq.
  - apply String.eqb_neq in E. by apply read_assign_ne.
Qed.

Lemma read_lifted (k : string) (a : list (string * json)) :
  ∀ acc : properties,
    read k (fold_left (fun acc e => assign (fst e) (Some (snd e)) acc) a acc)
    = match member_last k a with
      | Some x => Some x
      | None => read k acc
      end.
Proof.
  induction a as [|[k' x] a IH]; intros acc; simpl; [done|].
  rewrite IH. destruct (member_last k a); [done|].
  destruct (String.eqb k' k) eqn:E.
  - apply String.eqb_eq in E as ->. apply read_assign_eq.
  - apply String.eqb_neq in E. by apply read_assign_ne.
Qed.

Lemma fold_absent (k : string) (b : properties) (init : jsval) :
  present k b = false →
  fold_left (fun acc e => if String.eqb (fst e) k then snd e else acc) b init = init.
Proof.
  unfold present. revert init. induction b as [|[k' v] b IH]; intros init; simpl; [done|].
  destruct (String.eqb k' k); [done|]. apply IH.
Qed.


Lemma assign_keys (k : string) (v : jsval) (o : properties) :
  (assign k v o).*1 = if bool_decide (k ∈ o.*1) then o.*1 else o.*1 ++ [k].
Proof.
  induction o as [|[k' v'] o IH]; [done|]. cbn [assign].
  destruct (String.eqb k' k) eqn:E; rewrite !fmap_cons; cbn [fst].
  - apply String.eqb_eq in E as ->.
    by rewrite bool_decide_eq_true_2 by left.
  - apply String.eqb_neq in E. rewrite IH.
    destruct (bool_decide (k ∈ o.*1)) eqn:Hin.
    + apply bool_decide_eq_true_1 in Hin.
      by rewrite bool_decide_eq_true_2 by (by right).
    + apply bool_decide_eq_false_1 in Hin.
      rewrite bool_decide_eq_false_2; [done|].
      intros [?|?]%elem_of_cons; congruence.
Qed.

Lemma assign_distinct (k : string) (v : jsval) (o : properties) :
  distinct o → distinct (assign k v o).
Proof.
  unfold distinct. intros Hnd. rewrite assign_keys. case_bool_decide; [done|].
  apply NoDup_app. split; [done|]. split; [|apply NoDup_singleton].
  intros x Hx ->%list_elem_of_singleton. done.
Qed.

Lemma fold_distinct (k : string) (b : properties) (init : jsval) :
  distinct b → present k b = true →
  fold_left (fun acc e => if String.eqb (fst e) k then snd e else acc) b init
  = read k b.
Proof.
  unfold distinct, present, read. revert init.
  induction b as [|[k' v] b IH]; intros init; [done|].
  rewrite fmap_cons. intros [Hnotin Hnd]%NoDup_cons. cbn [existsb List.find fold_left fst snd].
  destruct (String.eqb k' k) eqn:E.
  - intros _. apply String.eqb_eq in E as ->.
    apply (fold_absent k b v). unfold present.
    apply not_true_is_false. intros (e & Hin & He)%existsb_exists.
    apply String.eqb_eq in He. apply Hnotin. apply list_elem_of_fmap.
    exists e. split; [done|]. by apply list_elem_of_In.
  - cbn [orb]. by apply IH.
Qed.

Section WithHost.
Context `{Host} `{ParseErrors}.

(** A name no match assigns to is left as it was. *)
Lemma collect_untouched (filePath fileContent : string) (k : string)
    (configs : list match_result) :
  ∀ acc out,
    Forall (λ c, directive_key fileContent c ≠ k) configs →
    collect filePath fileContent configs acc = Return out →
    read k out = read k acc ∧ present k out = present k acc.
Proof.
  induction configs as [|c rest IH]; intros acc out Hne; cbn [collect].
  - by intros [= <-].
  - apply Forall_cons in Hne as [Hc Hne].
    destruct (directive_value _ _ _) as [v|]; [|done].
    intros Hrun. destruct (IH _ _ Hne Hrun) as [-> ->].
    unfold assign_directive. destruct (String.eqb _ "__proto__"); [done|].
    fold (directive_key fileContent c).
    by rewrite read_assign_ne, present_assign_ne.
Qed.

(** What the loop leaves under a name other than [__proto__], given what
    was there: the value of the last match of that name. *)
Lemma collect_read (filePath fileContent : string) (k : string)
    (configs : list match_result) :
  k ≠ "__proto__" →
  ∀ acc out,
    collect filePath fileContent configs acc = Return out →
    (distinct acc → distinct out)
    ∧ Forall (λ c, ∃ v, directive_gives filePath fileContent c = Return v) configs
    ∧ ∀ sooner c later v,
        configs = sooner ++ c :: later →
        directive_key fileContent c = k →
        Forall (λ c', directive_key fileContent c' ≠ k) later →
        directive_gives filePath fileContent c = Return v →
        read k out = v ∧ present k out = true.
Proof.
  intros Hk. induction configs as [|c0 rest IH]; intros acc out; cbn [collect].
  - intros [= <-]. split; [done|]. split; [done|].
    intros sooner c later v Hsplit. by destruct sooner.
  - fold (directive_gives filePath fileContent c0).
    destruct (directive_gives filePath fileContent c0) as [v0|e] eqn:Hv0; [|done].
    intros Hrun. destruct (IH _ _ Hrun) as (Hnd & Hall & Hlast).
    split.
    { intros Hacc. apply Hnd. unfold assign_directive.
      destruct (String.eqb _ "__proto__"); [done|]. by apply assign_distinct. }
    split; [constructor; eauto|].
    intros sooner c later v Hsplit Hkey Hlater Hv.
    destruct sooner as [|c1 sooner]; injection Hsplit as -> ->; [|by eapply Hlast].
    rewrite Hv in Hv0. injection Hv0 as <-.
    unfold assign_directive in Hrun. fold (directive_key fileContent c) in Hrun.
    rewrite Hkey, (proj2 (String.eqb_neq _ _) Hk) in Hrun.
    destruct (collect_untouched _ _ k _ _ _ Hlater Hrun) as [-> ->].
    by rewrite read_assign_eq, present_assign_eq.
Qed.

(** The error the loop throws: for a match named [processors] or
    [appenders], with the name and the file in its message. *)
Lemma collect_error (filePath fileContent : string) (configs : list match_result) :
  ∀ acc e,
    collect filePath fileContent configs acc = Throw e →
    ∃ c,
      c ∈ configs
      ∧ (directive_key fileContent c = "processors"
         ∨ directive_key fileContent c = "appenders")
      ∧ JSON_parse (group_string (group_text fileContent c 2)) = None
      ∧ e = Error ("Could not parse option '" +:+ directive_key fileContent c
                   +:+ "' on file '" +:+ filePath +:+ "': "
                   +:+ JSON_parse_error (group_string (group_text fileContent c 2))).
Proof.
  induction configs as [|c rest IH]; intros acc e; cbn [collect]; [done|].
  destruct (directive_value _ _ _) as [v|e'] eqn:Hv.
  - intros Hrun. destruct (IH _ _ Hrun) as (c' & Hin & Hrest).
    exists c'. split; [by right|done].
  - intros [= <-]. exists c. split; [by left|]. unfold directive_value in Hv.
    unfold directive_key.
    destruct (is_text _ "processors" || is_text _ "appenders") eqn:Hname.
    + destruct (JSON_parse _) eqn:Hparse; [done|]. injection Hv as <-.
      split; [|done]. apply orb_prop in Hname as [Hn|Hn];
        destruct (group_text fileContent c 1) as [n|]; try done;
        apply String.eqb_eq in Hn as ->; eauto.
    + by destruct (is_text _ "annotate").
Qed.

End WithHost.
End DirectivesFacts.

Module DirectivesProperties.
Import Json RegExp OptionsSpec ConfigDirectives DirectivesSpec MatcherFacts
       ConfigProviderFacts DirectivesFacts.

Section WithHost.
Context `{Host} `{ParseErrors}.

Lemma extraction_unfold (filePath : string) (cms : list (string * json))
    (w : gmap string string) (content : string) (re : regex) :
  w !! filePath = Some content →
  new_RegExp (member "singleLineComment" cms) (member "configMarker" cms) = Return re →
  extractConfigFromFileContent filePath (Some (JObj cms)) w
  = match collect filePath content (matchAll true re content) [] with
    | Return newConfig =>
        (Return (mkExtraction (spread_over cms newConfig)
                              (replace_all_empty true re content)), w)
    | Throw e => (Throw e, w)
    end.
Proof.
  intros Hfile Hre. unfold extractConfigFromFileContent.
  erewrite bind_return; [|unfold readFileContentSync; by rewrite Hfile].
  cbn [get]. rewrite !FolderFacts.bind_mret.
  erewrite bind_return; [|unfold pure_step; by rewrite Hre].
  unfold mbind, M_bind, pure_step.
  by destruct (collect _ _ _ _).
Qed.

(** X17. The error [extractConfigFromFileContent] throws for a directive it
    cannot parse names the option and the file: every [Error] it throws
    reads "Could not parse option", the name [processors] or [appenders],
    "on file", the path it was called with, and the parser's words; and
    the files are as they were. *)
Theorem extraction_error_names_file (filePath : string) (config : jsval)
    (w : gmap string string) (message : string) (w' : gmap string string) :
  extractConfigFromFileContent filePath config w = (Throw (Error message), w') →
  w' = w
  ∧ ∃ name tail,
      (name = "processors" ∨ name = "appenders")
      ∧ message = "Could not parse option '" +:+ name +:+ "' on file '"
                  +:+ filePath +:+ "': " +:+ tail.
Proof.
  unfold extractConfigFromFileContent. intros Hrun.
  apply bind_cases in Hrun as [(e & Hm & [= <-]) | (content & w1 & Hm & Hrun)].
  { unfold readFileContentSync in Hm. by destruct (w !! filePath). }
  assert (w1 = w) as ->.
  { unfold readFileContentSync in Hm. destruct (w !! filePath); by injection Hm. }
  apply bind_cases in Hrun as [(e & Hg & [= <-]) | (comment & w1 & Hg & Hrun)].
  { by destruct config as [[]|]. }
  assert (w1 = w) as -> by (destruct config as [[]|]; by injection Hg).
  apply bind_cases in Hrun as [(e & Hg2 & [= <-]) | (marker & w1 & Hg2 & Hrun)].
  { by destruct config as [[]|]. }
  assert (w1 = w) as -> by (destruct config as [[]|]; by injection Hg2).
  apply bind_cases in Hrun as [(e & Hre & [= <-]) | (re & w1 & Hre & Hrun)].
  { unfold pure_step, new_RegExp in Hre. destruct (_ && _); [done|].
    by destruct (RegExp_parse _). }
  assert (w1 = w) as -> by (unfold pure_step in Hre; by injection Hre).
  apply bind_cases in Hrun as [(e & Hc & [= <-]) | (newConfig & w1 & Hc & Hrun)];
    [|done].
  unfold pure_step in Hc. injection Hc as Hc <-. split; [done|].
  apply collect_error in Hc as (c & _ & Hname & _ & [= ->]).
  exists (directive_key content c). eauto.
Qed.

(** X18. Directives are merged over the configuration in file order: when
    [extractConfigFromFileContent] returns, a name other than [__proto__]
    holds in the returned configuration what the last directive of that
    name gives, and a name no directive has holds what the configuration
    handed in held. *)
Theorem extraction_later_directive_wins (filePath : string)
    (cms : list (string * json)) (w : gmap string string) (content : string)
    (re : regex) (result : extraction) (w' : gmap string string) :
  NoDup cms.*1 →
  w !! filePath = Some content →
  new_RegExp (member "singleLineComment" cms) (member "configMarker" cms) = Return re →
  extractConfigFromFileContent filePath (Some (JObj cms)) w = (Return result, w') →
  (∀ sooner c later k v,
     matchAll true re content = sooner ++ c :: later →
     directive_key content c = k → k ≠ "__proto__" →
     Forall (λ c', directive_key content c' ≠ k) later →
     directive_gives filePath content c = Return v →
     read k (config result) = v)
  ∧ (∀ k, Forall (λ c, directive_key content c ≠ k) (matchAll true re content) →
          read k (config result) = member k cms).
Proof.
  intros Hnd Hfile Hre Hrun. rewrite (extraction_unfold _ _ _ _ _ Hfile Hre) in Hrun.
  destruct (collect _ _ _ _) as [newConfig|] eqn:Hcollect; [|done].
  injection Hrun as <- <-. cbn [config]. unfold spread_over.
  split.
  - intros sooner c later k v Hsplit Hkey Hk Hlater Hv.
    destruct (collect_read _ _ k _ Hk _ _ Hcollect) as (Hdistinct & _ & Hlast).
    destruct (Hlast _ _ _ _ Hsplit Hkey Hlater Hv) as [Hread Hpresent].
    rewrite read_spread_properties, fold_distinct; [done| |done].
    apply Hdistinct. apply NoDup_nil_2.
  - intros k Hnone.
    destruct (collect_untouched _ _ k _ _ _ Hnone Hcollect) as [_ Hpresent].
    rewrite read_spread_properties, fold_absent by done.
    rewrite read_lifted. rewrite member_last_NoDup by done.
    by destruct (member k cms).
Qed.

(** X19. The content [extractConfigFromFileContent] returns is the file's
    text with the directives taken out: what is left of the text after
    dropping some of its code units, the others kept in order.  The file
    itself is not written. *)
Theorem extraction_only_deletes (filePath : string) (config : jsval)
    (w : gmap string string) (content : string) (result : extraction)
    (w' : gmap string string) :
  w !! filePath = Some content →
  extractConfigFromFileContent filePath config w = (Return result, w') →
  w' = w
  ∧ sublist (String.list_ascii_of_string (fileContent result))
            (String.list_ascii_of_string content).
Proof.
  intros Hfile Hrun. unfold extractConfigFromFileContent in Hrun.
  erewrite bind_return in Hrun; [|unfold readFileContentSync; by rewrite Hfile].
  apply bind_inv in Hrun as (comment & w1 & Hg & Hrun).
  assert (w1 = w) as -> by (destruct config as [[]|]; by injection Hg).
  apply bind_inv in Hrun as (marker & w1 & Hg2 & Hrun).
  assert (w1 = w) as -> by (destruct config as [[]|]; by injection Hg2).
  apply bind_inv in Hrun as (re & w1 & Hre & Hrun).
  assert (w1 = w) as -> by (unfold pure_step in Hre; by injection Hre).
  apply bind_inv in Hrun as (newConfig & w1 & Hc & Hrun).
  assert (w1 = w) as -> by (unfold pure_step in Hc; by injection Hc).
  injection Hrun as <- <-. split; [done|]. cbn [fileContent].
  rewrite StripFacts.replace_all_erases. apply erase_sublist.
Qed.

End WithHost.
End DirectivesProperties.

(** ** The further properties on the worked inputs *)

Module MoreWorkedExamples.
Import Json JS RegExp ScafflaterOptions OptionsSpec ExampleHost OptionsExample
       MoreOptionsExample MatcherVocabulary ConfigDirectives DirectivesSpec
       WorkedExamples.
Import (hints) ProcessorExample PipelineExample ManifestExample DirectivesExample.

Lemma this_has_fields : has_fields tprops.
Proof.
  assert (Hall : Forall (λ k, is_Some (tprops !! k)) field_names)
    by (apply (bool_decide_unpack _); vm_compute; exact I).
  intros k Hk. exact (proj1 (Forall_forall _ _) Hall k Hk).
Qed.

Lemma this_not_debugging : debug_mode tprops = false.
Proof. vm_compute. reflexivity. Qed.

(** A stage that fails between two that append. *)
Lemma pipeline_stops_at_throw_witness :
  Processor.runProcessorsPipeline
    ([PipelineExample.append "1"] ++ PipelineExample.failing "boom"
       :: [PipelineExample.append "2"])
    VUndefined "a" ProcessorExample.scope
  = (Throw (Error "boom"), (spread [VUndefined] ProcessorExample.scope).2).
Proof.
  apply (PipelineProperties.pipeline_stops_at_throw
           [PipelineExample.append "1"] [PipelineExample.append "2"]
           (PipelineExample.failing "boom") VUndefined "a" ProcessorExample.scope
           (spread [VUndefined] ProcessorExample.scope).2
           (spread [VUndefined] ProcessorExample.scope).2
           (spread [VUndefined] ProcessorExample.scope).2
           (VRef 2%positive) (VRef 2%positive) "a1" (Error "boom"));
    vm_compute; reflexivity.
Defined.

(** Two stages of the base class on a padded text. *)
Lemma base_stages_trim_witness :
  ∃ a,
    Processor.runProcessorsPipeline [PipelineExample.pass; PipelineExample.pass]
      VUndefined "  a  " ProcessorExample.scope
    = (Return "a",
       with_heap (insert a (Object PlainObject ∅)) ProcessorExample.scope)
    ∧ heap ProcessorExample.scope !! a = None.
Proof.
  apply (PipelineProperties.base_stages_trim
           [PipelineExample.pass; PipelineExample.pass] VUndefined "  a  "
           ProcessorExample.scope).
  - repeat constructor.
  - discriminate.
Defined.

(** An argument that sets the marker and has a property [__proto__]: the
    instance takes the marker, leaves [__proto__] and keeps the initial
    value of [annotate]. *)
Lemma constructor_overrides_defaults_witness :
  ∃ this w' ps,
    new_ScafflaterOptions (VRef debug_addr) override_world = (Return this, w')
    ∧ heap w' !! this = Some (Object OptionsInstance ps)
    ∧ ps !! "optionMarker" = Some (VStr "@opt")
    ∧ ps !! "__proto__" = None
    ∧ ps !! "annotate" = Some (VBool false).
Proof.
  assert (Hopt : allocated (heap override_world) (VRef debug_addr))
    by (eexists; vm_compute; reflexivity).
  assert (Hmode : own_props (heap override_world) (VRef debug_addr) !! "mode"
                  ≠ Some (VStr "debug")) by (vm_compute; discriminate).
  assert (Hmarker : own_props (heap override_world) (VRef debug_addr) !! "optionMarker"
                    = Some (VStr "@opt")) by (vm_compute; reflexivity).
  assert (Hannotate : own_props (heap override_world) (VRef debug_addr) !! "annotate"
                      = None) by (vm_compute; reflexivity).
  destruct (ConstructorProperties.constructor_overrides_defaults (VRef debug_addr)
              override_world Hopt Hmode)
    as (this & w' & ps & p & a & c & s & Hrun & _ & _ & _ & Hthis & Hown & Hproto
        & Hdef & _).
  exists this, w', ps. split; [exact Hrun|]. split; [exact Hthis|].
  split; [apply Hown; [discriminate|exact Hmarker]|]. split; [exact Hproto|].
  rewrite (Hdef "annotate" Hannotate). reflexivity.
Defined.

(** An argument that asks for debug mode: the shared logger is written. *)
Lemma debug_mode_sets_logger_level_witness :
  ∃ this w',
    new_ScafflaterOptions (VRef debug_addr) debug_world = (Return this, w')
    ∧ heap w' !! logger_addr
      = Some (Object (kind_of logger_object)
                (<["level" := VStr "debug"]> (props logger_object))).
Proof.
  destruct (ConstructorProperties.debug_mode_sets_logger_level
              (VRef debug_addr) debug_world logger_addr logger_object)
    as (this & w' & Hrun & _ & Hl & _);
    [by eexists | vm_compute; reflexivity | vm_compute; reflexivity
    | vm_compute; reflexivity |].
  exists this, w'. exact (conj Hrun Hl).
Defined.

(** Debug mode with the logger set to [null]. *)
Lemma debug_mode_needs_logger_witness :
  ∃ w', new_ScafflaterOptions (VRef debug_addr) mute_world = (Throw TypeError, w').
Proof.
  destruct (ConstructorProperties.debug_mode_needs_logger (VRef debug_addr) mute_world)
    as (w' & Hrun & _);
    [by eexists | vm_compute; reflexivity | intros l; by vm_compute |].
  exists w'. exact Hrun.
Defined.

(** A text whose one directive lies in a region. *)
Lemma no_directive_copies_receiver_witness :
  directives_of w this frozen_only = Return ([first_match], [region])
  ∧ ∃ r w',
      getConfigFromString this frozen_only w = (Return r, w')
      ∧ heap w' !! r = Some (Object OptionsInstance (delete "__proto__" tprops)).
Proof.
  assert (Hdir : directives_of w this frozen_only = Return ([first_match], [region]))
    by (vm_compute; reflexivity).
  split; [exact Hdir|].
  destruct (OptionsMoreProperties.no_directive_copies_receiver this frozen_only w
              [first_match] [region] tprops this_is_receiver this_has_fields
              this_not_debugging Hdir)
    as (r & w' & Hrun & _ & _ & _ & Hr); [vm_compute; reflexivity|].
  exists r, w'. exact (conj Hrun Hr).
Defined.

(** A text without braces. *)
Lemma text_without_brace_copies_receiver_witness :
  lacks "{" plain_text = true
  ∧ ∃ r w',
      getConfigFromString this plain_text w = (Return r, w')
      ∧ heap w' !! r = Some (Object OptionsInstance (delete "__proto__" tprops)).
Proof.
  split; [reflexivity|].
  destruct (OptionsMoreProperties.text_without_brace_copies_receiver this plain_text w
              tprops "@scf-option" [] this_is_receiver this_has_fields
              this_not_debugging)
    as (r & w' & Hrun & _ & _ & _ & Hr);
    [vm_compute; reflexivity | reflexivity | vm_compute; reflexivity | reflexivity |].
  exists r, w'. exact (conj Hrun Hr).
Defined.



(** A folder that holds no manifest. *)
Lemma folder_without_manifest_copies_receiver_witness :
  files w !! path_join "none" "scafflater.jsonc" = None
  ∧ ∃ r w',
      getFolderOptions this "none" VUndefined w = (Return r, w')
      ∧ heap w' !! r = Some (Object OptionsInstance (delete "__proto__" tprops))
      ∧ log w' = log w.
Proof.
  split; [vm_compute; reflexivity|].
  destruct (OptionsMoreProperties.folder_without_manifest_copies_receiver this "none"
              VUndefined w tprops "scafflater.jsonc" this_is_receiver this_has_fields
              this_not_debugging)
    as (r & w' & Hrun & _ & _ & (_ & Hlog & _) & Hr);
    [vm_compute; reflexivity | vm_compute; reflexivity |].
  exists r, w'. exact (conj Hrun (conj Hr Hlog)).
Defined.

(** The folder with options in its manifest, read without a context. *)
Lemma folder_options_need_context_witness :
  readJSON_parse manifest_text = Some (JObj [("options", JObj folder_options)])
  ∧ ∃ w', getFolderOptions this "t" VUndefined w = (Throw TypeError, w').
Proof.
  split; [vm_compute; reflexivity|].
  destruct (OptionsMoreProperties.folder_options_need_context this "t" w tprops
              "scafflater.jsonc" manifest_text [("options", JObj folder_options)]
              folder_options this_is_receiver)
    as (w' & Hrun & _);
    [vm_compute; reflexivity | vm_compute; reflexivity | vm_compute; reflexivity
    | reflexivity | discriminate |].
  exists w'. exact Hrun.
Defined.

(** Stripping the annotated text. *)
Lemma stripConfig_only_deletes_witness :
  stripConfig this annotated w = (Return stripped, w)
  ∧ sublist (String.list_ascii_of_string stripped)
            (String.list_ascii_of_string annotated).
Proof.
  assert (Hrun : stripConfig this annotated w = (Return stripped, w))
    by (vm_compute; reflexivity).
  split; [exact Hrun|].
  exact (proj1 (OptionsMoreProperties.stripConfig_only_deletes this annotated w
                  stripped w Hrun)).
Defined.

Lemma stripConfig_keeps_text_without_brace_witness :
  lacks "{" plain_text = true
  ∧ stripConfig this plain_text w = (Return plain_text, w).
Proof.
  split; [reflexivity|].
  apply (OptionsMoreProperties.stripConfig_keeps_text_without_brace this plain_text w
           tprops "@scf-option" this_is_receiver);
    [vm_compute; reflexivity | reflexivity | reflexivity].
Defined.

Lemma defaults_distinct : NoDup ConfigProvider.new_ConfigProvider.*1.
Proof. apply (bool_decide_unpack _). vm_compute. exact I. Qed.

(** A folder that holds no manifest. *)
Lemma mergeFolderConfig_without_folder_config_witness :
  ConfigProvider.mergeFolderConfig "none" (Some (JObj ConfigProvider.new_ConfigProvider))
    FolderExample.disk
  = (Return ConfigProvider.new_ConfigProvider, FolderExample.disk).
Proof.
  apply (ConfigProviderProperties.mergeFolderConfig_without_folder_config "none"
           "_scf.json" ConfigProvider.new_ConfigProvider FolderExample.disk
           defaults_distinct eq_refl).
  left. vm_compute. reflexivity.
Defined.

(** No configuration at all. *)
Lemma mergeFolderConfig_needs_file_name_witness :
  ConfigProvider.mergeFolderConfig "t" None FolderExample.disk
  = (Throw TypeError, FolderExample.disk).
Proof.
  apply (ConfigProviderProperties.mergeFolderConfig_needs_file_name "t" None
           FolderExample.disk).
  intros ms f. discriminate.
Defined.

(** Merging the folder's configuration twice. *)
Lemma mergeFolderConfig_idempotent_witness :
  ∃ result,
    ConfigProvider.mergeFolderConfig "t" (Some (JObj ConfigProvider.new_ConfigProvider))
      FolderExample.disk
    = (Return result, FolderExample.disk)
    ∧ ConfigProvider.mergeFolderConfig "t" (Some (JObj result)) FolderExample.disk
      = (Return result, FolderExample.disk).
Proof.
  apply (ConfigProviderProperties.mergeFolderConfig_idempotent "t" "_scf.json"
           ConfigProvider.new_ConfigProvider
           [("config", JObj FolderExample.folder_config)]
           FolderExample.folder_config FolderExample.disk defaults_distinct).
  - apply (bool_decide_unpack _). vm_compute. exact I.
  - reflexivity.
  - vm_compute. reflexivity.
  - reflexivity.
  - reflexivity.
Defined.

(** A list that is never closed, as the value of [appenders]. *)
Lemma extraction_error_names_file_witness :
  extractConfigFromFileContent "t/broken"
    (Some (JObj ConfigProvider.new_ConfigProvider)) DirectivesExample.disk
  = (Throw (Error "Could not parse option 'appenders' on file 't/broken': SyntaxError: [1, 2 is not valid JSON"),
     DirectivesExample.disk)
  ∧ ∃ name tail,
      (name = "processors" ∨ name = "appenders")
      ∧ "Could not parse option 'appenders' on file 't/broken': SyntaxError: [1, 2 is not valid JSON"
        = "Could not parse option '" +:+ name +:+ "' on file '" +:+ "t/broken"
          +:+ "': " +:+ tail.
Proof.
  assert (Hrun : extractConfigFromFileContent "t/broken"
                   (Some (JObj ConfigProvider.new_ConfigProvider)) DirectivesExample.disk
                 = (Throw (Error "Could not parse option 'appenders' on file 't/broken': SyntaxError: [1, 2 is not valid JSON"),
                    DirectivesExample.disk)) by (vm_compute; reflexivity).
  split; [exact Hrun|].
  exact (proj2 (DirectivesProperties.extraction_error_names_file _ _ _ _ _ Hrun)).
Defined.

Lemma template_extracted :
  extractConfigFromFileContent "t/template"
    (Some (JObj ConfigProvider.new_ConfigProvider)) DirectivesExample.disk
  = (Return DirectivesExample.extracted, DirectivesExample.disk).
Proof. vm_compute. reflexivity. Qed.

(** Two directives named [annotate]: the later one counts; the file name
    no directive names stays. *)
Lemma extraction_later_directive_wins_witness :
  matchAll true DirectivesExample.pattern DirectivesExample.template
  = DirectivesExample.found ++ DirectivesExample.last_found :: []
  ∧ read "annotate" (config DirectivesExample.extracted) = Some (JBool false)
  ∧ read "scfFileName" (config DirectivesExample.extracted) = Some (JStr "_scf.json").
Proof.
  assert (Hfound : matchAll true DirectivesExample.pattern DirectivesExample.template
                   = DirectivesExample.found ++ DirectivesExample.last_found :: [])
    by (vm_compute; reflexivity).
  split; [exact Hfound|].
  assert (Hfile : DirectivesExample.disk !! "t/template"
                  = Some DirectivesExample.template) by (vm_compute; reflexivity).
  assert (Hre : new_RegExp (member "singleLineComment" ConfigProvider.new_ConfigProvider)
                           (member "configMarker" ConfigProvider.new_ConfigProvider)
                = Return DirectivesExample.pattern) by (vm_compute; reflexivity).
  destruct (DirectivesProperties.extraction_later_directive_wins "t/template"
              ConfigProvider.new_ConfigProvider DirectivesExample.disk
              DirectivesExample.template DirectivesExample.pattern
              DirectivesExample.extracted DirectivesExample.disk defaults_distinct
              Hfile Hre template_extracted) as [Hlast Hkept].
  split.
  - apply (Hlast DirectivesExample.found DirectivesExample.last_found [] "annotate"
             (Some (JBool false)) Hfound).
    + vm_compute. reflexivity.
    + discriminate.
    + constructor.
    + vm_compute. reflexivity.
  - apply (Hkept "scfFileName"). rewrite Hfound.
    repeat constructor; by vm_compute.
Defined.

Lemma extraction_only_deletes_witness :
  sublist (String.list_ascii_of_string (fileContent DirectivesExample.extracted))
          (String.list_ascii_of_string DirectivesExample.template).
Proof.
  assert (Hfile : DirectivesExample.disk !! "t/template"
                  = Some DirectivesExample.template) by (vm_compute; reflexivity).
  exact (proj2 (DirectivesProperties.extraction_only_deletes "t/template" _
                  DirectivesExample.disk DirectivesExample.template
                  DirectivesExample.extracted DirectivesExample.disk
                  Hfile template_extracted)).
Defined.

(** A configuration that turns the annotation off. *)
Lemma constructor_config_over_defaults_witness :
  member "annotate" (Scafflater.new_config (Some (JObj [("annotate", JBool false)])))
  = Some (JBool false).
Proof.
  assert (Hnd : NoDup [("annotate", JBool false)].*1)
    by (apply (bool_decide_unpack _); vm_compute; exact I).
  apply (proj1 (ScafflaterProperties.constructor_config_over_defaults
                  [("annotate", JBool false)] "annotate" Hnd)).
Defined.

(** [init] over the example disk, whose manifest listed a partial. *)
Lemma init_starts_manifest_witness :
  (Scafflater.init ManifestExample.config "tpl" ManifestExample.parameters "."
     ManifestExample.disk).2 !! "./_scf.json"
  = Some (FsDocs.Doc (JObj
      [ ("template", JObj [("name", JStr "tpl")]);
        ("partials",
         JArr [Scafflater.applied_record (Some (JStr "tpl")) "_init"
                 ManifestExample.parameters]) ])).
Proof.
  destruct (Scafflater.init ManifestExample.config "tpl" ManifestExample.parameters "."
              ManifestExample.disk) as [r w'] eqn:E.
  assert (Hr : r = Return tt).
  { change r with (r, w').1. rewrite <- E. vm_compute. reflexivity. }
  subst r.
  destruct ScafflaterFacts.example_collaborators_preserve_manifest as (F1 & F2 & F3).
  destruct (ScafflaterProperties.init_starts_manifest ManifestExample.config "tpl"
              ManifestExample.parameters "." "_scf.json" ManifestExample.disk
              (Return tt) w' eq_refl F1 F2 F3 E)
    as [(e & [=] & _) | (tc & w1 & Htc & Hm)].
  injection Htc as <- <-. exact Hm.
Defined.

End MoreWorkedExamples.
